(** * xcpcio core: the ranking engine ([rank.ts]) and the contest record
    ([contest.ts]: award construction, clock, groups), embedded shallowly.

    JavaScript numbers that hold counters, ranks and timestamps are modelled
    as [Z].  [setWidth] is embedded twice: [Binary64.setWidth] is the method
    with the arithmetic of doubles, [RankOptions.setWidth] reads the same
    product in exact rational arithmetic and yields the integer cutoff the
    engine filters with.  Objects that are shared by
    reference (teams, problems, per-team problem statistics) live in lists
    that act as a heap: an index is a reference, a [Map] from ids to objects
    is a [gmap] from ids to indices.  A [dayjs] instant is the number of
    milliseconds it stands for. *)

From Stdlib Require Import ZArith QArith Qround.
From Stdlib Require OrdersEx Floats.
From stdpp Require Import base tactics option list sorting gmap strings.

Local Open Scope Z_scope.

(** ** [Array.prototype.sort]

    ECMAScript requires the sort to be stable, and for a consistent
    comparator the stable sorted arrangement is unique, so one stable
    algorithm describes every engine. *)

Section js_sort.
Context {A : Type} (cmp : A → A → Z).

Fixpoint sort_insert (x : A) (l : list A) : list A :=
  match l with
  | [] => [x]
  | y :: l' => if decide (cmp x y ≤ 0) then x :: l else y :: sort_insert x l'
  end.

Definition js_sort (l : list A) : list A := foldr sort_insert [] l.

(** [a] may stand before [b]. *)
Definition cmp_le (a b : A) : Prop := cmp a b ≤ 0.
End js_sort.

(** ECMAScript's "consistent comparator". *)
Record ConsistentComparator {A : Type} (cmp : A → A → Z) : Prop := {
  cmp_refl : ∀ x, cmp x x = 0;
  cmp_antisym : ∀ x y, cmp x y < 0 ↔ 0 < cmp y x;
  cmp_trans : ∀ x y z, cmp x y ≤ 0 → cmp y z ≤ 0 → cmp x z ≤ 0
}.

(** ** [new Map(list.map(x => [key(x), x]))]

    Entries are inserted left to right, so a later duplicate key replaces
    an earlier one.  The stored value is the position of the object. *)

Definition js_map_of {A : Type} (key : A → string) (l : list A) : gmap string nat :=
  foldl (λ m ix, <[key ix.2 := ix.1]> m) ∅ (zip (seq 0 (length l)) l).

(** ** Submissions *)

Module Submission.
Record t := mk {
  id : string;
  teamId : string;
  problemId : string;
  timestamp : Z;
  isIgnore : bool;
  status : string
}.

(** The class body lives in [submission.ts], which is not part of the
    sources at hand: its verdict predicates and its comparator are taken
    as an interface. *)
Class Methods := {
  isAccepted : t → bool;
  isRejected : t → bool;
  isPending : t → bool;
  isNotCalculatedPenaltyStatus : t → bool;
  compare : t → t → Z
}.
End Submission.

Abbreviation Submissions := (list Submission.t).

(** ** Problems and their statistics *)

Module ProblemStatistics.
Record t := mk {
  acceptedNum : Z;
  rejectedNum : Z;
  pendingNum : Z;
  submittedNum : Z;
  attemptedNum : Z;
  ignoreNum : Z;
  firstSolveSubmissions : Submissions;
  lastSolveSubmissions : Submissions
}.

(** Modelled from the spec: [ProblemStatistics.reset] of [problem.ts] is
    missing; the spec has it reset "every problem's aggregate statistics",
    counters that are "non-negative" and lists that start empty. *)
Definition reset (_ : t) : t := mk 0 0 0 0 0 0 [] [].
End ProblemStatistics.

Module Problem.
Record t := mk { id : string; statistics : ProblemStatistics.t }.

Definition set_statistics (f : ProblemStatistics.t → ProblemStatistics.t) (p : t) : t :=
  mk (id p) (f (statistics p)).
End Problem.

(** ** Awards and the contest *)

Module Award.
Inductive MedalType := GOLD | SILVER | BRONZE | HONORABLE.

Record t := mk { medalType : MedalType; minRank : Z; maxRank : Z }.
End Award.

Module Contest.
Record t := mk {
  startTime : Z;   (* [startTime.unix()] *)
  endTime : Z;     (* [endTime.unix()] *)
  penalty : Z;
  problems : list Problem.t;
  problemsMap : gmap string nat;
  organization : option string;
  awards : option (gmap string (list Award.t))
}.

Definition set_problems (ps : list Problem.t) (c : t) : t :=
  mk (startTime c) (endTime c) (penalty c) ps (problemsMap c)
     (organization c) (awards c).

(** [contest.problemsMap.get(problemId)]: the problem object and its place. *)
Definition getProblem (c : t) (pid : string) : option (nat * Problem.t) :=
  j ← problemsMap c !! pid; p ← problems c !! j; Some (j, p).
End Contest.

(** [0x3F3F3F3F] *)
Definition MAX_RANK : Z := 1061109567.

(** The closure [work] of [createContest]: [st] carries the array [award]
    and the counter [rank] it captures. *)
Definition work (v : gmap string Z) (key : string) (medalType : Award.MedalType)
    (st : list Award.t * Z) : list Award.t * Z :=
  match v !! key with
  | Some n => (st.1 ++ [Award.mk medalType st.2 (st.2 + n - 1)], st.2 + n)
  | None => st
  end.

(** The body of the loop over the groups of [contestJSON.medal]. *)
Definition createAwardList (v : gmap string Z) : list Award.t :=
  let st := ([], 1) in
  let st := work v "gold" Award.GOLD st in
  let st := work v "silver" Award.SILVER st in
  let st := work v "bronze" Award.BRONZE st in
  st.1 ++ [Award.mk Award.HONORABLE st.2 MAX_RANK].

Definition createAwards (medal : option (gmap string (gmap string Z)))
    : option (gmap string (list Award.t)) :=
  (λ groups : gmap string (gmap string Z), createAwardList <$> groups) <$> medal.

(** [c.problemsMap = new Map(c.problems.map(p => [p.id, p]))] *)
Definition createProblemsMap (ps : list Problem.t) : gmap string nat :=
  js_map_of Problem.id ps.

(** ** Rank options *)

Module RankOptions.
Record t := mk {
  enableFilterSubmissionsByTimestamp : bool;
  width : Q;
  timestamp : Z
}.

Definition new : t := mk false 0%Q 0.

(** [setWidth] with the product read in exact arithmetic.  The doubles of
    the method are in [Binary64.setWidth] below; where the double product
    rounds up to an integer the two cutoffs differ by one. *)
Definition setWidth (w : Q) (contest : Contest.t) (_ : t) : t :=
  mk true w
     (Qfloor (inject_Z (Contest.endTime contest - Contest.startTime contest)
              * w * (1 # 10000))).

Definition disableFilterSubmissionByTimestamp (o : t) : t :=
  mk false (width o) (timestamp o).
End RankOptions.

(** The cutoff as the engine computes it, in binary64 arithmetic, for an
    integer duration and an integer width: [Math.floor(d * width * 0.0001)].
    It serves to check the idealisation above on concrete inputs. *)

Module Binary64.
Import Floats.

Definition ofZ (z : Z) : float := SF2Prim (binary_normalize prec emax z 0 false).

(** [Math.floor] of a finite double; [None] for [NaN] and the infinities. *)
Definition floor (x : float) : option Z :=
  match Prim2SF x with
  | S754_zero _ => Some 0
  | S754_finite s m e =>
      let z := if s then Z.neg m else Z.pos m in
      Some (if 0 <=? e then z * 2 ^ e else Z.shiftr z (- e))
  | _ => None
  end.

(** [0.0001], the double nearest to it. *)
Definition tenThousandth : float := 0x1.a36e2eb1c432dp-14%float.

Definition cutoff (d w : Z) : option Z :=
  floor (PrimFloat.mul (PrimFloat.mul (ofZ d) (ofZ w)) tenThousandth).

(** The exact value of a finite double; [None] for [NaN] and the
    infinities. *)
Definition toQ (x : float) : option Q :=
  match Prim2SF x with
  | S754_zero _ => Some 0%Q
  | S754_finite s m e =>
      let z := if s then Z.neg m else Z.pos m in
      Some (if 0 <=? e then inject_Z (z * 2 ^ e) else Qmake z (2 ^ Z.to_pos (- e)))
  | _ => None
  end.

(** [RankOptions] with its numbers as JavaScript holds them: the width is
    a double, the cutoff what [Math.floor] returns, an integer or, for
    [None], the [NaN] or infinity it was given. *)
Record options := mkOptions {
  enableFilterSubmissionsByTimestamp : bool;
  width : float;
  timestamp : option Z
}.

(** The constructor of [RankOptions]. *)
Definition new : options := mkOptions false 0%float (Some 0).

(** [(contest.endTime.unix() - contest.startTime.unix()) * this.width * 0.0001],
    every operation one of doubles; the two [unix()] values are the doubles
    of the contest's times in seconds. *)
Definition product (w : float) (contest : Contest.t) : float :=
  PrimFloat.mul
    (PrimFloat.mul
       (PrimFloat.sub (ofZ (Contest.endTime contest)) (ofZ (Contest.startTime contest)))
       w)
    tenThousandth.

(** [setWidth] *)
Definition setWidth (w : float) (contest : Contest.t) (_ : options) : options :=
  mkOptions true w (floor (product w contest)).
End Binary64.

(** ** Per-team problem statistics *)

Module TeamProblemStatistics.
Record t := mk {
  problem : string;   (* the id of [ps.problem], all that [rank.ts] reads of it *)
  contestPenalty : Z;
  submissions : Submissions;
  isFirstSolved : bool;
  isSolved : bool;
  solvedTimestamp : Z;
  isSubmitted : bool;
  lastSubmitTimestamp : Z;
  failedCount : Z;
  pendingCount : Z;
  ignoreCount : Z;
  totalCount : Z
}.

(** Modelled from the spec: the constructor of [TeamProblemStatistics]
    ([problem.ts]) is missing; a "new statistics object per problem" has
    its flags cleared, its counters at zero and no submissions.  The two
    assignments that follow it in [buildRank] are folded in. *)
Definition new (p : Problem.t) (penalty : Z) : t :=
  mk (Problem.id p) penalty [] false false 0 false 0 0 0 0 0.

(** [submissions.push(s)] *)
Definition push (s : Submission.t) (ps : t) : t :=
  mk (problem ps) (contestPenalty ps) (submissions ps ++ [s]) (isFirstSolved ps)
     (isSolved ps) (solvedTimestamp ps) (isSubmitted ps) (lastSubmitTimestamp ps)
     (failedCount ps) (pendingCount ps) (ignoreCount ps) (totalCount ps).

(** [ignoreCount++] *)
Definition incIgnore (ps : t) : t :=
  mk (problem ps) (contestPenalty ps) (submissions ps) (isFirstSolved ps)
     (isSolved ps) (solvedTimestamp ps) (isSubmitted ps) (lastSubmitTimestamp ps)
     (failedCount ps) (pendingCount ps) (ignoreCount ps + 1) (totalCount ps).

(** [isSubmitted = true; lastSubmitTimestamp = ts; totalCount++] *)
Definition counted (ts : Z) (ps : t) : t :=
  mk (problem ps) (contestPenalty ps) (submissions ps) (isFirstSolved ps)
     (isSolved ps) (solvedTimestamp ps) true ts
     (failedCount ps) (pendingCount ps) (ignoreCount ps) (totalCount ps + 1).

(** [isSolved = true; solvedTimestamp = ts] *)
Definition solve (ts : Z) (ps : t) : t :=
  mk (problem ps) (contestPenalty ps) (submissions ps) (isFirstSolved ps)
     true ts (isSubmitted ps) (lastSubmitTimestamp ps)
     (failedCount ps) (pendingCount ps) (ignoreCount ps) (totalCount ps).

(** [isFirstSolved = true] *)
Definition markFirstSolved (ps : t) : t :=
  mk (problem ps) (contestPenalty ps) (submissions ps) true
     (isSolved ps) (solvedTimestamp ps) (isSubmitted ps) (lastSubmitTimestamp ps)
     (failedCount ps) (pendingCount ps) (ignoreCount ps) (totalCount ps).

(** [failedCount++] *)
Definition incFailed (ps : t) : t :=
  mk (problem ps) (contestPenalty ps) (submissions ps) (isFirstSolved ps)
     (isSolved ps) (solvedTimestamp ps) (isSubmitted ps) (lastSubmitTimestamp ps)
     (failedCount ps + 1) (pendingCount ps) (ignoreCount ps) (totalCount ps).

(** [pendingCount++] *)
Definition incPending (ps : t) : t :=
  mk (problem ps) (contestPenalty ps) (submissions ps) (isFirstSolved ps)
     (isSolved ps) (solvedTimestamp ps) (isSubmitted ps) (lastSubmitTimestamp ps)
     (failedCount ps) (pendingCount ps + 1) (ignoreCount ps) (totalCount ps).
End TeamProblemStatistics.

Module ProblemStatisticsOps.
Import ProblemStatistics.

(** [submittedNum++] *)
Definition incSubmitted (st : t) : t :=
  mk (acceptedNum st) (rejectedNum st) (pendingNum st) (submittedNum st + 1)
     (attemptedNum st) (ignoreNum st) (firstSolveSubmissions st)
     (lastSolveSubmissions st).

(** [ignoreNum++] *)
Definition incIgnore (st : t) : t :=
  mk (acceptedNum st) (rejectedNum st) (pendingNum st) (submittedNum st)
     (attemptedNum st) (ignoreNum st + 1) (firstSolveSubmissions st)
     (lastSolveSubmissions st).

(** [acceptedNum++; attemptedNum += failedCount + 1] *)
Definition accept (failedCount : Z) (st : t) : t :=
  mk (acceptedNum st + 1) (rejectedNum st) (pendingNum st) (submittedNum st)
     (attemptedNum st + (failedCount + 1)) (ignoreNum st)
     (firstSolveSubmissions st) (lastSolveSubmissions st).

(** [firstSolveSubmissions.push(s)] *)
Definition pushFirstSolve (s : Submission.t) (st : t) : t :=
  mk (acceptedNum st) (rejectedNum st) (pendingNum st) (submittedNum st)
     (attemptedNum st) (ignoreNum st) (firstSolveSubmissions st ++ [s])
     (lastSolveSubmissions st).

(** [while (lastSolveSubmissions.length > 0) lastSolveSubmissions.pop()]:
    every turn removes the last element; [fuel] bounds the turns by the
    length, which is what the loop takes. *)
Fixpoint popAll (fuel : nat) (l : Submissions) : Submissions :=
  match fuel with
  | O => l
  | S fuel' => if decide (0 < length l)%nat then popAll fuel' (removelast l) else l
  end.

(** the loop above, then [lastSolveSubmissions.push(s)] *)
Definition resetLastSolve (s : Submission.t) (st : t) : t :=
  mk (acceptedNum st) (rejectedNum st) (pendingNum st) (submittedNum st)
     (attemptedNum st) (ignoreNum st) (firstSolveSubmissions st)
     (popAll (length (lastSolveSubmissions st)) (lastSolveSubmissions st) ++ [s]).

(** [rejectedNum++] *)
Definition incRejected (st : t) : t :=
  mk (acceptedNum st) (rejectedNum st + 1) (pendingNum st) (submittedNum st)
     (attemptedNum st) (ignoreNum st) (firstSolveSubmissions st)
     (lastSolveSubmissions st).

(** [pendingNum++] *)
Definition incPending (st : t) : t :=
  mk (acceptedNum st) (rejectedNum st) (pendingNum st + 1) (submittedNum st)
     (attemptedNum st) (ignoreNum st) (firstSolveSubmissions st)
     (lastSolveSubmissions st).
End ProblemStatisticsOps.

(** ** Teams *)

Module Team.
Record t := mk {
  id : string;
  organization : string;
  rank : Z;
  organizationRank : Z;
  solvedProblemNum : nat;
  penalty : Z;
  lastSolvedProblemTimestamp : Z;
  problemStatistics : list TeamProblemStatistics.t;
  problemStatisticsMap : gmap string nat;
  submissions : Submissions
}.

Definition set_rank (v : Z) (x : t) : t :=
  mk (id x) (organization x) v (organizationRank x) (solvedProblemNum x)
     (penalty x) (lastSolvedProblemTimestamp x) (problemStatistics x)
     (problemStatisticsMap x) (submissions x).

Definition set_organizationRank (v : Z) (x : t) : t :=
  mk (id x) (organization x) (rank x) v (solvedProblemNum x)
     (penalty x) (lastSolvedProblemTimestamp x) (problemStatistics x)
     (problemStatisticsMap x) (submissions x).

Definition set_lastSolvedProblemTimestamp (v : Z) (x : t) : t :=
  mk (id x) (organization x) (rank x) (organizationRank x) (solvedProblemNum x)
     (penalty x) v (problemStatistics x)
     (problemStatisticsMap x) (submissions x).

Definition set_problemStatistics (v : list TeamProblemStatistics.t) (x : t) : t :=
  mk (id x) (organization x) (rank x) (organizationRank x) (solvedProblemNum x)
     (penalty x) (lastSolvedProblemTimestamp x) v
     (problemStatisticsMap x) (submissions x).

Definition set_problemStatisticsMap (v : gmap string nat) (x : t) : t :=
  mk (id x) (organization x) (rank x) (organizationRank x) (solvedProblemNum x)
     (penalty x) (lastSolvedProblemTimestamp x) (problemStatistics x)
     v (submissions x).

Definition set_submissions (v : Submissions) (x : t) : t :=
  mk (id x) (organization x) (rank x) (organizationRank x) (solvedProblemNum x)
     (penalty x) (lastSolvedProblemTimestamp x) (problemStatistics x)
     (problemStatisticsMap x) v.

(** [team.submissions.push(s)] *)
Definition push (s : Submission.t) (x : t) : t :=
  set_submissions (submissions x ++ [s]) x.

(** [team.problemStatisticsMap.get(problemId)]: the statistics object and
    its place in [team.problemStatistics]. *)
Definition getProblemStatistics (x : t) (pid : string)
    : option (nat * TeamProblemStatistics.t) :=
  k ← problemStatisticsMap x !! pid; ps ← problemStatistics x !! k; Some (k, ps).

(** The methods of [team.ts], which is not part of the sources at hand. *)
Class Methods := {
  reset : t → t;
  calcSolvedData : t → t;
  compare : t → t → Z;
  isEqualRank : t → t → bool
}.
End Team.

(** ** Rank statistics

    [teamSolvedNum] is a JavaScript array of numbers: a slot holds a number,
    [NaN], or nothing at all once a write beyond the end has lengthened
    the array. *)

Module RankStatistics.
Inductive cell := Num (z : Z) | NaN | Hole.

Record t := mk { teamSolvedNum : list cell }.

(** Modelled from the spec: [RankStatistics.reset] ([rank-statistics.ts])
    is missing; the histogram is "recomputed fully each build", so a reset
    leaves it empty; [buildRank] overwrites it in its next statement. *)
Definition reset (_ : t) : t := mk [].

Definition new : t := mk [].

Definition set_teamSolvedNum (v : list cell) (_ : t) : t := mk v.

(** [x++] on a slot: [undefined + 1] is [NaN]. *)
Definition incr (c : cell) : cell :=
  match c with Num z => Num (z + 1) | NaN => NaN | Hole => NaN end.

(** [a[k]++] *)
Definition incrAt (k : nat) (a : list cell) : list cell :=
  if decide (k < length a)%nat then alter incr k a
  else a ++ replicate (k - length a)%nat Hole ++ [NaN].
End RankStatistics.

(** ** Rank *)

Module Rank.
Record t := mk {
  contest : Contest.t;
  store : list Team.t;        (* the team objects; a position is a reference *)
  teams : list nat;           (* [this.teams]: references, in array order *)
  teamsMap : gmap string nat;
  submissions : Submissions;
  rankStatistics : RankStatistics.t;
  options : RankOptions.t
}.

Definition set_contest (v : Contest.t) (r : t) : t :=
  mk v (store r) (teams r) (teamsMap r) (submissions r) (rankStatistics r) (options r).

Definition set_store (v : list Team.t) (r : t) : t :=
  mk (contest r) v (teams r) (teamsMap r) (submissions r) (rankStatistics r) (options r).

Definition set_teams (v : list nat) (r : t) : t :=
  mk (contest r) (store r) v (teamsMap r) (submissions r) (rankStatistics r) (options r).

Definition set_rankStatistics (v : RankStatistics.t) (r : t) : t :=
  mk (contest r) (store r) (teams r) (teamsMap r) (submissions r) v (options r).

Definition set_options (v : RankOptions.t) (r : t) : t :=
  mk (contest r) (store r) (teams r) (teamsMap r) (submissions r) (rankStatistics r) v.

(** [this.teamsMap.get(teamId)]: the team object and its reference. *)
Definition getTeam (r : t) (tid : string) : option (nat * Team.t) :=
  i ← teamsMap r !! tid; x ← store r !! i; Some (i, x).
End Rank.

Section rank.
Context `{!Submission.Methods, !Team.Methods}.

(** The constructor: [_.cloneDeep] gives the instance objects of its own,
    which the model has from the start. *)
Definition newRank (contest : Contest.t) (teams : list Team.t)
    (submissions : Submissions) : Rank.t :=
  Rank.mk contest teams (seq 0 (length teams)) (js_map_of Team.id teams)
          (js_sort Submission.compare submissions)
          RankStatistics.new RankOptions.new.

Definition getSubmissions (r : Rank.t) : Submissions :=
  if RankOptions.enableFilterSubmissionsByTimestamp (Rank.options r) then
    js_sort Submission.compare
      (filter (λ s, Submission.timestamp s ≤ RankOptions.timestamp (Rank.options r))
              (Rank.submissions r))
  else Rank.submissions r.

(** [for (const t of this.teams) { ... }] with a body that mutates [t]. *)
Definition forEachTeam (body : Team.t → Team.t) (order : list nat)
    (store : list Team.t) : list Team.t :=
  foldl (λ st i, alter body i st) store order.

(** The body of the first loop of [buildRank]. *)
Definition prepareTeam (contest : Contest.t) (x : Team.t) : Team.t :=
  let x := Team.reset x in
  let x := Team.set_problemStatistics
             ((λ p, TeamProblemStatistics.new p (Contest.penalty contest))
                <$> Contest.problems contest) x in
  Team.set_problemStatisticsMap
    (js_map_of TeamProblemStatistics.problem (Team.problemStatistics x)) x.

(** [this.contest.problems.forEach(p => p.statistics.reset())] *)
Definition resetProblems (c : Contest.t) : Contest.t :=
  Contest.set_problems
    (Problem.set_statistics ProblemStatistics.reset <$> Contest.problems c) c.

(** Writes the three objects a turn of the replay loop has mutated back
    to where they live: the team [x] at reference [i], its statistics
    object [ps] at position [k] of its list, the statistics [st] of the
    problem at position [j]. *)
Definition commit (r : Rank.t) (i : nat) (x : Team.t) (k : nat)
    (ps : TeamProblemStatistics.t) (j : nat) (st : ProblemStatistics.t) : Rank.t :=
  let x := Team.set_problemStatistics (<[k := ps]> (Team.problemStatistics x)) x in
  Rank.set_contest
    (Contest.set_problems
       (alter (Problem.set_statistics (λ _, st)) j (Contest.problems (Rank.contest r)))
       (Rank.contest r))
    (Rank.set_store (<[i := x]> (Rank.store r)) r).

(** The [if (s.isAccepted()) { ... }] block. *)
Definition onAccepted (s : Submission.t)
    (xs : Team.t * TeamProblemStatistics.t * ProblemStatistics.t)
    : Team.t * TeamProblemStatistics.t * ProblemStatistics.t :=
  let '(x, ps, st) := xs in
  let ps := TeamProblemStatistics.solve (Submission.timestamp s) ps in
  let st := ProblemStatisticsOps.accept (TeamProblemStatistics.failedCount ps) st in
  let '(ps, st) :=
    if decide (length (ProblemStatistics.firstSolveSubmissions st) = 0%nat
               ∨ Submission.timestamp <$> last (ProblemStatistics.firstSolveSubmissions st)
                 = Some (Submission.timestamp s))
    then (TeamProblemStatistics.markFirstSolved ps,
          ProblemStatisticsOps.pushFirstSolve s st)
    else (ps, st) in
  let st := ProblemStatisticsOps.resetLastSolve s st in
  (Team.set_lastSolvedProblemTimestamp (Submission.timestamp s) x, ps, st).

(** One turn of [for (const s of this.getSubmissions())].  [None] is the
    [TypeError] of reading [.submissions] of [undefined]. *)
Definition replayStep (r : Rank.t) (s : Submission.t) : option Rank.t :=
  match Rank.getTeam r (Submission.teamId s),
        Contest.getProblem (Rank.contest r) (Submission.problemId s) with
  | Some (i, team), Some (j, problem) =>
      '(k, ps) ← Team.getProblemStatistics team (Submission.problemId s);
      let ps := TeamProblemStatistics.push s ps in
      let team := Team.push s team in
      let st := ProblemStatisticsOps.incSubmitted (Problem.statistics problem) in
      if TeamProblemStatistics.isSolved ps then Some (commit r i team k ps j st)
      else if Submission.isIgnore s || Submission.isNotCalculatedPenaltyStatus s then
        Some (commit r i team k (TeamProblemStatistics.incIgnore ps) j
                     (ProblemStatisticsOps.incIgnore st))
      else
        let ps := TeamProblemStatistics.counted (Submission.timestamp s) ps in
        let '(team, ps, st) :=
          if Submission.isAccepted s then onAccepted s (team, ps, st)
          else (team, ps, st) in
        let '(ps, st) :=
          if Submission.isRejected s
          then (TeamProblemStatistics.incFailed ps, ProblemStatisticsOps.incRejected st)
          else (ps, st) in
        let '(ps, st) :=
          if Submission.isPending s
          then (TeamProblemStatistics.incPending ps, ProblemStatisticsOps.incPending st)
          else (ps, st) in
        Some (commit r i team k ps j st)
  | _, _ => Some r
  end.

(** The replay loop over a list of submissions. *)
Fixpoint replay (r : Rank.t) (subs : Submissions) : option Rank.t :=
  match subs with
  | [] => Some r
  | s :: subs' => r' ← replayStep r s; replay r' subs'
  end.

(** [Team.compare] on two references. *)
Definition compareRefs (store : list Team.t) (i j : nat) : Z :=
  match store !! i, store !! j with
  | Some a, Some b => Team.compare a b
  | _, _ => 0
  end.

(** The rank walk; [rank] and [preTeam] are the two locals of the block. *)
Fixpoint assignRank (rank : Z) (preTeam : option nat) (order : list nat)
    (store : list Team.t) : list Team.t :=
  match order with
  | [] => store
  | i :: order' =>
      let store := alter (Team.set_rank rank) i store in
      let store :=
        match preTeam with
        | Some p =>
            match store !! i, store !! p with
            | Some x, Some pre =>
                if Team.isEqualRank x pre
                then alter (Team.set_rank (Team.rank pre)) i store
                else store
            | _, _ => store
            end
        | None => store
        end in
      assignRank (rank + 1) (Some i) order' store
  end.

(** The organization walk, with its set [se] of organizations seen. *)
Fixpoint assignOrganizationRank (rank : Z) (preTeam : option nat)
    (se : gset string) (order : list nat) (store : list Team.t) : list Team.t :=
  match order with
  | [] => store
  | i :: order' =>
      match store !! i with
      | None => assignOrganizationRank rank preTeam se order' store
      | Some x =>
          let org := Team.organization x in
          if decide (org ∈ se) then
            assignOrganizationRank rank preTeam se order' store
          else
            let store := alter (Team.set_organizationRank rank) i store in
            let store :=
              match preTeam with
              | Some p =>
                  match store !! i, store !! p with
                  | Some x, Some pre =>
                      if Team.isEqualRank x pre
                      then alter (Team.set_organizationRank (Team.organizationRank pre))
                                 i store
                      else store
                  | _, _ => store
                  end
              | None => store
              end in
            assignOrganizationRank (rank + 1) (Some i) ({[org]} ∪ se) order' store
      end
  end.

(** [if (this.contest.organization)]: an absent or empty string is falsy. *)
Definition truthy (o : option string) : bool :=
  match o with
  | Some s => if decide (s = "") then false else true
  | None => false
  end.

(** The second closure of [buildRank]. *)
Definition buildStatistics (r : Rank.t) : RankStatistics.t :=
  let rs := RankStatistics.reset (Rank.rankStatistics r) in
  RankStatistics.set_teamSolvedNum
    (foldl (λ a i, match Rank.store r !! i with
                   | Some x => RankStatistics.incrAt (Team.solvedProblemNum x) a
                   | None => a
                   end)
           (replicate (length (Contest.problems (Rank.contest r)) + 1)%nat
                      (RankStatistics.Num 0))
           (Rank.teams r)) rs.

(** The two reset loops that open [buildRank]. *)
Definition prepare (r : Rank.t) : Rank.t :=
  let r := Rank.set_store
             (forEachTeam (prepareTeam (Rank.contest r)) (Rank.teams r) (Rank.store r)) r in
  Rank.set_contest (resetProblems (Rank.contest r)) r.

(** What follows the replay loop: aggregation, the sort, the two rank
    walks and the histogram. *)
Definition finish (r : Rank.t) : Rank.t :=
  let r := Rank.set_store
             (forEachTeam Team.calcSolvedData (Rank.teams r) (Rank.store r)) r in
  let r := Rank.set_teams (js_sort (compareRefs (Rank.store r)) (Rank.teams r)) r in
  let r := Rank.set_store (assignRank 1 None (Rank.teams r) (Rank.store r)) r in
  let r :=
    if truthy (Contest.organization (Rank.contest r))
    then Rank.set_store
           (assignOrganizationRank 1 None ∅ (Rank.teams r) (Rank.store r)) r
    else r in
  Rank.set_rankStatistics (buildStatistics r) r.

(** [buildRank]; the result is the instance, which is what it returns. *)
Definition buildRank (r : Rank.t) : option Rank.t :=
  let r := prepare r in
  r ← replay r (getSubmissions r);
  Some (finish r).
End rank.

(** * Notions the properties are stated with *)

(** ** Award tiers *)

(** The block a tier contributes when it starts at rank [from]. *)
Definition tierBlock (v : gmap string Z) (key : string) (medalType : Award.MedalType)
    (from : Z) : list Award.t :=
  match v !! key with
  | Some n => [Award.mk medalType from (from + n - 1)]
  | None => []
  end.

(** The ranks a tier takes up: its configured size, nothing when absent. *)
Definition tierSize (v : gmap string Z) (key : string) : Z := default 0 (v !! key).

(** ** One turn of the replay loop *)

(** The effect of one turn of the loop on the three objects it touches:
    the team, its statistics object for the problem, and the statistics of
    the problem. *)
Definition turn `{!Submission.Methods} (s : Submission.t)
    (xs : Team.t * TeamProblemStatistics.t * ProblemStatistics.t)
    : Team.t * TeamProblemStatistics.t * ProblemStatistics.t :=
  let '(team, ps, st) := xs in
  let ps := TeamProblemStatistics.push s ps in
  let team := Team.push s team in
  let st := ProblemStatisticsOps.incSubmitted st in
  if TeamProblemStatistics.isSolved ps then (team, ps, st)
  else if Submission.isIgnore s || Submission.isNotCalculatedPenaltyStatus s then
    (team, TeamProblemStatistics.incIgnore ps, ProblemStatisticsOps.incIgnore st)
  else
    let ps := TeamProblemStatistics.counted (Submission.timestamp s) ps in
    let '(team, ps, st) :=
      if Submission.isAccepted s then onAccepted s (team, ps, st) else (team, ps, st) in
    let '(ps, st) :=
      if Submission.isRejected s
      then (TeamProblemStatistics.incFailed ps, ProblemStatisticsOps.incRejected st)
      else (ps, st) in
    let '(ps, st) :=
      if Submission.isPending s
      then (TeamProblemStatistics.incPending ps, ProblemStatisticsOps.incPending st)
      else (ps, st) in
    (team, ps, st).

#[global] Arguments turn : simpl never.

Section notions.
Context `{!Submission.Methods, !Team.Methods}.

(** The fields of the instance that the replay never writes. *)
Definition sameFrame (r r' : Rank.t) : Prop :=
  Rank.teams r' = Rank.teams r
  ∧ Rank.teamsMap r' = Rank.teamsMap r
  ∧ Rank.submissions r' = Rank.submissions r
  ∧ Rank.rankStatistics r' = Rank.rankStatistics r
  ∧ Rank.options r' = Rank.options r
  ∧ resetProblems (Rank.contest r') = resetProblems (Rank.contest r)
  ∧ Contest.problemsMap (Rank.contest r') = Contest.problemsMap (Rank.contest r)
  ∧ Contest.penalty (Rank.contest r') = Contest.penalty (Rank.contest r)
  ∧ Contest.organization (Rank.contest r') = Contest.organization (Rank.contest r)
  ∧ length (Contest.problems (Rank.contest r'))
    = length (Contest.problems (Rank.contest r))
  ∧ length (Rank.store r') = length (Rank.store r).

(** The turn for [s] reaches the accepted branch, for the problem at
    position [j]: team and problem resolve, the team has not solved the
    problem, the submission is counted, and it is accepted. *)
Definition solvesAt (r : Rank.t) (s : Submission.t) : option nat :=
  match Rank.getTeam r (Submission.teamId s),
        Contest.getProblem (Rank.contest r) (Submission.problemId s) with
  | Some (i, team), Some (j, problem) =>
      match Team.getProblemStatistics team (Submission.problemId s) with
      | Some (k, ps) =>
          if TeamProblemStatistics.isSolved ps then None
          else if Submission.isIgnore s || Submission.isNotCalculatedPenaltyStatus s
          then None
          else if Submission.isAccepted s then Some j else None
      | None => None
      end
  | _, _ => None
  end.

(** The solving timestamps of the problem at position [j], in the order
    they are seen when [subs] is replayed from [r]: the timestamps of the
    submissions whose turn reaches the accepted branch for that problem. *)
Fixpoint solveTimes (j : nat) (r : Rank.t) (subs : Submissions) : list Z :=
  match subs with
  | [] => []
  | s :: subs' =>
      (if decide (solvesAt r s = Some j) then [Submission.timestamp s] else [])
      ++ match replayStep r s with
         | Some r' => solveTimes j r' subs'
         | None => []
         end
  end.

(** What the constructors establish and [buildRank] keeps: [this.teams]
    holds every team object once, the contest's problem map is the one
    [createContest] derives from its problem list, and the owned
    submissions are in canonical order. *)
Definition wellFormed (r : Rank.t) : Prop :=
  Rank.teams r ≡ₚ seq 0 (length (Rank.store r))
  ∧ Contest.problemsMap (Rank.contest r)
    = createProblemsMap (Contest.problems (Rank.contest r))
  ∧ Sorted (cmp_le Submission.compare) (Rank.submissions r).

(** The canonical submission order is by timestamp first. *)
Definition TimestampOrdered : Prop :=
  ∀ a b, Submission.compare a b ≤ 0 → Submission.timestamp a ≤ Submission.timestamp b.

(** A statistics object that is not solved is not marked first-solved. *)
Definition cleanFlags (r : Rank.t) : Prop :=
  ∀ i x k ps,
    Rank.store r !! i = Some x → Team.problemStatistics x !! k = Some ps →
    TeamProblemStatistics.isSolved ps = false →
    TeamProblemStatistics.isFirstSolved ps = false.

(** The rank the walk gives a team [x] that stands at sequential position
    [v], [pre] being its predecessor as the walk left it: the predecessor's
    rank when [x], just given rank [v], is of equal rank to it, else [v]. *)
Definition walkRank (v : Z) (x : Team.t) (pre : option Team.t) : Z :=
  match pre with
  | Some pre' => if Team.isEqualRank (Team.set_rank v x) pre' then Team.rank pre' else v
  | None => v
  end.
End notions.

(** ** First-solve lists *)

(** The first-solve list of a problem. *)
Abbreviation firstSolves p :=
  (ProblemStatistics.firstSolveSubmissions (Problem.statistics p)).

(** The condition under which the accepted branch appends to the
    first-solve list [l]. *)
Definition tiesLast (l : Submissions) (s : Submission.t) : Prop :=
  length l = 0%nat ∨ Submission.timestamp <$> last l = Some (Submission.timestamp s).

#[global] Instance tiesLast_dec l s : Decision (tiesLast l s).
Proof. unfold tiesLast. apply _. Defined.

(** All entries of a list have one timestamp. *)
Definition uniformTimestamps (l : Submissions) : Prop :=
  ∀ a b, a ∈ l → b ∈ l → Submission.timestamp a = Submission.timestamp b.

(** Every first-solve list of the contest has one timestamp. *)
Definition firstSolveUniform (r : Rank.t) : Prop :=
  ∀ p, p ∈ Contest.problems (Rank.contest r) → uniformTimestamps (firstSolves p).

(** ** Laws of the absent methods *)

(** What [buildRank] needs of [Team.reset] to start from scratch: the
    result of a reset does not depend on any field that [buildRank]
    writes, nor on what [calcSolvedData] has computed. *)
Class ResetLaws `{!Team.Methods} : Prop := {
  reset_reset : ∀ x, Team.reset (Team.reset x) = Team.reset x;
  reset_calcSolvedData : ∀ x, Team.reset (Team.calcSolvedData x) = Team.reset x;
  reset_set_rank : ∀ v x, Team.reset (Team.set_rank v x) = Team.reset x;
  reset_set_organizationRank :
    ∀ v x, Team.reset (Team.set_organizationRank v x) = Team.reset x;
  reset_set_lastSolvedProblemTimestamp :
    ∀ v x, Team.reset (Team.set_lastSolvedProblemTimestamp v x) = Team.reset x;
  reset_set_problemStatistics :
    ∀ v x, Team.reset (Team.set_problemStatistics v x) = Team.reset x;
  reset_set_problemStatisticsMap :
    ∀ v x, Team.reset (Team.set_problemStatisticsMap v x) = Team.reset x;
  reset_set_submissions : ∀ v x, Team.reset (Team.set_submissions v x) = Team.reset x
}.

(** The instance seen with another [teams] array and other statistics. *)
Definition withView (order : list nat) (rs : RankStatistics.t) (r : Rank.t) : Rank.t :=
  Rank.set_teams order (Rank.set_rankStatistics rs r).

(** Every team object carries one statistics object per contest problem,
    under the contest's own id map. *)
Definition prepared (r : Rank.t) : Prop :=
  ∀ i x, Rank.store r !! i = Some x →
    Team.problemStatisticsMap x = Contest.problemsMap (Rank.contest r)
    ∧ length (Team.problemStatistics x) = length (Contest.problems (Rank.contest r)).

(** The ranking key of a team. *)
Definition sameKey (a b : Team.t) : Prop :=
  Team.solvedProblemNum a = Team.solvedProblemNum b ∧ Team.penalty a = Team.penalty b.

(** [a]'s key is at least as good as [b]'s: more problems solved, or as
    many with no more penalty. *)
Definition keyLe (a b : Team.t) : Prop :=
  (Team.solvedProblemNum b < Team.solvedProblemNum a)%nat
  ∨ (Team.solvedProblemNum a = Team.solvedProblemNum b ∧ Team.penalty a ≤ Team.penalty b).

(** What the specification says of the two absent comparisons of
    [team.ts]: equal rank is equality of keys, and the sort order puts
    better keys first. *)
Class RankingKeyLaws `{!Team.Methods} : Prop := {
  isEqualRank_sameKey : ∀ a b, Team.isEqualRank a b = true ↔ sameKey a b;
  compare_keyLe : ∀ a b, Team.compare a b ≤ 0 → keyLe a b
}.

(** [keyLe] on the teams two references stand for. *)
Definition refKeyLe (store : list Team.t) (i j : nat) : Prop :=
  ∃ a b, store !! i = Some a ∧ store !! j = Some b ∧ keyLe a b.

(** ** The absent methods, as the specification describes them

    [submission.ts] and [team.ts] are not among the sources; these instances
    follow the specification's description of them and serve to run the
    engine on concrete contests. *)

Module Reference.
(** Modelled from the spec: the verdict predicates of [Submission]
    ([submission.ts] is missing): "verdict is one fixed tag from a closed
    set", "accepted, rejected, pending, or an ignorable outcome such as
    compile error". *)
Definition isAccepted (s : Submission.t) : bool :=
  bool_decide (Submission.status s = "ACCEPTED").
Definition isRejected (s : Submission.t) : bool :=
  bool_decide (Submission.status s = "REJECTED").
Definition isPending (s : Submission.t) : bool :=
  bool_decide (Submission.status s = "PENDING").
Definition isNotCalculatedPenaltyStatus (s : Submission.t) : bool :=
  bool_decide (Submission.status s = "COMPILATION_ERROR").

Definition compareString (a b : string) : Z :=
  match OrdersEx.String_as_OT.compare a b with Lt => -1 | Eq => 0 | Gt => 1 end.

(** Modelled from the spec: [Submission.compare] ([submission.ts] is
    missing): "ascending timestamp order (ties broken by a stable
    secondary key — submission id)". *)
Definition compareSubmission (a b : Submission.t) : Z :=
  if decide (Submission.timestamp a = Submission.timestamp b)
  then compareString (Submission.id a) (Submission.id b)
  else Submission.timestamp a - Submission.timestamp b.

#[export] Instance submissionMethods : Submission.Methods := {|
  Submission.isAccepted := isAccepted;
  Submission.isRejected := isRejected;
  Submission.isPending := isPending;
  Submission.isNotCalculatedPenaltyStatus := isNotCalculatedPenaltyStatus;
  Submission.compare := compareSubmission
|}.

(** Modelled from the spec: [Team.reset] ([team.ts] is missing): the
    build "fully recomputes standings from scratch each time", so every
    field [buildRank] derives goes back to its initial value. *)
Definition reset (x : Team.t) : Team.t :=
  Team.mk (Team.id x) (Team.organization x) 0 0 0%nat 0 0 [] ∅ [].

Definition solvedPenalty (ps : TeamProblemStatistics.t) : Z :=
  if TeamProblemStatistics.isSolved ps
  then TeamProblemStatistics.solvedTimestamp ps
       + TeamProblemStatistics.contestPenalty ps * TeamProblemStatistics.failedCount ps
  else 0.

(** Modelled from the spec: [Team.calcSolvedData] ([team.ts] is missing):
    "solved problems contribute elapsed-time-to-solve plus penalty-unit ×
    failed-attempts-before-solve; unsolved problems contribute zero". *)
Definition calcSolvedData (x : Team.t) : Team.t :=
  Team.mk (Team.id x) (Team.organization x) (Team.rank x) (Team.organizationRank x)
    (length (filter (λ ps, TeamProblemStatistics.isSolved ps = true)
                    (Team.problemStatistics x)))
    (foldr (λ ps acc, solvedPenalty ps + acc) 0 (Team.problemStatistics x))
    (Team.lastSolvedProblemTimestamp x) (Team.problemStatistics x)
    (Team.problemStatisticsMap x) (Team.submissions x).

(** Modelled from the spec: [Team.compare] ([team.ts] is missing): "more
    solved problems ranks better; among equal solved counts, lower total
    penalty ranks better"; what remains tied is left to the stable sort. *)
Definition compareTeam (a b : Team.t) : Z :=
  if decide (Team.solvedProblemNum a = Team.solvedProblemNum b)
  then Team.penalty a - Team.penalty b
  else Z.of_nat (Team.solvedProblemNum b) - Z.of_nat (Team.solvedProblemNum a).

(** Modelled from the spec: [Team.isEqualRank] ([team.ts] is missing):
    "a team whose ranking key is exactly equal to its predecessor's", the
    key being (solved count, penalty). *)
Definition isEqualRank (a b : Team.t) : bool :=
  bool_decide (Team.solvedProblemNum a = Team.solvedProblemNum b
               ∧ Team.penalty a = Team.penalty b).

#[export] Instance teamMethods : Team.Methods := {|
  Team.reset := reset;
  Team.calcSolvedData := calcSolvedData;
  Team.compare := compareTeam;
  Team.isEqualRank := isEqualRank
|}.

(** *** A small contest: two problems, three teams *)

Definition problemA : Problem.t := Problem.mk "A" (ProblemStatistics.mk 0 0 0 0 0 0 [] []).
Definition problemB : Problem.t := Problem.mk "B" (ProblemStatistics.mk 0 0 0 0 0 0 [] []).

Definition contest1 : Contest.t :=
  Contest.mk 0 18000 1200 [problemA; problemB]
             (createProblemsMap [problemA; problemB]) None
             (createAwards (Some {[ "all" := {[ "gold" := 1; "silver" := 2 ]} ]})).

Definition team (id org : string) : Team.t :=
  Team.mk id org 0 0 0%nat 0 0 [] ∅ [].

Definition sub (id team problem : string) (ts : Z) (status : string) : Submission.t :=
  Submission.mk id team problem ts false status.

Definition teams1 : list Team.t := [team "t1" "X"; team "t2" "Y"; team "t3" "X"].

Definition submissions1 : Submissions :=
  [ sub "s5" "t3" "B" 3000 "ACCEPTED";
    sub "s1" "t1" "A" 1000 "REJECTED";
    sub "s2" "t1" "A" 3000 "ACCEPTED";
    sub "s3" "t2" "A" 4200 "ACCEPTED";
    sub "s4" "t3" "A" 2000 "ACCEPTED";
    sub "s6" "t9" "A" 2500 "ACCEPTED";
    sub "s7" "t1" "Z" 2600 "ACCEPTED";
    sub "s8" "t3" "A" 5000 "REJECTED" ].

Definition rank1 : Rank.t := newRank contest1 teams1 submissions1.

(** [rank1] with the replay loop of [buildRank] run to its end. *)
Definition replayed1 : Rank.t :=
  default rank1 (replay (prepare rank1) (getSubmissions (prepare rank1))).

(** [rank1] seen through the filter at half the contest. *)
Definition halfway1 : Rank.t :=
  Rank.set_options (RankOptions.setWidth 5000 contest1 (Rank.options rank1)) rank1.
End Reference.

(** * More of [contest.ts] *)

(** ** Instants

    A [dayjs] value is modelled by its [valueOf()], the milliseconds since
    the epoch; [isBefore], [isAfter], [isSameOrBefore] and [isSameOrAfter]
    are the comparisons of these numbers. *)

Module Dayjs.
(** [t.unix()] *)
Definition unix (t : Z) : Z := t `div` 1000.

(** [a.diff(b, "s")]: whole seconds, truncated toward zero. *)
Definition diffSeconds (a b : Z) : Z := (a - b) `quot` 1000.

(** [Math.floor(dayjs.duration(a.diff(b)).asSeconds())] *)
Definition floorSeconds (a b : Z) : Z := (a - b) `div` 1000.
End Dayjs.

Module ContestState.
Inductive t := PENDING | RUNNING | FROZEN | FINISHED.

(** The place of a state in the life of a contest. *)
Definition stage (s : t) : nat :=
  match s with PENDING => 0 | RUNNING => 1 | FROZEN => 2 | FINISHED => 3 end.
End ContestState.

(** The timing fields of [Contest], with the three instants at full
    precision (the record [Contest.t] above keeps what [rank.ts] reads of
    them). *)

Module ContestTimes.
Record t := mk {
  startTime : Z;
  endTime : Z;
  freezeTime : Z;
  totalDurationTimestamp : Z;
  freezeDurationTimestamp : Z;
  unFreezeDurationTimestamp : Z
}.

(** [getContestState], [now] being [createDayJS(nowTime)]. *)
Definition getContestState (c : t) (now : Z) : ContestState.t :=
  if decide (now < startTime c) then ContestState.PENDING
  else if decide (endTime c ≤ now) then ContestState.FINISHED
  else if decide (freezeTime c ≤ now) then ContestState.FROZEN
  else ContestState.RUNNING.

(** The seconds [getContestPendingTime] hands to [getTimeDiff] (which
    formats them; [utils.ts] is not among the sources). *)
Definition pendingSeconds (c : t) (now : Z) : Z :=
  let baseTime := now in
  let baseTime := if decide (startTime c < baseTime) then startTime c else baseTime in
  Dayjs.floorSeconds (startTime c) baseTime.

(** The seconds [getContestElapsedTime] hands to [getTimeDiff]. *)
Definition elapsedSeconds (c : t) (now : Z) : Z :=
  let baseTime := now in
  let baseTime := if decide (endTime c < baseTime) then endTime c else baseTime in
  let baseTime := if decide (baseTime < startTime c) then startTime c else baseTime in
  Dayjs.floorSeconds baseTime (startTime c).

(** The seconds [getContestRemainingTime] hands to [getTimeDiff]. *)
Definition remainingSeconds (c : t) (now : Z) : Z :=
  let baseTime := now in
  let baseTime := if decide (endTime c < baseTime) then endTime c else baseTime in
  let baseTime := if decide (baseTime < startTime c) then startTime c else baseTime in
  Dayjs.floorSeconds (endTime c) baseTime.

(** [Math.round]: the nearest integer, halves upward. *)
Definition jsRound (q : Q) : Z := Qfloor (q + (1 # 2)).

(** [getContestProgressRatio]; [None] is [NaN], the value of
    [Math.round(0 / 0)]: a [total] of 0 is reached only strictly between
    start and end, where [pass] is 0 as well. *)
Definition getContestProgressRatio (c : t) (now : Z) : option Z :=
  if decide (now ≤ startTime c) then Some 0
  else if decide (endTime c ≤ now) then Some 100
  else
    let total := Dayjs.diffSeconds (endTime c) (startTime c) in
    let pass := Dayjs.diffSeconds now (startTime c) in
    if decide (total = 0) then None
    else Some (jsRound (inject_Z (pass * 100) / inject_Z total)).
End ContestTimes.

(** What [createContest] reads of the contest record. *)

Module ContestJSON.
(** A time as the record gives it. *)
Inductive time := Number (z : Z) | Text (s : string).

Record t := mk {
  start_time : time;
  end_time : time;
  frozen_time : option Z;       (* [Number(contestJSON.frozen_time)] *)
  freeze_time : option time;
  medal : option (gmap string (gmap string Z));
  group : option (list (string * string))   (* [Object.entries], in order *)
}.

(** [createDayJS] of [utils.ts], which is not among the sources. *)
Class Utils := { createDayJS : time → Z }.
End ContestJSON.

(** The timing part of [createContest]. *)
Definition createContestTimes `{!ContestJSON.Utils} (j : ContestJSON.t) : ContestTimes.t :=
  let startTime := ContestJSON.createDayJS (ContestJSON.start_time j) in
  let endTime := ContestJSON.createDayJS (ContestJSON.end_time j) in
  let total := Dayjs.unix endTime - Dayjs.unix startTime in
  let fz := (endTime, 0) in
  let fz :=
    match ContestJSON.frozen_time j with
    | Some frozenTime =>
        (ContestJSON.createDayJS (ContestJSON.Number (Dayjs.unix endTime - frozenTime)),
         frozenTime)
    | None => fz
    end in
  let fz :=
    match ContestJSON.freeze_time j with
    | Some t =>
        let freezeTime := ContestJSON.createDayJS t in
        (freezeTime, Dayjs.unix endTime - Dayjs.unix freezeTime)
    | None => fz
    end in
  ContestTimes.mk startTime endTime fz.1 total fz.2 (total - fz.2).

(** ** Groups *)

Module Group.
(** What [createContest] touches of a group: [g.names], a map from display
    locale to name, and the flag [g.isDefault]. *)
Record t := mk { names : gmap string string; isDefault : bool }.

(** [new Group()]; [group.ts] is not among the sources. *)
Class Constructor := { new : t }.

(** [g.names.set(lang, name)] *)
Definition setName (lang name : string) (g : t) : t :=
  mk (<[lang := name]> (names g)) (isDefault g).

(** [g.isDefault = v] *)
Definition set_isDefault (v : bool) (g : t) : t := mk (names g) v.
End Group.

Section groups.
Context `{!Group.Constructor}.

(** The default group of [createContest]. *)
Definition allGroup : Group.t :=
  let g := Group.new in
  let g := Group.setName "en" "All" g in
  let g := Group.setName "zh-CN" "所有队伍" g in
  Group.set_isDefault true g.

(** One turn of the loop over the entries of [contestJSON.group]. *)
Definition addGroup (m : gmap string Group.t) (kv : string * string)
    : gmap string Group.t :=
  let k := kv.1 in
  let key := k in
  let g := Group.setName "zh-CN" kv.2 Group.new in
  let g := if decide (k = "official") then Group.setName "en" "Official" g else g in
  let g := if decide (k = "unofficial") then Group.setName "en" "Unofficial" g else g in
  let '(g, key) :=
    if decide (k = "girl" ∨ k = "girls")
    then (Group.setName "en" "Girls" g, "girl") else (g, key) in
  <[key := g]> m.

(** The group part of [createContest]. *)
Definition createGroups (group : option (list (string * string)))
    : gmap string Group.t :=
  foldl addGroup (<["all" := allGroup]> ∅) (default [] group).
End groups.

(** [isEnableAwards] *)
Definition isEnableAwards (c : Contest.t) (group : string) : bool :=
  match Contest.awards c with
  | None => false
  | Some awards => if decide (is_Some (awards !! group)) then true else false
  end.

(** * Notions for further properties of the engine *)

(** The key under which an entry of [contestJSON.group] is stored. *)
Definition groupKey (k : string) : string :=
  if decide (k = "girl" ∨ k = "girls") then "girl" else k.

(** The sum of a histogram whose slots all hold numbers. *)
Fixpoint cellsSum (a : list RankStatistics.cell) : option Z :=
  match a with
  | [] => Some 0
  | RankStatistics.Num z :: a' => (λ t, z + t) <$> cellsSum a'
  | _ :: _ => None
  end.

(** What holds of a problem's aggregate counters throughout a replay. *)
Definition countersOk (st : ProblemStatistics.t) : Prop :=
  0 ≤ ProblemStatistics.acceptedNum st
  ∧ 0 ≤ ProblemStatistics.rejectedNum st
  ∧ 0 ≤ ProblemStatistics.pendingNum st
  ∧ 0 ≤ ProblemStatistics.ignoreNum st
  ∧ ProblemStatistics.acceptedNum st + ProblemStatistics.ignoreNum st
    ≤ ProblemStatistics.submittedNum st
  ∧ ProblemStatistics.rejectedNum st + ProblemStatistics.ignoreNum st
    ≤ ProblemStatistics.submittedNum st
  ∧ ProblemStatistics.pendingNum st + ProblemStatistics.ignoreNum st
    ≤ ProblemStatistics.submittedNum st
  ∧ ProblemStatistics.acceptedNum st ≤ ProblemStatistics.attemptedNum st
  ∧ Z.of_nat (length (ProblemStatistics.firstSolveSubmissions st))
    ≤ ProblemStatistics.acceptedNum st
  ∧ (ProblemStatistics.acceptedNum st = 0 → ProblemStatistics.firstSolveSubmissions st = [])
  ∧ (0 < ProblemStatistics.acceptedNum st →
     ProblemStatistics.firstSolveSubmissions st ≠ [])
  ∧ (ProblemStatistics.acceptedNum st = 0 → ProblemStatistics.lastSolveSubmissions st = [])
  ∧ (0 < ProblemStatistics.acceptedNum st →
     length (ProblemStatistics.lastSolveSubmissions st) = 1%nat).

(** What holds of a team's statistics object for a problem throughout a
    replay. *)
Definition tpsOk (ps : TeamProblemStatistics.t) : Prop :=
  0 ≤ TeamProblemStatistics.failedCount ps
  ∧ 0 ≤ TeamProblemStatistics.pendingCount ps
  ∧ 0 ≤ TeamProblemStatistics.ignoreCount ps
  ∧ TeamProblemStatistics.failedCount ps ≤ TeamProblemStatistics.totalCount ps
  ∧ TeamProblemStatistics.pendingCount ps ≤ TeamProblemStatistics.totalCount ps
  ∧ TeamProblemStatistics.totalCount ps + TeamProblemStatistics.ignoreCount ps
    ≤ Z.of_nat (length (TeamProblemStatistics.submissions ps))
  ∧ (TeamProblemStatistics.isSubmitted ps = false → TeamProblemStatistics.totalCount ps = 0)
  ∧ (TeamProblemStatistics.isSubmitted ps = true → 1 ≤ TeamProblemStatistics.totalCount ps)
  ∧ (TeamProblemStatistics.isSolved ps = true →
     TeamProblemStatistics.isSubmitted ps = true
     ∧ TeamProblemStatistics.lastSubmitTimestamp ps = TeamProblemStatistics.solvedTimestamp ps)
  ∧ (TeamProblemStatistics.isFirstSolved ps = true →
     TeamProblemStatistics.isSolved ps = true).

(** A solved statistics object as a later state shows it: frozen, but for
    the submissions recorded after the solve. *)
Definition frozenAs (ps ps' : TeamProblemStatistics.t) : Prop :=
  TeamProblemStatistics.isSolved ps' = true
  ∧ TeamProblemStatistics.isFirstSolved ps' = TeamProblemStatistics.isFirstSolved ps
  ∧ TeamProblemStatistics.solvedTimestamp ps' = TeamProblemStatistics.solvedTimestamp ps
  ∧ TeamProblemStatistics.isSubmitted ps' = TeamProblemStatistics.isSubmitted ps
  ∧ TeamProblemStatistics.lastSubmitTimestamp ps' = TeamProblemStatistics.lastSubmitTimestamp ps
  ∧ TeamProblemStatistics.failedCount ps' = TeamProblemStatistics.failedCount ps
  ∧ TeamProblemStatistics.pendingCount ps' = TeamProblemStatistics.pendingCount ps
  ∧ TeamProblemStatistics.ignoreCount ps' = TeamProblemStatistics.ignoreCount ps
  ∧ TeamProblemStatistics.totalCount ps' = TeamProblemStatistics.totalCount ps
  ∧ TeamProblemStatistics.submissions ps `prefix_of` TeamProblemStatistics.submissions ps'.

(** A property of every statistics object of every team. *)
Definition eachStatistics (P : TeamProblemStatistics.t → Prop) (r : Rank.t) : Prop :=
  ∀ i x k ps,
    Rank.store r !! i = Some x → Team.problemStatistics x !! k = Some ps → P ps.

(** A property of the aggregate statistics of every problem. *)
Definition eachProblem (Q : ProblemStatistics.t → Prop) (r : Rank.t) : Prop :=
  ∀ j p, Contest.problems (Rank.contest r) !! j = Some p → Q (Problem.statistics p).

(** The team has solved the problem at position [j]. *)
Definition solvedBy (j : nat) (x : Team.t) : Prop :=
  TeamProblemStatistics.isSolved <$> Team.problemStatistics x !! j = Some true.

#[global] Instance solvedBy_dec j x : Decision (solvedBy j x).
Proof. unfold solvedBy. apply _. Defined.

(** The number of team objects that have solved the problem at position [j]. *)
Definition solvedCount (j : nat) (store : list Team.t) : Z :=
  Z.of_nat (length (filter (solvedBy j) store)).

(** The accepted count of each problem is the number of team objects that
    have solved it. *)
Definition acceptedIsSolved (r : Rank.t) : Prop :=
  ∀ j p, Contest.problems (Rank.contest r) !! j = Some p →
    ProblemStatistics.acceptedNum (Problem.statistics p) = solvedCount j (Rank.store r).

(** The number of team objects with [k] problems solved. *)
Definition countSolved (k : nat) (store : list Team.t) : Z :=
  Z.of_nat (length (filter (λ x, Team.solvedProblemNum x = k) store)).

Section more_notions.
Context `{!Submission.Methods, !Team.Methods}.

(** The team and the problem a submission resolves to, as references. *)
Definition refsOf (r : Rank.t) (s : Submission.t) : option (nat * nat) :=
  match Rank.getTeam r (Submission.teamId s),
        Contest.getProblem (Rank.contest r) (Submission.problemId s) with
  | Some (i, _), Some (j, _) => Some (i, j)
  | _, _ => None
  end.
End more_notions.

(** * Properties *)

(** ** The sort *)

Section js_sort_facts.
Context {A : Type} (cmp : A → A → Z).

Lemma sort_insert_Permutation (x : A) (l : list A) : sort_insert cmp x l ≡ₚ x :: l.
Proof.
  induction l as [|y l IH]; simpl; [done|].
  case_decide; [done|]. rewrite IH. apply Permutation_swap.
Qed.

Lemma js_sort_Permutation (l : list A) : js_sort cmp l ≡ₚ l.
Proof.
  induction l as [|x l IH]; simpl; [done|].
  by rewrite sort_insert_Permutation, IH.
Qed.

Lemma js_sort_length (l : list A) : length (js_sort cmp l) = length l.
Proof. by rewrite js_sort_Permutation. Qed.

(** A sorted array comes back as it is: the sort is stable. *)
Lemma js_sort_Sorted_id (l : list A) : Sorted (cmp_le cmp) l → js_sort cmp l = l.
Proof.
  induction 1 as [|x l Hs IH Hhd]; simpl; [done|].
  rewrite IH. destruct Hhd as [|y l Hxy]; simpl; [done|].
  unfold cmp_le in Hxy. by rewrite decide_True.
Qed.

(** The result is sorted as soon as any two elements of the array compare
    one way or the other. *)
Lemma sort_insert_Sorted_on (x : A) (l : list A) :
  (∀ y, y ∈ l → ¬ cmp x y ≤ 0 → cmp y x ≤ 0) →
  Sorted (cmp_le cmp) l → Sorted (cmp_le cmp) (sort_insert cmp x l).
Proof.
  intros Htot Hs. induction Hs as [|y l Hs IH Hhd]; simpl.
  - repeat constructor.
  - case_decide as Hxy.
    + repeat constructor; done.
    + constructor.
      * apply IH. intros z Hz. apply Htot. by right.
      * apply Htot in Hxy; [|left].
        destruct Hhd as [|z l Hyz]; simpl; [by constructor|].
        case_decide; by constructor.
Qed.

Lemma js_sort_Sorted_on (l : list A) :
  (∀ x y, x ∈ l → y ∈ l → ¬ cmp x y ≤ 0 → cmp y x ≤ 0) →
  Sorted (cmp_le cmp) (js_sort cmp l).
Proof.
  induction l as [|x l IH]; intros Htot; simpl; [constructor|].
  apply sort_insert_Sorted_on.
  - intros y Hy. rewrite js_sort_Permutation in Hy. apply Htot; [left|by right].
  - apply IH. intros y z Hy Hz. apply Htot; by right.
Qed.

Lemma js_sort_idempotent_on (l : list A) :
  (∀ x y, x ∈ l → y ∈ l → ¬ cmp x y ≤ 0 → cmp y x ≤ 0) →
  js_sort cmp (js_sort cmp l) = js_sort cmp l.
Proof. intros Htot. by apply js_sort_Sorted_id, js_sort_Sorted_on. Qed.

Section consistent.
Hypothesis Hcmp : ConsistentComparator cmp.

Lemma cmp_le_total (x y : A) : ¬ cmp x y ≤ 0 → cmp_le cmp y x.
Proof.
  intros Hxy. unfold cmp_le.
  assert (cmp y x < 0); [|lia]. apply (cmp_antisym cmp Hcmp). lia.
Qed.

#[local] Instance cmp_le_transitive : Transitive (cmp_le cmp).
Proof. intros x y z. apply (cmp_trans cmp Hcmp). Qed.

Lemma js_sort_Sorted (l : list A) : Sorted (cmp_le cmp) (js_sort cmp l).
Proof. apply js_sort_Sorted_on. intros x y _ _. apply cmp_le_total. Qed.

Lemma Sorted_filter (P : A → Prop) `{!∀ x, Decision (P x)} (l : list A) :
  Sorted (cmp_le cmp) l → Sorted (cmp_le cmp) (filter P l).
Proof.
  intros Hs. apply Sorted_StronglySorted in Hs; [|apply _].
  apply StronglySorted_Sorted.
  induction Hs as [|x l Hs IH Hall]; [constructor|].
  rewrite filter_cons. case_decide; [|done].
  constructor; [done|].
  apply Forall_forall. intros y [_ Hy]%list_elem_of_filter.
  by eapply (proj1 (Forall_forall _ _) Hall).
Qed.
End consistent.
End js_sort_facts.

(** ** [getSubmissions] and [RankOptions] *)

Section submissions_view.
Context `{!Submission.Methods}.

(** C2.  With the filter enabled at cutoff [C], [getSubmissions] returns
    exactly the owned submissions with timestamp [≤ C] (the same elements
    with the same multiplicities), sorted by the canonical submission
    order; as the owned sequence is itself sorted, this is the filtered
    subsequence unchanged.  With the filter disabled it returns the full
    owned sequence. *)
Theorem getSubmissions_filter_correct (r : Rank.t) :
  ConsistentComparator Submission.compare →
  (RankOptions.enableFilterSubmissionsByTimestamp (Rank.options r) = true →
     getSubmissions r
     ≡ₚ filter (λ s, Submission.timestamp s ≤ RankOptions.timestamp (Rank.options r))
               (Rank.submissions r)
     ∧ (∀ s, s ∈ getSubmissions r
             ↔ s ∈ Rank.submissions r
               ∧ Submission.timestamp s ≤ RankOptions.timestamp (Rank.options r))
     ∧ Sorted (cmp_le Submission.compare) (getSubmissions r)
     ∧ (Sorted (cmp_le Submission.compare) (Rank.submissions r) →
          getSubmissions r
          = filter (λ s, Submission.timestamp s ≤ RankOptions.timestamp (Rank.options r))
                   (Rank.submissions r)))
  ∧ (RankOptions.enableFilterSubmissionsByTimestamp (Rank.options r) = false →
     getSubmissions r = Rank.submissions r).
Proof.
  intros Hcmp. unfold getSubmissions. split; intros ->; [|done].
  split_and!.
  - apply js_sort_Permutation.
  - intros s. rewrite js_sort_Permutation, list_elem_of_filter. tauto.
  - by apply js_sort_Sorted.
  - intros Hs. apply js_sort_Sorted_id. by apply Sorted_filter.
Qed.
End submissions_view.

Section set_width.
Import RankOptions.

End set_width.

Section set_width_doubles.
Import Floats.

(** [Math.floor] of a finite double is the floor of its value. *)
Lemma floor_toQ (x : PrimFloat.float) :
  Binary64.floor x = Qfloor <$> Binary64.toQ x.
Proof.
  unfold Binary64.floor, Binary64.toQ.
  destruct (FloatOps.Prim2SF x) as [s|s| |s m e]; simpl; try done.
  f_equal. destruct (0 <=? e) eqn:He.
  - by rewrite Qfloor_Z.
  - apply Z.leb_gt in He. unfold Qfloor.
    rewrite Z.shiftr_div_pow2 by lia.
    f_equal. destruct e as [|e|e]; try lia. simpl.
    by rewrite Pos2Z.inj_pow.
Qed.

(** C5, as amended.  [setWidth(width, contest)] stores the width, enables
    the filter and sets the cutoff to [Math.floor] of the double [p] that
    [(end - start) * width * 0.0001] evaluates to: when [p] is finite, the
    greatest integer not above [p], hence [p] itself only when [p] is an
    integer; when [p] is [NaN] or infinite, no integer.  On an
    18000-second contest [setWidth(5000)] yields 9000; [setWidth(1)] yields
    1, the product being about 1.8; and for the width [10000 / 9] the
    double product rounds up to 2000, which is stored, while the floor of
    the exact product of the same numbers is 1999. *)
Theorem setWidth_cutoff_floor (w : PrimFloat.float) (contest : Contest.t)
    (o : Binary64.options) :
  let p := Binary64.product w contest in
  let o' := Binary64.setWidth w contest o in
  Binary64.enableFilterSubmissionsByTimestamp o' = true
  ∧ Binary64.width o' = w
  ∧ match Binary64.toQ p with
    | Some q =>
        ∃ k, Binary64.timestamp o' = Some k
             ∧ Qle (inject_Z k) q ∧ Qlt q (inject_Z (k + 1))
             ∧ (∀ j : Z, Qle (inject_Z j) q → j ≤ k)
             ∧ (∀ j : Z, (q == inject_Z j)%Q → k = j)
    | None => Binary64.timestamp o' = None
    end
  ∧ (PrimFloat.sub (Binary64.ofZ (Contest.endTime contest))
                   (Binary64.ofZ (Contest.startTime contest))
     = Binary64.ofZ 18000 →
     (w = 5000%float → Binary64.timestamp o' = Some 9000)
     ∧ (w = 1%float →
        Binary64.timestamp o' = Some 1
        ∧ ∃ q, Binary64.toQ p = Some q ∧ Qlt 1 q ∧ Qlt q 2)
     ∧ (w = PrimFloat.div 10000 9 →
        Binary64.timestamp o' = Some 2000
        ∧ ∃ qw, Binary64.toQ w = Some qw
                ∧ Qfloor (inject_Z 18000 * qw * (1 # 10000)) = 1999)).
Proof.
  intros p o'. subst o'. simpl. split_and!; try done.
  - rewrite floor_toQ. fold p. destruct (Binary64.toQ p) as [q|]; simpl; [|done].
    exists (Qfloor q). split_and!; try done.
    + apply Qfloor_le.
    + apply Qlt_floor.
    + intros j Hj. apply Qfloor_resp_le in Hj. by rewrite Qfloor_Z in Hj.
    + intros j ->. apply Qfloor_Z.
  - intros Hd. subst p. unfold Binary64.product. rewrite Hd. split_and!.
    + intros ->. by vm_compute.
    + intros ->. split; [by vm_compute|]. vm_compute. eexists. split; [reflexivity|].
      split; reflexivity.
    + intros ->. split; [by vm_compute|]. vm_compute. eexists. split; reflexivity.
Qed.

(** At width 0 the double product is a zero whenever the duration is a
    finite double, so the cutoff is 0, as in exact arithmetic. *)
Lemma setWidth_zero_binary64 (contest : Contest.t) (o : Binary64.options) :
  Binary64.toQ (PrimFloat.sub (Binary64.ofZ (Contest.endTime contest))
                              (Binary64.ofZ (Contest.startTime contest))) ≠ None →
  Binary64.timestamp (Binary64.setWidth 0 contest o) = Some 0.
Proof.
  unfold Binary64.setWidth, Binary64.product, Binary64.toQ, Binary64.floor. simpl.
  rewrite !FloatAxioms.mul_spec.
  destruct (FloatOps.Prim2SF (PrimFloat.sub _ _)) as [s|s| |s m e]; try done.
Qed.

(** C5, as stated, fails: on an 18000-second contest [setWidth(1)] stores
    the cutoff 1, whereas the product is 1.8, in doubles as in exact
    arithmetic. *)
Lemma setWidth_product_counterexample :
  Binary64.timestamp (Binary64.setWidth 1 Reference.contest1 Binary64.new) = Some 1
  ∧ (∃ q, Binary64.toQ (Binary64.product 1 Reference.contest1) = Some q ∧ Qlt 1 q)
  ∧ ¬ (inject_Z 1
       == inject_Z (Contest.endTime Reference.contest1
                    - Contest.startTime Reference.contest1) * 1 * (1 # 10000))%Q.
Proof.
  split_and!.
  - by vm_compute.
  - vm_compute. eexists. split; reflexivity.
  - vm_compute. discriminate.
Qed.

Lemma setWidth_cutoff_floor_witness :
  Binary64.timestamp (Binary64.setWidth 5000 Reference.contest1 Binary64.new) = Some 9000.
Proof.
  destruct (setWidth_cutoff_floor 5000 Reference.contest1 Binary64.new)
    as (_ & _ & _ & Hscenario).
  destruct (Hscenario eq_refl) as (H5000 & _). exact (H5000 eq_refl).
Defined.
End set_width_doubles.

(** On the inputs used here the binary64 computation and its idealisation
    agree. *)
Lemma setWidth_binary64_agrees :
  Binary64.cutoff 18000 5000
  = Some (RankOptions.timestamp (RankOptions.setWidth 5000 Reference.contest1 RankOptions.new))
  ∧ Binary64.cutoff 18000 1
    = Some (RankOptions.timestamp (RankOptions.setWidth 1 Reference.contest1 RankOptions.new))
  ∧ Binary64.cutoff 18000 0
    = Some (RankOptions.timestamp (RankOptions.setWidth 0 Reference.contest1 RankOptions.new)).
Proof. by vm_compute. Qed.

Section width_zero.
Context `{!Submission.Methods}.

(** C10.  [setWidth(0, contest)] enables the filter with cutoff 0: the
    next [getSubmissions()] returns exactly the submissions with timestamp
    [≤ 0]; a submission with a positive timestamp is left out, so the
    result is not the full sequence as soon as there is one. *)
Theorem setWidth_zero_enables_filter (contest : Contest.t) (r : Rank.t) :
  let r' := Rank.set_options (RankOptions.setWidth 0 contest (Rank.options r)) r in
  RankOptions.enableFilterSubmissionsByTimestamp (Rank.options r') = true
  ∧ RankOptions.timestamp (Rank.options r') = 0
  ∧ getSubmissions r' ≡ₚ filter (λ s, Submission.timestamp s ≤ 0) (Rank.submissions r)
  ∧ (∀ s, s ∈ getSubmissions r' → Submission.timestamp s ≤ 0)
  ∧ (∀ s, s ∈ Rank.submissions r → 0 < Submission.timestamp s →
          (s ∉ getSubmissions r') ∧ (getSubmissions r' ≠ Rank.submissions r')).
Proof.
  intros r'.
  assert (Hts : RankOptions.timestamp (Rank.options r') = 0).
  { subst r'. simpl. unfold Qfloor, Qmult, inject_Z. simpl.
    rewrite !Z.mul_0_r. reflexivity. }
  assert (Hget : getSubmissions r'
                 = js_sort Submission.compare
                     (filter (λ s, Submission.timestamp s ≤ 0) (Rank.submissions r))).
  { unfold getSubmissions. rewrite Hts. reflexivity. }
  assert (Hle : ∀ s, s ∈ getSubmissions r' → Submission.timestamp s ≤ 0).
  { intros s. rewrite Hget, js_sort_Permutation, list_elem_of_filter. tauto. }
  split_and!; try done.
  - rewrite Hget. apply js_sort_Permutation.
  - intros s Hin Hpos.
    assert (s ∉ getSubmissions r') as Hnot by (intros ?%Hle; lia).
    split; [done|]. intros Heq. apply Hnot. by rewrite Heq.
Qed.
End width_zero.

(** ** Award construction *)

(** C6.  For every medal configuration [v] of a group, the awards are the
    gold, silver and bronze blocks in that order, each present exactly when
    its key is configured, each starting at the next free rank (the first
    at rank 1) and spanning its configured size, absent tiers taking no
    ranks; a honorable tier from the next free rank to the sentinel
    [0x3F3F3F3F] always closes the list.  Neighbouring awards are
    contiguous.  [{gold:1, silver:2}] gives gold [1,1], silver [2,3],
    honorable [4, sentinel] and no bronze. *)
Theorem createAwardList_tiers (v : gmap string Z) :
  let g := tierSize v "gold" in
  let s := tierSize v "silver" in
  let b := tierSize v "bronze" in
  createAwardList v
  = tierBlock v "gold" Award.GOLD 1
    ++ tierBlock v "silver" Award.SILVER (1 + g)
    ++ tierBlock v "bronze" Award.BRONZE (1 + g + s)
    ++ [Award.mk Award.HONORABLE (1 + g + s + b) MAX_RANK]
  ∧ Award.minRank <$> head (createAwardList v) = Some 1
  ∧ (∀ (i : nat) (a a' : Award.t),
       createAwardList v !! i = Some a → createAwardList v !! S i = Some a' →
       Award.minRank a' = Award.maxRank a + 1)
  ∧ createAwardList {[ "gold" := 1; "silver" := 2 ]}
    = [Award.mk Award.GOLD 1 1; Award.mk Award.SILVER 2 3;
       Award.mk Award.HONORABLE 4 1061109567].
Proof.
  intros g s b. subst g s b.
  split_and!; [| | |by vm_compute].
  all: unfold createAwardList, work, tierBlock, tierSize.
  all: destruct (v !! "gold") as [g|], (v !! "silver") as [s|], (v !! "bronze") as [b|].
  all: simpl; rewrite ?Z.add_0_r; try done.
  all: intros i a a' Ha Ha'.
  all: repeat (destruct i as [|i]; simpl in Ha, Ha'; simplify_eq; simpl; try lia).
Qed.

Lemma createAwardList_tiers_witness :
  Award.minRank (Award.mk Award.SILVER 2 3) = Award.maxRank (Award.mk Award.GOLD 1 1) + 1.
Proof.
  destruct (createAwardList_tiers {[ "gold" := 1; "silver" := 2 ]}) as (_ & _ & Hnext & _).
  apply (Hnext 0%nat); reflexivity.
Defined.

(** ** The replay loop *)

Lemma list_alter_lookup_insert {A : Type} (f : A → A) (l : list A) (i : nat) (x : A) :
  l !! i = Some x → alter f i l = <[i := f x]> l.
Proof.
  intros Hx. apply list_eq. intros j.
  destruct (decide (i = j)) as [->|Hne].
  - rewrite list_lookup_alter_eq, Hx, list_lookup_insert_eq; [done|].
    by eapply lookup_lt_Some.
  - by rewrite list_lookup_alter_ne, list_lookup_insert_ne.
Qed.

Section replay_facts.
Context `{!Submission.Methods, !Team.Methods}.

Lemma replayStep_turn (r : Rank.t) (s : Submission.t) :
  replayStep r s
  = match Rank.getTeam r (Submission.teamId s),
          Contest.getProblem (Rank.contest r) (Submission.problemId s) with
    | Some (i, team), Some (j, problem) =>
        '(k, ps) ← Team.getProblemStatistics team (Submission.problemId s);
        let '(team', ps', st') := turn s (team, ps, Problem.statistics problem) in
        Some (commit r i team' k ps' j st')
    | _, _ => Some r
    end.
Proof.
  unfold replayStep, turn.
  destruct (Rank.getTeam _ _) as [[i team]|]; [|done].
  destruct (Contest.getProblem _ _) as [[j problem]|]; [|done].
  destruct (Team.getProblemStatistics _ _) as [[k ps]|]; [|done]. simpl.
  destruct (TeamProblemStatistics.isSolved ps); [done|].
  destruct (Submission.isIgnore s || Submission.isNotCalculatedPenaltyStatus s); [done|].
  destruct (Submission.isAccepted s); simpl.
  - case_decide; simpl;
      destruct (Submission.isRejected s), (Submission.isPending s); done.
  - destruct (Submission.isRejected s), (Submission.isPending s); done.
Qed.

Lemma getTeam_Some (r : Rank.t) (tid : string) (i : nat) (x : Team.t) :
  Rank.getTeam r tid = Some (i, x) ↔ Rank.teamsMap r !! tid = Some i ∧ Rank.store r !! i = Some x.
Proof.
  unfold Rank.getTeam. destruct (Rank.teamsMap r !! tid) as [i'|]; simpl; [|naive_solver].
  destruct (Rank.store r !! i') as [x'|] eqn:Hx; simpl; naive_solver.
Qed.

Lemma getProblem_Some (c : Contest.t) (pid : string) (j : nat) (p : Problem.t) :
  Contest.getProblem c pid = Some (j, p)
  ↔ Contest.problemsMap c !! pid = Some j ∧ Contest.problems c !! j = Some p.
Proof.
  unfold Contest.getProblem.
  destruct (Contest.problemsMap c !! pid) as [j'|]; simpl; [|naive_solver].
  destruct (Contest.problems c !! j') as [p'|] eqn:Hp; simpl; naive_solver.
Qed.

Lemma getProblemStatistics_Some (x : Team.t) (pid : string) (k : nat)
    (ps : TeamProblemStatistics.t) :
  Team.getProblemStatistics x pid = Some (k, ps)
  ↔ Team.problemStatisticsMap x !! pid = Some k ∧ Team.problemStatistics x !! k = Some ps.
Proof.
  unfold Team.getProblemStatistics.
  destruct (Team.problemStatisticsMap x !! pid) as [k'|]; simpl; [|naive_solver].
  destruct (Team.problemStatistics x !! k') as [ps'|] eqn:Hp; simpl; naive_solver.
Qed.

(** What a turn leaves alone, whatever the verdict. *)
Lemma turn_frame (s : Submission.t) (x x' : Team.t) (ps ps' : TeamProblemStatistics.t)
    (st st' : ProblemStatistics.t) :
  turn s (x, ps, st) = (x', ps', st') →
  Team.id x' = Team.id x
  ∧ Team.organization x' = Team.organization x
  ∧ Team.rank x' = Team.rank x
  ∧ Team.organizationRank x' = Team.organizationRank x
  ∧ Team.solvedProblemNum x' = Team.solvedProblemNum x
  ∧ Team.penalty x' = Team.penalty x
  ∧ Team.problemStatistics x' = Team.problemStatistics x
  ∧ Team.problemStatisticsMap x' = Team.problemStatisticsMap x
  ∧ Team.submissions x' = Team.submissions x ++ [s]
  ∧ TeamProblemStatistics.problem ps' = TeamProblemStatistics.problem ps
  ∧ TeamProblemStatistics.contestPenalty ps' = TeamProblemStatistics.contestPenalty ps
  ∧ TeamProblemStatistics.submissions ps' = TeamProblemStatistics.submissions ps ++ [s].
Proof.
  unfold turn, onAccepted. simpl.
  repeat (case_match; simpl in * ); intros; simplify_eq/=; done.
Qed.
End replay_facts.

Section replay_frame.
Context `{!Submission.Methods, !Team.Methods}.

Lemma list_fmap_alter_absorb {A B : Type} (f : A → B) (g : A → A) (l : list A) (i : nat) :
  (∀ x, f (g x) = f x) → f <$> alter g i l = f <$> l.
Proof.
  intros Hfg. apply list_eq. intros j. rewrite !list_lookup_fmap.
  destruct (decide (i = j)) as [->|Hne].
  - rewrite list_lookup_alter_eq. destruct (l !! j); simpl; by rewrite ?Hfg.
  - by rewrite list_lookup_alter_ne.
Qed.

(** The [while] loop empties the list, so the last-solve list is the one
    accepted submission. *)
Lemma resetLastSolve_single (s : Submission.t) (st : ProblemStatistics.t) :
  ProblemStatistics.lastSolveSubmissions (ProblemStatisticsOps.resetLastSolve s st) = [s].
Proof.
  simpl. generalize (ProblemStatistics.lastSolveSubmissions st). intros l.
  assert (Hpop : ∀ (n : nat) (l0 : Submissions),
            (length l0 ≤ n)%nat → ProblemStatisticsOps.popAll n l0 = []).
  { induction n as [|n IH]; intros l0 Hl0; simpl.
    - by destruct l0; [|simpl in Hl0; lia].
    - destruct l0 as [|x l0] using rev_ind; [done|].
      rewrite decide_True by (rewrite length_app; simpl; lia).
      rewrite removelast_last. apply IH.
      rewrite length_app in Hl0. simpl in Hl0. lia. }
  by rewrite Hpop.
Qed.

(** A turn either skips the submission or commits the three objects. *)
Lemma replayStep_inv (r r' : Rank.t) (s : Submission.t) :
  replayStep r s = Some r' →
  r' = r
  ∨ ∃ i team j problem k ps team' ps' st',
      Rank.getTeam r (Submission.teamId s) = Some (i, team)
      ∧ Contest.getProblem (Rank.contest r) (Submission.problemId s) = Some (j, problem)
      ∧ Team.getProblemStatistics team (Submission.problemId s) = Some (k, ps)
      ∧ turn s (team, ps, Problem.statistics problem) = (team', ps', st')
      ∧ r' = commit r i team' k ps' j st'.
Proof.
  rewrite replayStep_turn.
  destruct (Rank.getTeam _ _) as [[i team]|] eqn:Ht; [|naive_solver].
  destruct (Contest.getProblem _ _) as [[j problem]|] eqn:Hp; [|naive_solver].
  destruct (Team.getProblemStatistics _ _) as [[k ps]|] eqn:Hps; [|done]. simpl.
  destruct (turn s _) as [[team' ps'] st'] eqn:Hturn.
  intros [= <-]. right. by exists i, team, j, problem, k, ps, team', ps', st'.
Qed.

Lemma sameFrame_refl (r : Rank.t) : sameFrame r r.
Proof. by repeat split. Qed.

Lemma sameFrame_trans (r1 r2 r3 : Rank.t) :
  sameFrame r1 r2 → sameFrame r2 r3 → sameFrame r1 r3.
Proof. unfold sameFrame. intros ? ?. destruct_and!. split_and!; congruence. Qed.

Lemma commit_sameFrame (r : Rank.t) i x k ps j st : sameFrame r (commit r i x k ps j st).
Proof.
  unfold sameFrame, commit, resetProblems. simpl. split_and!; try done.
  - unfold Contest.set_problems. simpl. f_equal.
    by apply list_fmap_alter_absorb.
  - apply length_alter.
  - apply length_insert.
Qed.

Lemma replayStep_sameFrame (r r' : Rank.t) (s : Submission.t) :
  replayStep r s = Some r' → sameFrame r r'.
Proof.
  intros [->|(i&team&j&problem&k&ps&team'&ps'&st'&_&_&_&_&->)]%replayStep_inv.
  - apply sameFrame_refl.
  - apply commit_sameFrame.
Qed.

Lemma replay_sameFrame (subs : Submissions) (r r' : Rank.t) :
  replay r subs = Some r' → sameFrame r r'.
Proof.
  revert r. induction subs as [|s subs IH]; simpl; intros r.
  - intros [= ->]. apply sameFrame_refl.
  - destruct (replayStep r s) as [r1|] eqn:Hstep; simpl; [|done].
    intros Hrest. eapply sameFrame_trans; [by eapply replayStep_sameFrame|by apply IH].
Qed.

Lemma replay_app (l1 l2 : Submissions) (r : Rank.t) :
  replay r (l1 ++ l2) = r1 ← replay r l1; replay r1 l2.
Proof.
  revert r. induction l1 as [|s l1 IH]; simpl; intros r; [done|].
  destruct (replayStep r s); simpl; [apply IH|done].
Qed.

(** Whether an id resolves depends on the two maps and on how many objects
    there are, which the replay leaves as they were. *)
Lemma sameFrame_getTeam_None (r r' : Rank.t) (tid : string) :
  sameFrame r r' → Rank.getTeam r tid = None → Rank.getTeam r' tid = None.
Proof.
  intros (_&Hmap&_&_&_&_&_&_&_&_&Hlen). unfold Rank.getTeam. rewrite Hmap.
  destruct (Rank.teamsMap r !! tid) as [i|]; simpl; [|done].
  destruct (Rank.store r !! i) eqn:Hi; simpl; [done|intros _].
  apply lookup_ge_None in Hi. rewrite <- Hlen in Hi.
  apply lookup_ge_None in Hi. by rewrite Hi.
Qed.

Lemma sameFrame_getProblem_None (r r' : Rank.t) (pid : string) :
  sameFrame r r' → Contest.getProblem (Rank.contest r) pid = None →
  Contest.getProblem (Rank.contest r') pid = None.
Proof.
  intros (_&_&_&_&_&_&Hmap&_&_&Hlen&_). unfold Contest.getProblem. rewrite Hmap.
  destruct (Contest.problemsMap (Rank.contest r) !! pid) as [j|]; simpl; [|done].
  destruct (Contest.problems (Rank.contest r) !! j) eqn:Hj; simpl; [done|intros _].
  apply lookup_ge_None in Hj. rewrite <- Hlen in Hj.
  apply lookup_ge_None in Hj. by rewrite Hj.
Qed.

(** C7.  A submission whose team id or problem id resolves to no team or
    no contest problem is skipped: the turn raises nothing and returns the
    state it received, whole; and the loop goes on as if the submission
    were not in the sequence. *)
Theorem unknown_reference_skipped (r : Rank.t) (s : Submission.t) :
  Rank.getTeam r (Submission.teamId s) = None
  ∨ Contest.getProblem (Rank.contest r) (Submission.problemId s) = None →
  replayStep r s = Some r
  ∧ (∀ post, replay r (s :: post) = replay r post)
  ∧ (∀ pre post, replay r (pre ++ s :: post) = replay r (pre ++ post)).
Proof.
  intros Hunknown.
  assert (Hskip : ∀ r1, sameFrame r r1 → replayStep r1 s = Some r1).
  { intros r1 Hframe. unfold replayStep. destruct Hunknown as [Ht|Hp].
    - by rewrite (sameFrame_getTeam_None _ _ _ Hframe Ht).
    - rewrite (sameFrame_getProblem_None _ _ _ Hframe Hp).
      by destruct (Rank.getTeam _ _) as [[??]|]. }
  split_and!.
  - apply Hskip, sameFrame_refl.
  - intros post. simpl. by rewrite (Hskip r (sameFrame_refl r)).
  - intros pre post. rewrite !replay_app.
    destruct (replay r pre) as [r1|] eqn:Hpre; simpl; [|done].
    by rewrite (Hskip r1 (replay_sameFrame _ _ _ Hpre)).
Qed.
End replay_frame.

(** ** Submissions after the solve; the first-solve list *)

Section replay_first_solve.
Context `{!Submission.Methods, !Team.Methods}.

Lemma turn_firstSolve (s : Submission.t) (x x' : Team.t)
    (ps ps' : TeamProblemStatistics.t) (st st' : ProblemStatistics.t) :
  turn s (x, ps, st) = (x', ps', st') →
  ProblemStatistics.firstSolveSubmissions st'
  = if decide (TeamProblemStatistics.isSolved ps = false
               ∧ Submission.isIgnore s || Submission.isNotCalculatedPenaltyStatus s = false
               ∧ Submission.isAccepted s = true
               ∧ tiesLast (ProblemStatistics.firstSolveSubmissions st) s)
    then ProblemStatistics.firstSolveSubmissions st ++ [s]
    else ProblemStatistics.firstSolveSubmissions st.
Proof.
  intros Hturn. case_decide as Hd; unfold turn, onAccepted in Hturn; simpl in Hturn.
  - destruct Hd as (Hs & Hi & Ha & Hties). rewrite Hs, Hi, Ha in Hturn.
    unfold tiesLast in Hties. rewrite decide_True in Hturn by done.
    destruct (Submission.isRejected s), (Submission.isPending s); by simplify_eq/=.
  - destruct (TeamProblemStatistics.isSolved ps) eqn:Hs; [by simplify_eq/=|].
    destruct (Submission.isIgnore s || Submission.isNotCalculatedPenaltyStatus s) eqn:Hi;
      [by simplify_eq/=|].
    destruct (Submission.isAccepted s) eqn:Ha.
    + case_decide as Hties; [by destruct Hd|].
      destruct (Submission.isRejected s), (Submission.isPending s); by simplify_eq/=.
    + destruct (Submission.isRejected s), (Submission.isPending s); by simplify_eq/=.
Qed.

(** The first-solve list of the problem at position [j] after one turn. *)
Lemma replayStep_firstSolve (r r' : Rank.t) (s : Submission.t) (j : nat) (p : Problem.t) :
  replayStep r s = Some r' →
  Contest.problems (Rank.contest r) !! j = Some p →
  ∃ p', Contest.problems (Rank.contest r') !! j = Some p'
        ∧ firstSolves p'
          = if decide (solvesAt r s = Some j ∧ tiesLast (firstSolves p) s)
            then firstSolves p ++ [s] else firstSolves p.
Proof.
  intros Hstep Hp. unfold solvesAt. rewrite replayStep_turn in Hstep.
  destruct (Rank.getTeam _ _) as [[i team]|] eqn:Ht; cycle 1.
  { simplify_eq. exists p. by rewrite decide_False by naive_solver. }
  destruct (Contest.getProblem _ _) as [[j0 problem]|] eqn:Hp0; cycle 1.
  { simplify_eq. exists p. by rewrite decide_False by naive_solver. }
  destruct (Team.getProblemStatistics _ _) as [[k ps]|] eqn:Hps; [|done].
  simpl in Hstep. destruct (turn s _) as [[team' ps'] st'] eqn:Hturn.
  simplify_eq. apply turn_firstSolve in Hturn.
  apply getProblem_Some in Hp0 as [_ Hp0]. unfold commit. simpl.
  destruct (decide (j0 = j)) as [->|Hne].
  - rewrite list_lookup_alter_eq, Hp0. simplify_eq. simpl.
    eexists. split; [done|]. simpl. rewrite Hturn.
    destruct (TeamProblemStatistics.isSolved ps),
      (Submission.isIgnore s || Submission.isNotCalculatedPenaltyStatus s),
      (Submission.isAccepted s); repeat case_decide; naive_solver.
  - rewrite list_lookup_alter_ne by done. exists p. split; [done|].
    rewrite decide_False; [done|].
    destruct (TeamProblemStatistics.isSolved ps),
      (Submission.isIgnore s || Submission.isNotCalculatedPenaltyStatus s),
      (Submission.isAccepted s); naive_solver.
Qed.
End replay_first_solve.

Section first_solve_invariant.
Context `{!Submission.Methods, !Team.Methods}.

Lemma uniformTimestamps_snoc (l : Submissions) (s : Submission.t) :
  uniformTimestamps l → tiesLast l s → uniformTimestamps (l ++ [s]).
Proof.
  intros Hl Hties.
  assert (Hs : ∀ a, a ∈ l → Submission.timestamp a = Submission.timestamp s).
  { intros a Ha. destruct Hties as [Hnil|Hlast].
    - destruct l; [by apply elem_of_nil in Ha|done].
    - destruct (last l) as [x|] eqn:Hx; [|done]. simplify_eq/=.
      rewrite <- Hlast. apply Hl; [done|].
      rewrite last_lookup in Hx. by eapply list_elem_of_lookup_2. }
  intros a b [Ha|Ha%list_elem_of_singleton]%elem_of_app
             [Hb|Hb%list_elem_of_singleton]%elem_of_app; subst.
  - by apply Hl.
  - by apply Hs.
  - symmetry. by apply Hs.
  - done.
Qed.

Lemma finish_contest (r : Rank.t) : Rank.contest (finish r) = Rank.contest r.
Proof. unfold finish. simpl. by destruct (truthy _). Qed.

Lemma prepare_firstSolves (r : Rank.t) (p : Problem.t) :
  p ∈ Contest.problems (Rank.contest (prepare r)) → firstSolves p = [].
Proof.
  unfold prepare, resetProblems. simpl.
  intros (p0 & -> & _)%list_elem_of_fmap. done.
Qed.

Lemma replayStep_firstSolveUniform (r1 r2 : Rank.t) (s : Submission.t) :
  replayStep r1 s = Some r2 → firstSolveUniform r1 → firstSolveUniform r2.
Proof.
  intros Hstep Huni p2 (j & Hp2)%list_elem_of_lookup_1.
  pose proof (replayStep_sameFrame _ _ _ Hstep) as (_&_&_&_&_&_&_&_&_&Hlen&_).
  destruct (Contest.problems (Rank.contest r1) !! j) as [p1|] eqn:Hp1; cycle 1.
  { apply lookup_ge_None in Hp1. apply lookup_lt_Some in Hp2. lia. }
  destruct (replayStep_firstSolve _ _ _ _ _ Hstep Hp1) as (p2' & Hp2' & Hfs).
  simplify_eq. rewrite Hfs.
  assert (Hu : uniformTimestamps (firstSolves p1)).
  { apply Huni. by eapply list_elem_of_lookup_2. }
  case_decide as Hd; [|done]. apply uniformTimestamps_snoc; [done|apply Hd].
Qed.

Lemma replay_firstSolveUniform (subs : Submissions) (r1 r2 : Rank.t) :
  replay r1 subs = Some r2 → firstSolveUniform r1 → firstSolveUniform r2.
Proof.
  revert r1. induction subs as [|s subs IH]; simpl; intros r1.
  - by intros [= ->].
  - destruct (replayStep r1 s) as [r|] eqn:Hstep; simpl; [|done].
    intros Hrest Hu. apply (IH r Hrest). by eapply replayStep_firstSolveUniform.
Qed.

(** C9.  Throughout the replay of [buildRank] the entries of a problem's
    first-solve list have pairwise equal timestamps: the lists are empty
    when the replay starts; a turn leaves a list as it is or appends the
    submission at hand, and appends only when the list is empty or the
    submission's timestamp equals that of the last entry; so the property
    holds after every prefix of the replayed sequence, and in the state
    [buildRank] leaves. *)
Theorem first_solve_timestamps_uniform (r : Rank.t) :
  firstSolveUniform (prepare r)
  ∧ (∀ r1 s r2, replayStep r1 s = Some r2 →
       (∀ j p1, Contest.problems (Rank.contest r1) !! j = Some p1 →
          ∃ p2, Contest.problems (Rank.contest r2) !! j = Some p2
                ∧ (firstSolves p2 = firstSolves p1
                   ∨ (firstSolves p2 = firstSolves p1 ++ [s]
                      ∧ tiesLast (firstSolves p1) s)))
       ∧ (firstSolveUniform r1 → firstSolveUniform r2))
  ∧ (∀ pre post r1,
       getSubmissions (prepare r) = pre ++ post →
       replay (prepare r) pre = Some r1 → firstSolveUniform r1)
  ∧ (∀ r', buildRank r = Some r' → firstSolveUniform r').
Proof.
  assert (Hstart : firstSolveUniform (prepare r)).
  { intros p Hp a b Ha. rewrite (prepare_firstSolves r p Hp) in Ha.
    by apply elem_of_nil in Ha. }
  split_and!.
  - done.
  - intros r1 s r2 Hstep. split; [|by eapply replayStep_firstSolveUniform].
    intros j p1 Hp1.
    destruct (replayStep_firstSolve _ _ _ _ _ Hstep Hp1) as (p2 & Hp2 & Hfs).
    exists p2. split; [done|]. rewrite Hfs. case_decide as Hd; [right|by left].
    split; [done|apply Hd].
  - intros pre post r1 _ Hpre. by eapply replay_firstSolveUniform.
  - intros r'. unfold buildRank.
    destruct (replay _ _) as [r1|] eqn:Hreplay; simpl; [|done].
    intros [= <-] p. rewrite finish_contest. revert p.
    by eapply replay_firstSolveUniform.
Qed.

(** C8.  When team, problem and the team's statistics object for the
    problem resolve and that object is already marked solved, the turn
    appends the submission to the team's list and to the object's list and
    adds one to the problem's [submittedNum]; every other field of the
    three objects, every other object and the rest of the instance are as
    before. *)
Theorem solved_problem_submission_only_recorded (r : Rank.t) (s : Submission.t)
    (i : nat) (team : Team.t) (j : nat) (problem : Problem.t) (k : nat)
    (ps : TeamProblemStatistics.t) :
  Rank.getTeam r (Submission.teamId s) = Some (i, team) →
  Contest.getProblem (Rank.contest r) (Submission.problemId s) = Some (j, problem) →
  Team.getProblemStatistics team (Submission.problemId s) = Some (k, ps) →
  TeamProblemStatistics.isSolved ps = true →
  let ps' :=
    TeamProblemStatistics.mk
      (TeamProblemStatistics.problem ps) (TeamProblemStatistics.contestPenalty ps)
      (TeamProblemStatistics.submissions ps ++ [s])
      (TeamProblemStatistics.isFirstSolved ps) (TeamProblemStatistics.isSolved ps)
      (TeamProblemStatistics.solvedTimestamp ps) (TeamProblemStatistics.isSubmitted ps)
      (TeamProblemStatistics.lastSubmitTimestamp ps)
      (TeamProblemStatistics.failedCount ps) (TeamProblemStatistics.pendingCount ps)
      (TeamProblemStatistics.ignoreCount ps) (TeamProblemStatistics.totalCount ps) in
  let team' :=
    Team.mk (Team.id team) (Team.organization team) (Team.rank team)
      (Team.organizationRank team) (Team.solvedProblemNum team) (Team.penalty team)
      (Team.lastSolvedProblemTimestamp team)
      (<[k := ps']> (Team.problemStatistics team))
      (Team.problemStatisticsMap team) (Team.submissions team ++ [s]) in
  let st := Problem.statistics problem in
  let st' :=
    ProblemStatistics.mk
      (ProblemStatistics.acceptedNum st) (ProblemStatistics.rejectedNum st)
      (ProblemStatistics.pendingNum st) (ProblemStatistics.submittedNum st + 1)
      (ProblemStatistics.attemptedNum st) (ProblemStatistics.ignoreNum st)
      (ProblemStatistics.firstSolveSubmissions st)
      (ProblemStatistics.lastSolveSubmissions st) in
  let c := Rank.contest r in
  replayStep r s
  = Some (Rank.mk
            (Contest.mk (Contest.startTime c) (Contest.endTime c) (Contest.penalty c)
               (<[j := Problem.mk (Problem.id problem) st']> (Contest.problems c))
               (Contest.problemsMap c) (Contest.organization c) (Contest.awards c))
            (<[i := team']> (Rank.store r)) (Rank.teams r) (Rank.teamsMap r)
            (Rank.submissions r) (Rank.rankStatistics r) (Rank.options r)).
Proof.
  intros Ht Hp Hps Hsolved. cbv zeta.
  match goal with |- _ = ?res => set (after := res) end.
  unfold replayStep. rewrite Ht, Hp, Hps. simpl. rewrite Hsolved.
  apply getProblem_Some in Hp as [_ Hp].
  unfold commit. rewrite (list_alter_lookup_insert _ _ _ _ Hp).
  reflexivity.
Qed.
End first_solve_invariant.

(** ** Well-formed instances *)

Section well_formed.
Context `{!Submission.Methods, !Team.Methods}.

Lemma forEachTeam_lookup (f : Team.t → Team.t) (order : list nat) (store : list Team.t)
    (i : nat) :
  NoDup order →
  forEachTeam f order store !! i
  = if decide (i ∈ order) then f <$> store !! i else store !! i.
Proof.
  unfold forEachTeam. revert store.
  induction order as [|a order IH]; intros store Hnd; cbn [foldl].
  { by rewrite decide_False by apply not_elem_of_nil. }
  apply NoDup_cons in Hnd as [Ha Hnd]. rewrite IH by done.
  destruct (decide (i = a)) as [->|Hne].
  - rewrite decide_False by done. rewrite decide_True by left.
    apply list_lookup_alter_eq.
  - rewrite list_lookup_alter_ne by done.
    repeat case_decide; try done; set_solver.
Qed.

Lemma forEachTeam_all (f : Team.t → Team.t) (order : list nat) (store : list Team.t) :
  order ≡ₚ seq 0 (length store) → forEachTeam f order store = f <$> store.
Proof.
  intros Hperm. apply list_eq. intros i.
  rewrite forEachTeam_lookup, list_lookup_fmap.
  - case_decide as Hi; [done|].
    rewrite Hperm, elem_of_seq in Hi.
    rewrite (proj2 (lookup_ge_None _ _)); [done|lia].
  - rewrite Hperm. apply NoDup_seq.
Qed.

Lemma prepare_store (r : Rank.t) :
  wellFormed r → Rank.store (prepare r) = prepareTeam (Rank.contest r) <$> Rank.store r.
Proof. intros (Hperm&_). unfold prepare. simpl. by apply forEachTeam_all. Qed.

Lemma prepare_sameFrame (r : Rank.t) : sameFrame r (prepare r).
Proof.
  unfold sameFrame, prepare, resetProblems, forEachTeam. simpl. split_and!; try done.
  - by rewrite <- list_fmap_compose.
  - by rewrite length_fmap.
  - generalize (Rank.store r). induction (Rank.teams r) as [|a l IH]; intros st; simpl;
      [done|]. by rewrite IH, length_alter.
Qed.

Lemma getSubmissions_sameFrame (r r' : Rank.t) :
  sameFrame r r' → getSubmissions r' = getSubmissions r.
Proof. intros (_&_&Hs&_&Ho&_). unfold getSubmissions. by rewrite Hs, Ho. Qed.

Lemma getSubmissions_Sorted (r : Rank.t) :
  ConsistentComparator Submission.compare → wellFormed r →
  Sorted (cmp_le Submission.compare) (getSubmissions r).
Proof.
  intros Hcmp (_&_&Hs). unfold getSubmissions.
  destruct (RankOptions.enableFilterSubmissionsByTimestamp _); [|done].
  by apply js_sort_Sorted.
Qed.
End well_formed.

(** ** First solves and the earliest solving timestamp *)

Section first_solve_earliest.
Context `{!Submission.Methods, !Team.Methods}.

Lemma solveTimes_app (j : nat) (l1 l2 : Submissions) (r r1 : Rank.t) :
  replay r l1 = Some r1 →
  solveTimes j r (l1 ++ l2) = solveTimes j r l1 ++ solveTimes j r1 l2.
Proof.
  revert r. induction l1 as [|s l1 IH]; simpl; intros r.
  - by intros [= ->].
  - destruct (replayStep r s) as [r'|]; simpl; [|done].
    intros Hrest. by rewrite (IH _ Hrest), (assoc_L (++)).
Qed.

Lemma solveTimes_elem_of (j : nat) (l : Submissions) (r : Rank.t) (t : Z) :
  t ∈ solveTimes j r l → ∃ s, s ∈ l ∧ Submission.timestamp s = t.
Proof.
  revert r. induction l as [|s l IH]; simpl; intros r.
  - by intros ?%elem_of_nil.
  - intros [Hin|Hin]%elem_of_app.
    + case_decide; [|by apply elem_of_nil in Hin].
      apply list_elem_of_singleton in Hin as ->. exists s. split; [left|done].
    + destruct (replayStep r s) as [r'|]; [|by apply elem_of_nil in Hin].
      destruct (IH _ Hin) as (s' & Hs' & <-). exists s'. split; [by right|done].
Qed.

(** Replayed in ascending timestamp order, the solving timestamps come out
    in ascending order. *)
Lemma solveTimes_sorted (j : nat) (l : Submissions) (r : Rank.t) :
  StronglySorted Z.le (Submission.timestamp <$> l) →
  StronglySorted Z.le (solveTimes j r l).
Proof.
  revert r. induction l as [|s l IH]; simpl; intros r Hs; [constructor|].
  apply StronglySorted_inv in Hs as [Hs Hall].
  assert (Htail : StronglySorted Z.le
            match replayStep r s with Some r' => solveTimes j r' l | None => [] end).
  { destruct (replayStep r s); [by apply IH|constructor]. }
  case_decide; simpl; [|done]. constructor; [done|].
  apply Forall_forall. intros t Ht.
  destruct (replayStep r s) as [r'|]; [|by apply elem_of_nil in Ht].
  apply solveTimes_elem_of in Ht as (s' & Hs' & <-).
  rewrite Forall_forall in Hall. apply Hall. by apply list_elem_of_fmap_2.
Qed.

(** The first-solve list against the solving timestamps seen: it is empty
    until the first solve, and from then on all its entries carry the
    first solving timestamp seen. *)
Lemma firstSolves_solveTimes (j : nat) (pre : Submissions) (r0 r1 : Rank.t)
    (p0 p1 : Problem.t) :
  Contest.problems (Rank.contest r0) !! j = Some p0 → firstSolves p0 = [] →
  replay r0 pre = Some r1 →
  Contest.problems (Rank.contest r1) !! j = Some p1 →
  match head (solveTimes j r0 pre) with
  | None => firstSolves p1 = []
  | Some t0 => firstSolves p1 ≠ [] ∧ ∀ x, x ∈ firstSolves p1 → Submission.timestamp x = t0
  end.
Proof.
  intros Hp0 Hnil. revert r1 p1.
  induction pre as [|s pre IH] using rev_ind; intros r1 p1 Hreplay Hp1.
  { simpl in *. by simplify_eq. }
  rewrite replay_app in Hreplay.
  destruct (replay r0 pre) as [r1'|] eqn:Hpre; simpl in Hreplay; [|done].
  destruct (replayStep r1' s) as [r1''|] eqn:Hstep; simpl in Hreplay; [|done].
  simplify_eq.
  pose proof (replayStep_sameFrame _ _ _ Hstep) as (_&_&_&_&_&_&_&_&_&Hlen&_).
  destruct (Contest.problems (Rank.contest r1') !! j) as [p1'|] eqn:Hp1'; cycle 1.
  { apply lookup_ge_None in Hp1'. apply lookup_lt_Some in Hp1. lia. }
  specialize (IH _ _ eq_refl Hp1').
  destruct (replayStep_firstSolve _ _ _ _ _ Hstep Hp1') as (p2 & Hp2 & Hfs).
  simplify_eq. rewrite Hfs.
  rewrite (solveTimes_app _ _ _ _ _ Hpre). simpl. rewrite Hstep, app_nil_r.
  destruct (decide (solvesAt r1' s = Some j)) as [Hsolve|Hsolve]; cycle 1.
  { rewrite decide_False by naive_solver. by rewrite app_nil_r. }
  destruct (solveTimes j r0 pre) as [|t0 T]; simpl in *.
  - rewrite IH. rewrite decide_True by (split; [done|by left]). simpl.
    split; [done|]. intros x Hx%list_elem_of_singleton. by subst.
  - destruct IH as [Hne Hall]. case_decide as Hd; [|done].
    split; [by destruct (firstSolves p1')|].
    destruct Hd as [_ [Hlen0|Hlast]]; [by destruct (firstSolves p1')|].
    intros x [Hx|Hx%list_elem_of_singleton]%elem_of_app; [by apply Hall|]. subst x.
    destruct (last (firstSolves p1')) as [y|] eqn:Hy; [|done]. simplify_eq/=.
    rewrite <- Hlast. apply Hall.
    rewrite last_lookup in Hy. by eapply list_elem_of_lookup_2.
Qed.
End first_solve_earliest.

Section first_solve_marks.
Context `{!Submission.Methods, !Team.Methods}.

Lemma turn_flags (s : Submission.t) (x x' : Team.t) (ps ps' : TeamProblemStatistics.t)
    (st st' : ProblemStatistics.t) :
  turn s (x, ps, st) = (x', ps', st') →
  (TeamProblemStatistics.isSolved ps = false →
   TeamProblemStatistics.isFirstSolved ps = false) →
  TeamProblemStatistics.isSolved ps' = false →
  TeamProblemStatistics.isFirstSolved ps' = false.
Proof.
  unfold turn, onAccepted. simpl.
  repeat (case_match; simpl in * ); intros; simplify_eq/=; first [congruence|auto].
Qed.

Lemma turn_solving (s : Submission.t) (x x' : Team.t) (ps ps' : TeamProblemStatistics.t)
    (st st' : ProblemStatistics.t) :
  turn s (x, ps, st) = (x', ps', st') →
  TeamProblemStatistics.isSolved ps = false →
  Submission.isIgnore s || Submission.isNotCalculatedPenaltyStatus s = false →
  Submission.isAccepted s = true →
  TeamProblemStatistics.isSolved ps' = true
  ∧ TeamProblemStatistics.solvedTimestamp ps' = Submission.timestamp s
  ∧ TeamProblemStatistics.isFirstSolved ps'
    = if decide (tiesLast (ProblemStatistics.firstSolveSubmissions st) s)
      then true else TeamProblemStatistics.isFirstSolved ps.
Proof.
  intros Hturn Hs Hi Ha. unfold tiesLast.
  case_decide as Hd; unfold turn, onAccepted in Hturn; simpl in Hturn;
    rewrite Hs, Hi, Ha in Hturn;
    [rewrite decide_True in Hturn by done|rewrite decide_False in Hturn by done];
    destruct (Submission.isRejected s), (Submission.isPending s); by simplify_eq/=.
Qed.

Lemma prepare_cleanFlags (r : Rank.t) : wellFormed r → cleanFlags (prepare r).
Proof.
  intros Hwf i x k ps. rewrite (prepare_store r Hwf), list_lookup_fmap.
  destruct (Rank.store r !! i) as [x0|]; simpl; [|done]. intros [= <-].
  unfold prepareTeam. simpl. rewrite list_lookup_fmap.
  destruct (Contest.problems (Rank.contest r) !! k); simpl; [|done].
  by intros [= <-].
Qed.

Lemma replayStep_cleanFlags (r r' : Rank.t) (s : Submission.t) :
  replayStep r s = Some r' → cleanFlags r → cleanFlags r'.
Proof.
  intros [->|(i&team&j&problem&k&ps&team'&ps'&st'&Ht&Hp&Hps&Hturn&->)]%replayStep_inv;
    [done|].
  intros Hclean i0 x0 k0 ps0. unfold commit. simpl.
  apply getTeam_Some in Ht as [_ Ht].
  apply getProblemStatistics_Some in Hps as [_ Hps].
  pose proof (turn_frame _ _ _ _ _ _ _ Hturn) as (_&_&_&_&_&_&Hpsl&_).
  destruct (decide (i = i0)) as [<-|Hne]; cycle 1.
  { rewrite list_lookup_insert_ne by done. apply Hclean. }
  rewrite list_lookup_insert_eq by (by eapply lookup_lt_Some).
  intros [= <-]. simpl. rewrite Hpsl.
  destruct (decide (k = k0)) as [<-|Hnek]; cycle 1.
  { rewrite list_lookup_insert_ne by done. by apply (Hclean i team). }
  rewrite list_lookup_insert_eq by (by eapply lookup_lt_Some).
  intros [= <-]. eapply turn_flags; [done|]. by apply (Hclean i team k).
Qed.

Lemma replay_cleanFlags (subs : Submissions) (r r' : Rank.t) :
  replay r subs = Some r' → cleanFlags r → cleanFlags r'.
Proof.
  revert r. induction subs as [|s subs IH]; simpl; intros r.
  - by intros [= ->].
  - destruct (replayStep r s) as [r1|] eqn:Hstep; simpl; [|done].
    intros Hrest Hc. apply (IH r1 Hrest). by eapply replayStep_cleanFlags.
Qed.

(** With the solving timestamps so far in ascending order and none above
    that of [s], tying the last first-solve entry is being the earliest. *)
Lemma tiesLast_iff_earliest (T : list Z) (F : Submissions) (s : Submission.t) :
  match head T with
  | None => F = []
  | Some t0 => F ≠ [] ∧ ∀ x, x ∈ F → Submission.timestamp x = t0
  end →
  StronglySorted Z.le T →
  (∀ t, t ∈ T → t ≤ Submission.timestamp s) →
  tiesLast F s ↔ Forall (λ t, Submission.timestamp s ≤ t) T.
Proof.
  intros Hinv Hsorted Hbelow. unfold tiesLast.
  destruct T as [|t0 T]; simpl in Hinv.
  { subst F. split; [constructor|by left]. }
  destruct Hinv as [Hne Hall].
  apply StronglySorted_inv in Hsorted as [_ Hle]. rewrite Forall_forall in Hle.
  assert (Ht0 : t0 ≤ Submission.timestamp s) by (apply Hbelow; left).
  destruct (last F) as [y|] eqn:Hy; cycle 1.
  { apply last_None in Hy. done. }
  assert (Submission.timestamp y = t0) as Hyt.
  { apply Hall. rewrite last_lookup in Hy. by eapply list_elem_of_lookup_2. }
  simpl. split.
  - intros [Hlen|[= Heq]]; [by destruct F|].
    apply Forall_forall. intros t [->|Ht]%elem_of_cons; [lia|].
    specialize (Hle t Ht). lia.
  - intros Hfa. right. f_equal.
    apply Forall_inv in Hfa. lia.
Qed.
End first_solve_marks.

Section first_solve_theorem.
Context `{!Submission.Methods, !Team.Methods}.

Lemma timestamps_sorted (l : Submissions) :
  TimestampOrdered → Sorted (cmp_le Submission.compare) l →
  StronglySorted Z.le (Submission.timestamp <$> l).
Proof.
  intros Hts Hs. apply Sorted_StronglySorted; [apply _|].
  eapply Sorted_fmap; [|done]. apply Hts.
Qed.

(** A turn that reaches the accepted branch. *)
Lemma solving_turn (r1 : Rank.t) (s : Submission.t) (j : nat) :
  solvesAt r1 s = Some j → cleanFlags r1 →
  ∃ r2 p1 p2 i team k ps,
    replayStep r1 s = Some r2
    ∧ Contest.problems (Rank.contest r1) !! j = Some p1
    ∧ Contest.problems (Rank.contest r2) !! j = Some p2
    ∧ Rank.getTeam r2 (Submission.teamId s) = Some (i, team)
    ∧ Team.getProblemStatistics team (Submission.problemId s) = Some (k, ps)
    ∧ TeamProblemStatistics.isSolved ps = true
    ∧ TeamProblemStatistics.solvedTimestamp ps = Submission.timestamp s
    ∧ firstSolves p2
      = (if decide (tiesLast (firstSolves p1) s)
         then firstSolves p1 ++ [s] else firstSolves p1)
    ∧ TeamProblemStatistics.isFirstSolved ps
      = (if decide (tiesLast (firstSolves p1) s) then true else false).
Proof.
  intros Hsolve Hclean. pose proof Hsolve as Hsolve'. unfold solvesAt in Hsolve'.
  destruct (Rank.getTeam _ _) as [[i team]|] eqn:Ht; [|done].
  destruct (Contest.getProblem _ _) as [[j0 problem]|] eqn:Hp; [|done].
  destruct (Team.getProblemStatistics _ _) as [[k ps]|] eqn:Hps; [|done].
  destruct (TeamProblemStatistics.isSolved ps) eqn:Hs; [done|].
  destruct (Submission.isIgnore s || Submission.isNotCalculatedPenaltyStatus s) eqn:Hi;
    [done|].
  destruct (Submission.isAccepted s) eqn:Ha; [|done]. simplify_eq.
  destruct (turn s (team, ps, Problem.statistics problem)) as [[team' ps'] st'] eqn:Hturn.
  pose proof (turn_frame _ _ _ _ _ _ _ Hturn) as (_&_&_&_&_&_&Hpsl&Hpsm&_).
  pose proof (turn_solving _ _ _ _ _ _ _ Hturn Hs Hi Ha) as (Hs'&Hts'&Hfirst).
  apply turn_firstSolve in Hturn as Hfs.
  rewrite Hs, Hi, Ha in Hfs.
  pose proof Ht as [Hmap Hstore]%getTeam_Some.
  pose proof Hp as [_ Hproblem]%getProblem_Some.
  pose proof Hps as [Hkmap Hk]%getProblemStatistics_Some.
  rewrite (Hclean _ _ _ _ Hstore Hk Hs) in Hfirst.
  exists (commit r1 i team' k ps' j st'), problem, (Problem.mk (Problem.id problem) st'), i,
    (Team.set_problemStatistics (<[k := ps']> (Team.problemStatistics team')) team'), k, ps'.
  split_and!; try done.
  - rewrite replayStep_turn, Ht, Hp, Hps. simpl. by rewrite Hturn.
  - unfold commit. simpl. by rewrite list_lookup_alter_eq, Hproblem.
  - apply getTeam_Some. unfold commit. simpl. split; [done|].
    apply list_lookup_insert_eq. by eapply lookup_lt_Some.
  - apply getProblemStatistics_Some. simpl. rewrite Hpsm, Hpsl. split; [done|].
    apply list_lookup_insert_eq. by eapply lookup_lt_Some.
  - simpl. rewrite Hfs. repeat case_decide; naive_solver.
Qed.

(** C3.  Replay is in ascending timestamp order.  When the turn for a
    submission [s] reaches the accepted branch for the problem at position
    [j] (the submission is counted, not ignored, and the team has not yet
    solved the problem), [s] is appended to that problem's first-solve
    list, and the team's statistics object is marked first-solved, if and
    only if no solving timestamp seen for the problem so far lies below
    that of [s], that is, [s] is the earliest so far or ties it.  Hence,
    after [buildRank], every entry of a first-solve list carries the
    earliest solving timestamp of its problem among the replayed
    submissions. *)
Theorem first_solve_iff_earliest (r : Rank.t) :
  ConsistentComparator Submission.compare → TimestampOrdered → wellFormed r →
  let r0 := prepare r in
  (∀ pre s post r1 j,
     getSubmissions r0 = pre ++ s :: post → replay r0 pre = Some r1 →
     solvesAt r1 s = Some j →
     ∃ r2 p1 p2 i team k ps,
       replayStep r1 s = Some r2
       ∧ Contest.problems (Rank.contest r1) !! j = Some p1
       ∧ Contest.problems (Rank.contest r2) !! j = Some p2
       ∧ Rank.getTeam r2 (Submission.teamId s) = Some (i, team)
       ∧ Team.getProblemStatistics team (Submission.problemId s) = Some (k, ps)
       ∧ TeamProblemStatistics.isSolved ps = true
       ∧ TeamProblemStatistics.solvedTimestamp ps = Submission.timestamp s
       ∧ (firstSolves p2 = firstSolves p1 ++ [s] ∨ firstSolves p2 = firstSolves p1)
       ∧ (firstSolves p2 = firstSolves p1 ++ [s]
          ↔ Forall (λ t, Submission.timestamp s ≤ t) (solveTimes j r0 pre))
       ∧ (TeamProblemStatistics.isFirstSolved ps = true
          ↔ Forall (λ t, Submission.timestamp s ≤ t) (solveTimes j r0 pre)))
  ∧ (∀ r' j p x,
       buildRank r = Some r' →
       Contest.problems (Rank.contest r') !! j = Some p → x ∈ firstSolves p →
       Submission.timestamp x ∈ solveTimes j r0 (getSubmissions r0)
       ∧ Forall (λ t, Submission.timestamp x ≤ t) (solveTimes j r0 (getSubmissions r0))).
Proof.
  intros Hcmp Hts Hwf r0.
  assert (HL : StronglySorted Z.le (Submission.timestamp <$> getSubmissions r0)).
  { apply timestamps_sorted; [done|].
    rewrite (getSubmissions_sameFrame r r0) by apply prepare_sameFrame.
    by apply getSubmissions_Sorted. }
  assert (Hstart : ∀ j r1 pre p1,
            replay r0 pre = Some r1 →
            Contest.problems (Rank.contest r1) !! j = Some p1 →
            match head (solveTimes j r0 pre) with
            | None => firstSolves p1 = []
            | Some t0 => firstSolves p1 ≠ []
                         ∧ ∀ x, x ∈ firstSolves p1 → Submission.timestamp x = t0
            end).
  { intros j r1 pre p1 Hpre Hp1.
    pose proof (replay_sameFrame _ _ _ Hpre) as (_&_&_&_&_&_&_&_&_&Hlen&_).
    destruct (Contest.problems (Rank.contest r0) !! j) as [p0|] eqn:Hp0; cycle 1.
    { apply lookup_ge_None in Hp0. apply lookup_lt_Some in Hp1. lia. }
    eapply firstSolves_solveTimes; [exact Hp0| |exact Hpre|exact Hp1].
    apply (prepare_firstSolves r). by eapply list_elem_of_lookup_2. }
  split.
  - intros pre s post r1 j Hsplit Hpre Hsolve.
    assert (Hclean : cleanFlags r1).
    { eapply replay_cleanFlags; [done|]. by apply prepare_cleanFlags. }
    destruct (solving_turn r1 s j Hsolve Hclean)
      as (r2&p1&p2&i&team&k&ps&Hstep&Hp1&Hp2&Ht&Hps&Hs&Hst&Hfs&Hmark).
    exists r2, p1, p2, i, team, k, ps.
    rewrite Hsplit, fmap_app, fmap_cons in HL.
    apply StronglySorted_app in HL as (Hcross & Hpresorted & _).
    assert (Hiff : tiesLast (firstSolves p1) s
                   ↔ Forall (λ t, Submission.timestamp s ≤ t) (solveTimes j r0 pre)).
    { apply tiesLast_iff_earliest.
      - by eapply Hstart.
      - by apply solveTimes_sorted.
      - intros t (s' & Hs' & <-)%solveTimes_elem_of.
        apply Hcross; [by apply list_elem_of_fmap_2|left]. }
    split_and!; try done.
    + rewrite Hfs. case_decide; [by left|by right].
    + rewrite <- Hiff, Hfs. case_decide as Hd; [done|].
      split; [|done]. intros Heq. apply (f_equal length) in Heq.
      rewrite length_app in Heq. simpl in Heq. lia.
    + rewrite <- Hiff, Hmark. by case_decide.
  - intros r' j p x Hbuild Hp Hx. unfold buildRank in Hbuild. fold r0 in Hbuild.
    destruct (replay r0 (getSubmissions r0)) as [r1|] eqn:Hreplay; simpl in Hbuild;
      [|done].
    simplify_eq. rewrite finish_contest in Hp.
    pose proof (Hstart _ _ _ _ Hreplay Hp) as Hinv.
    pose proof (solveTimes_sorted j _ r0 HL) as Hsorted.
    destruct (solveTimes j r0 (getSubmissions r0)) as [|t0 T]; simpl in Hinv.
    { rewrite Hinv in Hx. by apply elem_of_nil in Hx. }
    destruct Hinv as [_ Hall]. rewrite (Hall x Hx). split; [left|].
    apply StronglySorted_inv in Hsorted as [_ Hle].
    constructor; [done|exact Hle].
Qed.
End first_solve_theorem.

(** ** Rank assignment *)

Section rank_walk.
Context `{!Team.Methods}.

Lemma set_rank_set_rank (v w : Z) (x : Team.t) :
  Team.set_rank v (Team.set_rank w x) = Team.set_rank v x.
Proof. done. Qed.

Lemma assignRank_spec (order : list nat) :
  ∀ (c : Z) (pre : option nat) (store : list Team.t),
    NoDup order → (∀ p, pre = Some p → p ∉ order) →
    (∀ i, i ∉ order → assignRank c pre order store !! i = store !! i)
    ∧ (∀ n i x, order !! n = Some i → store !! i = Some x →
         assignRank c pre order store !! i
         = Some (Team.set_rank
                   (walkRank (Z.of_nat n + c) x
                      (match n with O => pre | S m => order !! m end
                       ≫= (assignRank c pre order store !!.)))
                   x)).
Proof.
  induction order as [|a order IH]; intros c pre store Hnd Hpre.
  { split; [done|]. intros n i x Hn. by rewrite lookup_nil in Hn. }
  apply NoDup_cons in Hnd as [Ha Hnd]. cbn [assignRank].
  set (S1 := alter (Team.set_rank c) a store).
  set (S2 := match pre with
             | Some p =>
                 match S1 !! a, S1 !! p with
                 | Some x, Some pp =>
                     if Team.isEqualRank x pp
                     then alter (Team.set_rank (Team.rank pp)) a S1 else S1
                 | _, _ => S1
                 end
             | None => S1
             end).
  assert (F1 : ∀ i, i ≠ a → S2 !! i = store !! i).
  { intros i Hi. subst S2 S1.
    repeat case_match; rewrite ?list_lookup_alter_ne by done; done. }
  assert (F2 : ∀ x, store !! a = Some x →
                    S2 !! a = Some (Team.set_rank (walkRank c x (pre ≫= (store !!.))) x)).
  { intros x Hx. subst S2.
    assert (Ha1 : S1 !! a = Some (Team.set_rank c x)).
    { subst S1. by rewrite list_lookup_alter_eq, Hx. }
    destruct pre as [p|]; simpl; [|done].
    assert (p ≠ a) as Hpa. { intros ->. apply (Hpre a); [done|left]. }
    assert (Hp1 : S1 !! p = store !! p).
    { subst S1. by rewrite list_lookup_alter_ne. }
    rewrite Ha1, Hp1. destruct (store !! p) as [pp|]; simpl; [|done].
    destruct (Team.isEqualRank _ pp); [|done].
    by rewrite list_lookup_alter_eq, Ha1. }
  destruct (IH (c + 1) (Some a) S2 Hnd) as [IH1 IH2].
  { by intros p [= <-]. }
  assert (G1 : ∀ i, i ∉ a :: order →
                    assignRank (c + 1) (Some a) order S2 !! i = store !! i).
  { intros i Hi. apply not_elem_of_cons in Hi as [Hia Hi]. by rewrite IH1, F1. }
  split; [done|]. intros n i x Hn Hx. destruct n as [|n]; simpl in Hn.
  - simplify_eq. rewrite IH1, (F2 x Hx) by done. do 2 f_equal.
    rewrite Z.add_0_l. f_equal.
    destruct pre as [p|]; simpl; [|done]. symmetry. apply G1. by apply Hpre.
  - assert (i ≠ a) as Hia.
    { intros ->. apply Ha. by eapply list_elem_of_lookup_2. }
    rewrite (IH2 n i x) by (by rewrite ?F1).
    replace (Z.of_nat (S n) + c) with (Z.of_nat n + (c + 1)) by lia.
    by destruct n.
Qed.

(** A tied pair behind one strictly better team. *)
Lemma assignRank_tied_pair (store : list Team.t) (a b c : nat) (xa xb xc : Team.t) :
  NoDup [a; b; c] →
  store !! a = Some xa → store !! b = Some xb → store !! c = Some xc →
  Team.isEqualRank (Team.set_rank 2 xb) (Team.set_rank 1 xa) = false →
  Team.isEqualRank (Team.set_rank 3 xc) (Team.set_rank 2 xb) = true →
  let store' := assignRank 1 None [a; b; c] store in
  store' !! a = Some (Team.set_rank 1 xa)
  ∧ store' !! b = Some (Team.set_rank 2 xb)
  ∧ store' !! c = Some (Team.set_rank 2 xc).
Proof.
  intros Hnd Ha Hb Hc Hab Hbc store'.
  destruct (assignRank_spec [a; b; c] 1 None store Hnd) as [_ Hspec]; [done|].
  fold store' in Hspec.
  pose proof (Hspec 0%nat a xa eq_refl Ha) as Ha'. simpl in Ha'.
  change (Z.of_nat 0 + 1) with 1 in Ha'.
  pose proof (Hspec 1%nat b xb eq_refl Hb) as Hb'. simpl in Hb'.
  change (Z.of_nat 1 + 1) with 2 in Hb'.
  rewrite Ha' in Hb'. simpl in Hb'. rewrite Hab in Hb'.
  pose proof (Hspec 2%nat c xc eq_refl Hc) as Hc'. simpl in Hc'.
  change (Z.of_nat 2 + 1) with 3 in Hc'.
  rewrite Hb' in Hc'. simpl in Hc'. rewrite Hbc in Hc'.
  done.
Qed.
End rank_walk.

(** ** Sorting references *)

Section compare_refs.
Context `{!Team.Methods}.

Lemma compareRefs_total (store : list Team.t) (i j : nat) :
  ConsistentComparator Team.compare →
  ¬ compareRefs store i j ≤ 0 → compareRefs store j i ≤ 0.
Proof.
  intros Hcmp. unfold compareRefs.
  destruct (store !! i) as [a|], (store !! j) as [b|]; try lia.
  apply (cmp_le_total _ Hcmp).
Qed.

Lemma js_sort_compareRefs_idempotent (store : list Team.t) (order : list nat) :
  ConsistentComparator Team.compare →
  js_sort (compareRefs store) (js_sort (compareRefs store) order)
  = js_sort (compareRefs store) order.
Proof.
  intros Hcmp. apply js_sort_idempotent_on. intros i j _ _.
  by apply compareRefs_total.
Qed.
End compare_refs.

(** ** The id maps *)

Lemma js_map_of_fmap {A B : Type} (key : B → string) (f : A → B) (l : list A) :
  js_map_of key (f <$> l) = js_map_of (key ∘ f) l.
Proof.
  unfold js_map_of. rewrite length_fmap.
  generalize (∅ : gmap string nat). generalize 0%nat.
  induction l as [|x l IH]; intros n m; simpl; [done|]. apply IH.
Qed.

Lemma js_map_of_lookup_lt {A : Type} (key : A → string) (l : list A) (k : string) (i : nat) :
  js_map_of key l !! k = Some i → (i < length l)%nat.
Proof.
  unfold js_map_of.
  assert (Hgen : ∀ (n : nat) (m : gmap string nat),
            (∀ k i, m !! k = Some i → (i < n)%nat) →
            foldl (λ m ix, <[key ix.2 := ix.1]> m) m (zip (seq n (length l)) l) !! k
            = Some i → (i < n + length l)%nat).
  { induction l as [|x l IH]; intros n m Hm; simpl.
    - intros ?%Hm. lia.
    - intros Hi. apply IH in Hi; [lia|].
      intros k' i'. rewrite lookup_insert. case_decide.
      + intros [= <-]. lia.
      + intros ?%Hm. lia. }
  intros Hi. apply Hgen in Hi; [lia|]. intros k' i'. by rewrite lookup_empty.
Qed.

(** ** Rebuilding *)

Section replay_total.
Context `{!Submission.Methods, !Team.Methods}.

Lemma replayStep_withView (order : list nat) (rs : RankStatistics.t) (r : Rank.t)
    (s : Submission.t) :
  replayStep (withView order rs r) s = withView order rs <$> replayStep r s.
Proof.
  unfold replayStep.
  change (Rank.getTeam (withView order rs r)) with (Rank.getTeam r).
  change (Rank.contest (withView order rs r)) with (Rank.contest r).
  destruct (Rank.getTeam r _) as [[i team]|]; [|done].
  destruct (Contest.getProblem _ _) as [[j problem]|]; [|done].
  destruct (Team.getProblemStatistics _ _) as [[k ps]|]; [|done]. simpl.
  repeat case_match; done.
Qed.

Lemma replay_withView (order : list nat) (rs : RankStatistics.t) (subs : Submissions)
    (r : Rank.t) :
  replay (withView order rs r) subs = withView order rs <$> replay r subs.
Proof.
  revert r. induction subs as [|s subs IH]; intros r; simpl; [done|].
  rewrite replayStep_withView. destruct (replayStep r s) as [r1|]; simpl; [|done].
  apply IH.
Qed.

Lemma prepare_prepared (r : Rank.t) : wellFormed r → prepared (prepare r).
Proof.
  intros Hwf i x. rewrite (prepare_store r Hwf), list_lookup_fmap.
  destruct (Rank.store r !! i) as [x0|]; simpl; [|done]. intros [= <-].
  destruct Hwf as (_&Hmap&_).
  unfold prepare, prepareTeam, resetProblems. simpl. rewrite !length_fmap.
  split; [|done]. rewrite Hmap. unfold createProblemsMap.
  by rewrite js_map_of_fmap.
Qed.

Lemma replayStep_prepared (r r' : Rank.t) (s : Submission.t) :
  replayStep r s = Some r' → prepared r → prepared r'.
Proof.
  intros Hstep Hprep.
  pose proof (replayStep_sameFrame _ _ _ Hstep) as (_&_&_&_&_&_&Hmap&_&_&Hlen&_).
  apply replayStep_inv in Hstep
    as [->|(i&team&j&problem&k&ps&team'&ps'&st'&Ht&Hp&Hps&Hturn&->)]; [done|].
  intros i0 x0. rewrite Hmap, Hlen. unfold commit. simpl.
  apply getTeam_Some in Ht as [_ Ht].
  pose proof (turn_frame _ _ _ _ _ _ _ Hturn) as (_&_&_&_&_&_&Hpsl&Hpsm&_).
  destruct (decide (i = i0)) as [<-|Hne]; cycle 1.
  { rewrite list_lookup_insert_ne by done. apply Hprep. }
  rewrite list_lookup_insert_eq by (by eapply lookup_lt_Some).
  intros [= <-]. simpl. rewrite length_insert, Hpsl, Hpsm. by apply (Hprep i).
Qed.

Lemma replayStep_total (r : Rank.t) (s : Submission.t) :
  prepared r → is_Some (replayStep r s).
Proof.
  intros Hprep. rewrite replayStep_turn.
  destruct (Rank.getTeam _ _) as [[i team]|] eqn:Ht; [|done].
  destruct (Contest.getProblem _ _) as [[j problem]|] eqn:Hp; [|done].
  apply getTeam_Some in Ht as [_ Ht]. apply getProblem_Some in Hp as [Hj Hp].
  destruct (Hprep _ _ Ht) as [Hmap Hlen].
  unfold Team.getProblemStatistics. rewrite Hmap, Hj. simpl.
  destruct (Team.problemStatistics team !! j) as [ps|] eqn:Hps; cycle 1.
  { apply lookup_ge_None in Hps. apply lookup_lt_Some in Hp. lia. }
  simpl. by destruct (turn s _) as [[??]?].
Qed.

Lemma replay_total (subs : Submissions) (r : Rank.t) :
  prepared r → is_Some (replay r subs).
Proof.
  revert r. induction subs as [|s subs IH]; intros r Hprep; simpl; [done|].
  destruct (replayStep_total r s Hprep) as [r1 Hstep]. rewrite Hstep. simpl.
  apply IH. by eapply replayStep_prepared.
Qed.
End replay_total.

Section rebuild.
Context `{!Submission.Methods, !Team.Methods}.

Lemma sameFrame_wellFormed (r r' : Rank.t) : sameFrame r r' → wellFormed r → wellFormed r'.
Proof.
  intros (Hteams&_&Hsubs&_&_&Hreset&Hmap&_&_&_&Hlen) (Hperm&Hpm&Hsorted).
  unfold wellFormed. rewrite Hteams, Hlen, Hsubs, Hmap, Hpm. split_and!; try done.
  unfold createProblemsMap.
  assert (Hid : ∀ ps, js_map_of Problem.id ps
                      = js_map_of Problem.id
                          (Problem.set_statistics ProblemStatistics.reset <$> ps)).
  { intros ps. by rewrite js_map_of_fmap. }
  rewrite (Hid (Contest.problems (Rank.contest r))),
          (Hid (Contest.problems (Rank.contest r'))).
  unfold resetProblems in Hreset. by injection Hreset as _ _ _ ->.
Qed.

Section with_reset_laws.
Context `{!ResetLaws}.

Lemma turn_reset (s : Submission.t) (x x' : Team.t) (ps ps' : TeamProblemStatistics.t)
    (st st' : ProblemStatistics.t) :
  turn s (x, ps, st) = (x', ps', st') → Team.reset x' = Team.reset x.
Proof.
  unfold turn, onAccepted, Team.push. simpl.
  repeat (case_match; simpl in * ); intros; simplify_eq/=;
    by rewrite ?reset_set_lastSolvedProblemTimestamp, ?reset_set_submissions.
Qed.

Lemma replayStep_resets (r r' : Rank.t) (s : Submission.t) :
  replayStep r s = Some r' → Team.reset <$> Rank.store r' = Team.reset <$> Rank.store r.
Proof.
  intros [->|(i&team&j&problem&k&ps&team'&ps'&st'&Ht&Hp&Hps&Hturn&->)]%replayStep_inv;
    [done|].
  unfold commit. simpl. rewrite list_fmap_insert, reset_set_problemStatistics.
  rewrite (turn_reset _ _ _ _ _ _ _ Hturn).
  apply getTeam_Some in Ht as [_ Ht].
  apply list_insert_id. by rewrite list_lookup_fmap, Ht.
Qed.

Lemma replay_resets (subs : Submissions) (r r' : Rank.t) :
  replay r subs = Some r' → Team.reset <$> Rank.store r' = Team.reset <$> Rank.store r.
Proof.
  revert r. induction subs as [|s subs IH]; simpl; intros r.
  - by intros [= ->].
  - destruct (replayStep r s) as [r1|] eqn:Hstep; simpl; [|done].
    intros Hrest. by rewrite (IH _ Hrest), (replayStep_resets _ _ _ Hstep).
Qed.

Lemma forEachTeam_resets (f : Team.t → Team.t) (order : list nat) (store : list Team.t) :
  (∀ x, Team.reset (f x) = Team.reset x) →
  Team.reset <$> forEachTeam f order store = Team.reset <$> store.
Proof.
  intros Hf. unfold forEachTeam. revert store.
  induction order as [|a order IH]; intros store; simpl; [done|].
  rewrite IH. by apply list_fmap_alter_absorb.
Qed.

Lemma assignRank_resets (order : list nat) (c : Z) (pre : option nat)
    (store : list Team.t) :
  Team.reset <$> assignRank c pre order store = Team.reset <$> store.
Proof.
  revert c pre store. induction order as [|a order IH]; intros c pre store; simpl;
    [done|].
  rewrite IH.
  repeat case_match;
    rewrite ?(list_fmap_alter_absorb Team.reset) by apply reset_set_rank; done.
Qed.

Lemma assignOrganizationRank_resets (order : list nat) (c : Z) (pre : option nat)
    (se : gset string) (store : list Team.t) :
  Team.reset <$> assignOrganizationRank c pre se order store = Team.reset <$> store.
Proof.
  revert c pre se store.
  induction order as [|a order IH]; intros c pre se store; simpl; [done|].
  repeat case_match; rewrite ?IH;
    rewrite ?(list_fmap_alter_absorb Team.reset) by apply reset_set_organizationRank;
    done.
Qed.

Lemma finish_resets (r : Rank.t) :
  Team.reset <$> Rank.store (finish r) = Team.reset <$> Rank.store r.
Proof.
  unfold finish. simpl.
  destruct (truthy _); simpl;
    rewrite ?assignOrganizationRank_resets, assignRank_resets;
    apply forEachTeam_resets, reset_calcSolvedData.
Qed.

Lemma prepareTeam_reset (c c' : Contest.t) (x x' : Team.t) :
  resetProblems c' = resetProblems c → Contest.penalty c' = Contest.penalty c →
  Team.reset x' = Team.reset x → prepareTeam c' x' = prepareTeam c x.
Proof.
  intros Hc Hpen Hx. unfold prepareTeam. simpl. rewrite Hx, Hpen.
  assert (Hfresh : ∀ c0 : Contest.t,
            (λ p, TeamProblemStatistics.new p (Contest.penalty c)) <$> Contest.problems c0
            = (λ p, TeamProblemStatistics.new p (Contest.penalty c))
                <$> Contest.problems (resetProblems c0)).
  { intros c0. unfold resetProblems. simpl. by rewrite <- list_fmap_compose. }
  by rewrite (Hfresh c'), (Hfresh c), Hc.
Qed.
End with_reset_laws.
End rebuild.

Lemma Rank_eq (r1 r2 : Rank.t) :
  Rank.contest r1 = Rank.contest r2 → Rank.store r1 = Rank.store r2 →
  Rank.teams r1 = Rank.teams r2 → Rank.teamsMap r1 = Rank.teamsMap r2 →
  Rank.submissions r1 = Rank.submissions r2 →
  Rank.rankStatistics r1 = Rank.rankStatistics r2 →
  Rank.options r1 = Rank.options r2 → r1 = r2.
Proof. destruct r1, r2. simpl. congruence. Qed.

#[global] Arguments finish : simpl never.
#[global] Arguments prepare : simpl never.

Section idempotence.
Context `{!Submission.Methods, !Team.Methods}.

Lemma finish_withView (order : list nat) (rs : RankStatistics.t) (x : Rank.t) :
  Rank.teams x ≡ₚ seq 0 (length (Rank.store x)) → order ≡ₚ Rank.teams x →
  js_sort (compareRefs (Team.calcSolvedData <$> Rank.store x)) order
  = js_sort (compareRefs (Team.calcSolvedData <$> Rank.store x)) (Rank.teams x) →
  finish (withView order rs x) = finish x.
Proof.
  intros Hperm Horder Hsort. unfold finish, withView. simpl.
  rewrite !forEachTeam_all by (by rewrite ?Horder). rewrite Hsort.
  by destruct (truthy _).
Qed.

Lemma finish_wellFormed (x : Rank.t) `{!ResetLaws} : wellFormed x → wellFormed (finish x).
Proof.
  intros (Hperm&Hpm&Hsorted). unfold wellFormed.
  assert (Hlen : length (Rank.store (finish x)) = length (Rank.store x)).
  { by rewrite <- (length_fmap Team.reset), finish_resets, length_fmap. }
  rewrite Hlen, finish_contest. split_and!; try done.
  - unfold finish. destruct (truthy _); simpl; by rewrite js_sort_Permutation.
  - unfold finish. by destruct (truthy _).
Qed.

(** C1.  On an instance as the constructors leave it, [buildRank] runs to
    completion and yields the instance in its ranked state; run again on
    that state, with nothing changed in between, it yields exactly that
    state: the same team objects with the same ranks and submission lists,
    in the same order, the same problem statistics and the same
    histogram. *)
Theorem buildRank_idempotent (r : Rank.t) :
  ResetLaws → ConsistentComparator Team.compare → wellFormed r →
  ∃ r', buildRank r = Some r'
        ∧ buildRank r' = Some r'
        ∧ wellFormed r'
        ∧ Rank.submissions r' = Rank.submissions r
        ∧ Rank.options r' = Rank.options r
        ∧ Rank.teamsMap r' = Rank.teamsMap r.
Proof.
  intros Hreset Hcmp Hwf. unfold buildRank at 1.
  destruct (replay_total (getSubmissions (prepare r)) (prepare r)) as [x Hx];
    [by apply prepare_prepared|].
  rewrite Hx. simpl. exists (finish x).
  pose proof (prepare_sameFrame r) as Hframe0.
  pose proof (replay_sameFrame _ _ _ Hx) as Hframe1.
  pose proof (sameFrame_trans _ _ _ Hframe0 Hframe1) as Hframe.
  assert (Hwfx : wellFormed x) by (by eapply sameFrame_wellFormed).
  assert (Hwf' : wellFormed (finish x)) by (by apply finish_wellFormed).
  destruct Hframe as (Hteams&Hmap&Hsubs&_&Hopts&Hc&_&Hpen&_&_&_).
  assert (Hfin : Rank.submissions (finish x) = Rank.submissions x
                 ∧ Rank.options (finish x) = Rank.options x
                 ∧ Rank.teamsMap (finish x) = Rank.teamsMap x).
  { unfold finish. by destruct (truthy _). }
  destruct Hfin as (Hfs&Hfo&Hfm).
  split_and!; try done; try congruence.
  (* the second run *)
  assert (Hprep : prepare (finish x)
                  = withView (Rank.teams (finish x)) (Rank.rankStatistics (finish x))
                      (prepare r)).
  { assert (Hstore : Rank.store (prepare (finish x)) = Rank.store (prepare r)).
    { rewrite !prepare_store by done. rewrite finish_contest.
      assert (Hresets : Team.reset <$> Rank.store (finish x)
                        = Team.reset <$> Rank.store r).
      { rewrite finish_resets, (replay_resets _ _ _ Hx).
        rewrite prepare_store by done. rewrite <- list_fmap_compose.
        apply list_fmap_ext. intros _ t _. simpl. unfold prepareTeam.
        by rewrite reset_set_problemStatisticsMap, reset_set_problemStatistics,
          reset_reset. }
      apply list_eq. intros i. rewrite !list_lookup_fmap.
      apply (f_equal (.!! i)) in Hresets. rewrite !list_lookup_fmap in Hresets.
      destruct (Rank.store (finish x) !! i) as [a|], (Rank.store r !! i) as [b|];
        simpl in *; try done.
      injection Hresets as Hab. f_equal. by apply prepareTeam_reset. }
    apply Rank_eq; try done.
    - change (resetProblems (Rank.contest (finish x)) = resetProblems (Rank.contest r)).
      by rewrite finish_contest.
    - change (Rank.teamsMap (finish x) = Rank.teamsMap r). congruence.
    - change (Rank.submissions (finish x) = Rank.submissions r). congruence.
    - change (Rank.options (finish x) = Rank.options r). congruence. }
  unfold buildRank. rewrite Hprep.
  change (getSubmissions (withView _ _ (prepare r))) with (getSubmissions (prepare r)).
  rewrite replay_withView, Hx. simpl. f_equal.
  destruct Hwfx as (Hpermx&_).
  apply finish_withView; [done| |].
  - unfold finish. destruct (truthy _); simpl; by rewrite js_sort_Permutation.
  - assert (Hteamsf : Rank.teams (finish x)
                      = js_sort (compareRefs (Team.calcSolvedData <$> Rank.store x))
                                (Rank.teams x)).
    { unfold finish. destruct (truthy _); simpl; by rewrite forEachTeam_all. }
    change (js_sort (compareRefs (Team.calcSolvedData <$> Rank.store x))
                    (Rank.teams (finish x))
            = js_sort (compareRefs (Team.calcSolvedData <$> Rank.store x))
                      (Rank.teams x)).
    rewrite Hteamsf. by apply js_sort_compareRefs_idempotent.
Qed.
End idempotence.

(** ** Tied ranks *)

Lemma StronglySorted_lookup_lt {A : Type} (R : relation A) (l : list A) (m n : nat)
    (x y : A) :
  StronglySorted R l → l !! m = Some x → l !! n = Some y → (m < n)%nat → R x y.
Proof.
  intros Hs. revert m n. induction Hs as [|z l Hs IH Hall]; intros m n Hm Hn Hlt.
  { by rewrite lookup_nil in Hm. }
  destruct n as [|n]; [lia|]. simpl in Hn. destruct m as [|m]; simpl in Hm.
  - simplify_eq. rewrite Forall_forall in Hall. apply Hall.
    by eapply list_elem_of_lookup_2.
  - apply (IH m n); [done|done|lia].
Qed.

Section tied_ranks.
Context `{!Team.Methods}.

#[local] Instance refKeyLe_transitive (store : list Team.t) : Transitive (refKeyLe store).
Proof.
  intros i j k (a&b&Ha&Hb&Hab) (b'&c&Hb'&Hc&Hbc). simplify_eq.
  exists a, c. split_and!; [done..|]. unfold keyLe in *. lia.
Qed.

Lemma sorted_refKeyLe (store : list Team.t) (order : list nat) `{!RankingKeyLaws} :
  (∀ i, i ∈ order → is_Some (store !! i)) →
  Sorted (cmp_le (compareRefs store)) order → StronglySorted (refKeyLe store) order.
Proof.
  intros Hvalid Hs. apply Sorted_StronglySorted; [apply _|].
  induction Hs as [|i order Hs IH Hhd]; [constructor|].
  constructor.
  - apply IH. intros j Hj. apply Hvalid. by right.
  - destruct Hhd as [|j order Hij]; constructor.
    destruct (Hvalid i) as [a Ha]; [left|].
    destruct (Hvalid j) as [b Hb]; [right; left|].
    exists a, b. split_and!; [done..|]. apply compare_keyLe.
    unfold cmp_le, compareRefs in Hij. by rewrite Ha, Hb in Hij.
Qed.

(** Along a key-sorted sequence the walk gives teams of equal key one
    rank. *)
Lemma assignRank_tied (store : list Team.t) (order : list nat) `{!RankingKeyLaws}
    (d m : nat) (i j : nat) (a b : Team.t) :
  NoDup order → (∀ i, i ∈ order → is_Some (store !! i)) →
  StronglySorted (refKeyLe store) order →
  order !! m = Some i → order !! (m + d)%nat = Some j →
  store !! i = Some a → store !! j = Some b → sameKey a b →
  ∃ a' b', assignRank 1 None order store !! i = Some a'
           ∧ assignRank 1 None order store !! j = Some b'
           ∧ Team.rank a' = Team.rank b'.
Proof.
  intros Hnd Hvalid Hsorted Hi. destruct (assignRank_spec order 1 None store Hnd)
    as [_ Hspec]; [done|].
  revert j b. induction d as [|d IH]; intros j b Hj Ha Hb Hkey.
  { rewrite Nat.add_0_r in Hj. simplify_eq. 
    eexists _, _. split_and!; [by eapply Hspec..|done]. }
  replace (m + S d)%nat with (S (m + d)) in Hj by lia.
  destruct (order !! (m + d)%nat) as [p|] eqn:Hp; cycle 1.
  { apply lookup_ge_None in Hp. apply lookup_lt_Some in Hj. lia. }
  destruct (Hvalid p) as [xp Hxp]; [by eapply list_elem_of_lookup_2|].
  assert (Hpj : refKeyLe store p j).
  { eapply StronglySorted_lookup_lt; [done|exact Hp|exact Hj|lia]. }
  assert (Hip : keyLe a xp).
  { destruct d as [|d].
    - rewrite Nat.add_0_r in Hp. simplify_eq. right. split; [done|lia].
    - assert (refKeyLe store i p) as (a0&xp0&?&?&?); [|by simplify_eq].
      eapply StronglySorted_lookup_lt; [done|exact Hi|exact Hp|lia]. }
  destruct Hpj as (xp0&b0&?&?&Hpb). simplify_eq.
  assert (Hap : sameKey a xp).
  { unfold sameKey, keyLe in *. lia. }
  assert (Hpb' : sameKey b xp).
  { unfold sameKey, keyLe in *. lia. }
  destruct (IH p xp eq_refl Ha Hxp Hap) as (a'&xp'&Ha'&Hxp'&Hrank).
  pose proof (Hspec _ _ _ Hp Hxp) as Hxp''. rewrite Hxp' in Hxp''.
  injection Hxp'' as Hxp''.
  pose proof (Hspec _ _ _ Hj Hb) as Hb'. simpl in Hb'. rewrite Hp in Hb'.
  simpl in Hb'. rewrite Hxp' in Hb'. simpl in Hb'.
  rewrite (proj2 (isEqualRank_sameKey _ xp')) in Hb'.
  - eexists _, _. split_and!; [done..|]. simpl. done.
  - rewrite Hxp''. unfold sameKey in *. simpl. done.
Qed.
End tied_ranks.

Section rank_assignment.
Context `{!Submission.Methods, !Team.Methods}.

Lemma assignOrganizationRank_fmap {B : Type} (f : Team.t → B) (order : list nat) (c : Z)
    (pre : option nat) (se : gset string) (store : list Team.t) :
  (∀ v x, f (Team.set_organizationRank v x) = f x) →
  f <$> assignOrganizationRank c pre se order store = f <$> store.
Proof.
  intros Hf. revert c pre se store.
  induction order as [|a order IH]; intros c pre se store; simpl; [done|].
  repeat case_match; rewrite ?IH; rewrite ?(list_fmap_alter_absorb f) by apply Hf; done.
Qed.

Lemma assignRank_fmap {B : Type} (f : Team.t → B) (order : list nat) (c : Z)
    (pre : option nat) (store : list Team.t) :
  (∀ v x, f (Team.set_rank v x) = f x) →
  f <$> assignRank c pre order store = f <$> store.
Proof.
  intros Hf. revert c pre store.
  induction order as [|a order IH]; intros c pre store; simpl; [done|].
  rewrite IH. repeat case_match; rewrite ?(list_fmap_alter_absorb f) by apply Hf; done.
Qed.

(** The ranks [buildRank] leaves are those of the walk over the sorted
    sequence. *)
Lemma finish_ranks (x : Rank.t) :
  Rank.teams x ≡ₚ seq 0 (length (Rank.store x)) →
  (λ t, (Team.rank t, Team.solvedProblemNum t, Team.penalty t)) <$> Rank.store (finish x)
  = (λ t, (Team.rank t, Team.solvedProblemNum t, Team.penalty t))
      <$> assignRank 1 None (Rank.teams (finish x))
                     (Team.calcSolvedData <$> Rank.store x)
  ∧ Rank.teams (finish x)
    = js_sort (compareRefs (Team.calcSolvedData <$> Rank.store x)) (Rank.teams x).
Proof.
  intros Hperm. unfold finish. simpl. rewrite forEachTeam_all by done.
  destruct (truthy _); simpl; [|done]. split; [|done].
  by apply assignOrganizationRank_fmap.
Qed.

(** C4.  The rank walk over a sequence of distinct teams gives the team at
    position [n] (from 0) its sequential position [n + 1], unless it is of
    equal rank to its immediate predecessor, in which case it takes the
    predecessor's rank; so a tied pair behind one strictly better team gets
    rank 2.  [buildRank] leaves the ranks of this walk over the sorted
    teams; with equal rank being equality of the (solved count, penalty)
    key and the sort order putting better keys first, any two teams with
    identical keys share a rank. *)
Theorem rank_assignment_ties :
  (∀ (order : list nat) (store : list Team.t),
     NoDup order →
     let store' := assignRank 1 None order store in
     ∀ n i x, order !! n = Some i → store !! i = Some x →
       store' !! i
       = Some (Team.set_rank
                 (walkRank (Z.of_nat n + 1) x
                    (match n with O => None | S m => order !! m end ≫= (store' !!.)))
                 x))
  ∧ (∀ (store : list Team.t) (a b c : nat) (xa xb xc : Team.t),
       NoDup [a; b; c] →
       store !! a = Some xa → store !! b = Some xb → store !! c = Some xc →
       Team.isEqualRank (Team.set_rank 2 xb) (Team.set_rank 1 xa) = false →
       Team.isEqualRank (Team.set_rank 3 xc) (Team.set_rank 2 xb) = true →
       let store' := assignRank 1 None [a; b; c] store in
       Team.rank <$> store' !! a = Some 1
       ∧ Team.rank <$> store' !! b = Some 2
       ∧ Team.rank <$> store' !! c = Some 2)
  ∧ (∀ r x,
       wellFormed r → replay (prepare r) (getSubmissions (prepare r)) = Some x →
       buildRank r = Some (finish x)
       ∧ Team.rank <$> Rank.store (finish x)
         = Team.rank <$> assignRank 1 None (Rank.teams (finish x))
                           (Team.calcSolvedData <$> Rank.store x))
  ∧ (RankingKeyLaws → ConsistentComparator Team.compare →
     ∀ r r' i j a b,
       wellFormed r → buildRank r = Some r' →
       Rank.store r' !! i = Some a → Rank.store r' !! j = Some b →
       sameKey a b → Team.rank a = Team.rank b).
Proof.
  split_and!.
  - intros order store Hnd store' n i x Hn Hx.
    by destruct (assignRank_spec order 1 None store Hnd) as [_ Hspec]; [|apply Hspec].
  - intros store a b c xa xb xc Hnd Ha Hb Hc Hab Hbc store'.
    destruct (assignRank_tied_pair store a b c xa xb xc Hnd Ha Hb Hc Hab Hbc)
      as (Ha'&Hb'&Hc').
    subst store'. by rewrite Ha', Hb', Hc'.
  - intros r x Hwf Hx. unfold buildRank. rewrite Hx. split; [done|].
    assert (Hwfx : wellFormed x).
    { eapply sameFrame_wellFormed; [|done].
      eapply sameFrame_trans; [apply prepare_sameFrame|by eapply replay_sameFrame]. }
    destruct Hwfx as (Hperm&_). destruct (finish_ranks x Hperm) as [Hranks _].
    apply (f_equal (fmap (λ k : Z * nat * Z, k.1.1))) in Hranks.
    by rewrite <- !list_fmap_compose in Hranks.
  - intros Hkey Hcmp r r' i j a b Hwf Hbuild Ha Hb Hab. unfold buildRank in Hbuild.
    destruct (replay _ _) as [x|] eqn:Hx; simpl in Hbuild; [|done]. simplify_eq.
    assert (Hwfx : wellFormed x).
    { eapply sameFrame_wellFormed; [|done].
      eapply sameFrame_trans; [apply prepare_sameFrame|by eapply replay_sameFrame]. }
    destruct Hwfx as (Hperm&_). destruct (finish_ranks x Hperm) as [Hranks Hteams].
    set (S4 := Team.calcSolvedData <$> Rank.store x) in *.
    set (order := Rank.teams (finish x)) in *.
    assert (Horder : order ≡ₚ seq 0 (length S4)).
    { rewrite Hteams, js_sort_Permutation. subst S4. by rewrite length_fmap. }
    assert (Hnd : NoDup order) by (rewrite Horder; apply NoDup_seq).
    assert (Hvalid : ∀ k, k ∈ order → is_Some (S4 !! k)).
    { intros k. rewrite Horder, elem_of_seq. intros [_ Hk].
      apply lookup_lt_is_Some. lia. }
    assert (Hsorted : StronglySorted (refKeyLe S4) order).
    { apply sorted_refKeyLe; [done..|]. rewrite Hteams.
      apply js_sort_Sorted_on. intros ? ? _ _. by apply compareRefs_total. }
    (* the walk's view of the two teams *)
    assert (Hlen5 : length (assignRank 1 None order S4) = length S4).
    { rewrite <- (length_fmap Team.solvedProblemNum (assignRank _ _ _ _)).
      by rewrite assignRank_fmap, length_fmap. }
    assert (Hview : ∀ k t, Rank.store (finish x) !! k = Some t →
              ∃ t4 t5, S4 !! k = Some t4 ∧ assignRank 1 None order S4 !! k = Some t5
                       ∧ Team.rank t5 = Team.rank t ∧ sameKey t4 t ∧ k ∈ order).
    { intros k t Hk.
      pose proof (f_equal (.!! k) Hranks) as Hk5. rewrite !list_lookup_fmap, Hk in Hk5.
      destruct (assignRank 1 None order S4 !! k) as [t5|] eqn:Ht5; [|done].
      injection Hk5 as Hr Hs Hp.
      pose proof (f_equal (.!! k)
        (assignRank_fmap (λ t, (Team.solvedProblemNum t, Team.penalty t))
           order 1 None S4 (λ _ _, eq_refl))) as Hk4.
      rewrite !list_lookup_fmap, Ht5 in Hk4.
      destruct (S4 !! k) as [t4|] eqn:Ht4; [|done]. injection Hk4 as Hs4 Hp4.
      exists t4, t5. split_and!; try done.
      - split; congruence.
      - rewrite Horder, elem_of_seq. apply lookup_lt_Some in Ht4. lia. }
    destruct (Hview i a Ha) as (a4&a5&Ha4&Ha5&Hra&Hka&Hi).
    destruct (Hview j b Hb) as (b4&b5&Hb4&Hb5&Hrb&Hkb&Hj).
    assert (Hab4 : sameKey a4 b4).
    { unfold sameKey in *. destruct_and!. split; congruence. }
    apply list_elem_of_lookup_1 in Hi as [m Hm], Hj as [n Hn].
    rewrite <- Hra, <- Hrb.
    destruct (decide (m ≤ n)%nat) as [Hmn|Hmn].
    + destruct (assignRank_tied S4 order (n - m) m i j a4 b4) as (a'&b'&?&?&?);
        try done; [by replace (m + (n - m))%nat with n by lia|].
      by simplify_eq.
    + destruct (assignRank_tied S4 order (m - n) n j i b4 a4) as (b'&a'&?&?&?);
        try done; [by replace (n + (m - n))%nat with m by lia| |].
      * unfold sameKey in *. destruct_and!. split; congruence.
      * by simplify_eq.
Qed.
End rank_assignment.

(** ** The reference methods satisfy the laws *)

Section reference_laws.
Import Reference.

Lemma compareString_spec (a b : string) :
  (compareString a b = 0 ∧ a = b)
  ∨ (compareString a b = -1 ∧ OrdersEx.String_as_OT.lt a b)
  ∨ (compareString a b = 1 ∧ OrdersEx.String_as_OT.lt b a).
Proof.
  unfold compareString.
  destruct (OrdersEx.String_as_OT.compare_spec a b); auto.
Qed.

Lemma compareString_consistent : ConsistentComparator compareString.
Proof.
  pose proof OrdersEx.String_as_OT.lt_strorder as [Hirr Htr].
  split.
  - intros x. destruct (compareString_spec x x) as [[? _]|[[_ Hlt]|[_ Hlt]]];
      [done|by apply Hirr in Hlt..].
  - intros x y.
    destruct (compareString_spec x y) as [[Hxy Heq]|[[Hxy Hlt]|[Hxy Hlt]]],
             (compareString_spec y x) as [[Hyx Heq']|[[Hyx Hlt']|[Hyx Hlt']]];
      rewrite Hxy, Hyx; try lia; subst;
      exfalso; first [by eapply Hirr | eapply Hirr, Htr; eassumption].
  - intros x y z.
    destruct (compareString_spec x y) as [[Hxy Heq]|[[Hxy Hlt]|[Hxy Hlt]]],
             (compareString_spec y z) as [[Hyz Heq']|[[Hyz Hlt']|[Hyz Hlt']]],
             (compareString_spec x z) as [[Hxz Heq'']|[[Hxz Hlt'']|[Hxz Hlt'']]];
      rewrite Hxy, Hyz, Hxz; try lia; subst; intros _ _;
      exfalso; first [by eapply Hirr
                     | eapply Hirr, Htr; eassumption
                     | eapply Hirr, Htr; [|eapply Htr]; eassumption].
Qed.

Lemma compareSubmission_consistent : ConsistentComparator Submission.compare.
Proof.
  destruct compareString_consistent as [Hrefl Hanti Htrans].
  simpl. unfold compareSubmission. split.
  - intros x. by rewrite decide_True.
  - intros x y. repeat case_decide; try lia; try congruence. apply Hanti.
  - intros x y z. repeat case_decide; try lia; try congruence. apply Htrans.
Qed.

Lemma compareSubmission_timestamps : TimestampOrdered.
Proof.
  intros a b. simpl. unfold compareSubmission. case_decide; lia.
Qed.

Lemma compareTeam_consistent : ConsistentComparator Team.compare.
Proof.
  simpl. unfold compareTeam. split.
  - intros x. rewrite decide_True by done. lia.
  - intros x y. repeat case_decide; lia.
  - intros x y z. repeat case_decide; lia.
Qed.

#[export] Instance reference_resetLaws : ResetLaws.
Proof. by split. Qed.

#[export] Instance reference_rankingKeyLaws : RankingKeyLaws.
Proof.
  split.
  - intros a b. simpl. unfold isEqualRank. apply bool_decide_eq_true.
  - intros a b. simpl. unfold compareTeam, keyLe. case_decide; lia.
Qed.
End reference_laws.

Section constructor.
Context `{!Submission.Methods, !Team.Methods}.

(** The constructor, given a contest from [createContest], yields a
    well-formed instance. *)
Lemma newRank_wellFormed (contest : Contest.t) (teams : list Team.t)
    (submissions : Submissions) :
  ConsistentComparator Submission.compare →
  Contest.problemsMap contest = createProblemsMap (Contest.problems contest) →
  wellFormed (newRank contest teams submissions).
Proof.
  intros Hcmp Hmap. unfold wellFormed, newRank. simpl. split_and!; try done.
  by apply js_sort_Sorted.
Qed.

Lemma set_options_wellFormed (o : RankOptions.t) (r : Rank.t) :
  wellFormed r → wellFormed (Rank.set_options o r).
Proof. done. Qed.
End constructor.

(** ** The engine on the small contest *)

Section reference_run.
Import Reference.

Lemma rank1_wellFormed : wellFormed rank1.
Proof. apply newRank_wellFormed; [apply compareSubmission_consistent|done]. Qed.

(** Team [t3] solves both problems; [t1] (a rejection at 1000, accepted at
    3000) and [t2] (accepted at 4200) each solve one with penalty 4200 and
    share rank 2. *)
Example rank1_standings :
  (λ r, ((λ x, (Team.id x, Team.rank x, Team.solvedProblemNum x, Team.penalty x))
           <$> Rank.store r,
         Rank.teams r,
         RankStatistics.teamSolvedNum (Rank.rankStatistics r)))
    <$> buildRank rank1
  = Some ([("t1", 2, 1%nat, 4200); ("t2", 2, 1%nat, 4200); ("t3", 1, 2%nat, 5000)],
          [2; 0; 1]%nat,
          [RankStatistics.Num 0; RankStatistics.Num 2; RankStatistics.Num 1]).
Proof. by vm_compute. Qed.

(** Problem [A] is first solved at 2000, by [t3]; its last solve is that
    of [t2] at 4200. *)
Example rank1_first_solves :
  (λ r, (λ p, (Submission.id <$> firstSolves p,
               Submission.id
                 <$> ProblemStatistics.lastSolveSubmissions (Problem.statistics p)))
          <$> Contest.problems (Rank.contest r))
    <$> buildRank rank1
  = Some [(["s4"], ["s3"]); (["s5"], ["s5"])].
Proof. by vm_compute. Qed.

Lemma buildRank_idempotent_witness :
  ∃ r', buildRank rank1 = Some r'
        ∧ buildRank r' = Some r'
        ∧ wellFormed r'
        ∧ Rank.submissions r' = Rank.submissions rank1
        ∧ Rank.options r' = Rank.options rank1
        ∧ Rank.teamsMap r' = Rank.teamsMap rank1.
Proof.
  exact (buildRank_idempotent rank1 reference_resetLaws compareTeam_consistent
           rank1_wellFormed).
Defined.

Lemma getSubmissions_filter_correct_witness :
  getSubmissions halfway1
  ≡ₚ filter (λ s, Submission.timestamp s ≤ 9000) (Rank.submissions halfway1)
  ∧ Sorted (cmp_le Submission.compare) (getSubmissions halfway1).
Proof.
  destruct (getSubmissions_filter_correct halfway1 compareSubmission_consistent)
    as [Hon _].
  destruct (Hon eq_refl) as (Hperm & _ & Hsorted & _). by split.
Defined.

Lemma unknown_reference_skipped_witness :
  replayStep (prepare rank1) (sub "s6" "t9" "A" 2500 "ACCEPTED") = Some (prepare rank1).
Proof.
  apply unknown_reference_skipped. left. vm_compute. reflexivity.
Defined.

Lemma solved_problem_submission_only_recorded_witness :
  is_Some (replayStep replayed1 (sub "s9" "t3" "A" 6000 "ACCEPTED")).
Proof.
  assert (Hstate : ∃ i team j problem k ps,
            Rank.getTeam replayed1 "t3" = Some (i, team)
            ∧ Contest.getProblem (Rank.contest replayed1) "A" = Some (j, problem)
            ∧ Team.getProblemStatistics team "A" = Some (k, ps)
            ∧ TeamProblemStatistics.isSolved ps = true).
  { vm_compute. eexists _, _, _, _, _, _. split_and!; reflexivity. }
  destruct Hstate as (i & team & j & problem & k & ps & Ht & Hp & Hps & Hsolved).
  eexists.
  exact (solved_problem_submission_only_recorded replayed1
           (sub "s9" "t3" "A" 6000 "ACCEPTED") i team j problem k ps Ht Hp Hps Hsolved).
Defined.

Lemma first_solve_iff_earliest_witness :
  Forall (λ t, Submission.timestamp (sub "s4" "t3" "A" 2000 "ACCEPTED") ≤ t)
         (solveTimes 0 (prepare rank1) (getSubmissions (prepare rank1)))
  ∧ ∃ r1 r2 p1 p2,
      replay (prepare rank1) [sub "s1" "t1" "A" 1000 "REJECTED"] = Some r1
      ∧ replayStep r1 (sub "s4" "t3" "A" 2000 "ACCEPTED") = Some r2
      ∧ Contest.problems (Rank.contest r1) !! 0%nat = Some p1
      ∧ Contest.problems (Rank.contest r2) !! 0%nat = Some p2
      ∧ firstSolves p2 = firstSolves p1 ++ [sub "s4" "t3" "A" 2000 "ACCEPTED"].
Proof.
  destruct (first_solve_iff_earliest rank1 compareSubmission_consistent
              compareSubmission_timestamps rank1_wellFormed) as [Hturn Hfinal].
  split.
  - assert (Hrun : ∃ r' p,
              buildRank rank1 = Some r'
              ∧ Contest.problems (Rank.contest r') !! 0%nat = Some p
              ∧ sub "s4" "t3" "A" 2000 "ACCEPTED" ∈ firstSolves p).
    { vm_compute. eexists _, _. split_and!; [reflexivity|reflexivity|left]. }
    destruct Hrun as (r' & p & Hbuild & Hp & Hx).
    exact (proj2 (Hfinal r' 0%nat p _ Hbuild Hp Hx)).
  - assert (Hrun : ∃ r1 post,
              getSubmissions (prepare rank1)
              = [sub "s1" "t1" "A" 1000 "REJECTED"]
                ++ sub "s4" "t3" "A" 2000 "ACCEPTED" :: post
              ∧ replay (prepare rank1) [sub "s1" "t1" "A" 1000 "REJECTED"] = Some r1
              ∧ solvesAt r1 (sub "s4" "t3" "A" 2000 "ACCEPTED") = Some 0%nat
              ∧ solveTimes 0 (prepare rank1) [sub "s1" "t1" "A" 1000 "REJECTED"] = []).
    { vm_compute. eexists _, _. split_and!; reflexivity. }
    destruct Hrun as (r1 & post & Hsplit & Hpre & Hsolve & Hnone).
    destruct (Hturn _ _ _ r1 0%nat Hsplit Hpre Hsolve)
      as (r2 & p1 & p2 & _ & _ & _ & _ & Hstep & Hp1 & Hp2 & _ & _ & _ & _ & _ & Hiff & _).
    exists r1, r2, p1, p2. split_and!; try done.
    apply Hiff. rewrite Hnone. constructor.
Defined.

Lemma rank_assignment_ties_witness :
  ∃ r' a b, buildRank rank1 = Some r'
            ∧ Rank.store r' !! 0%nat = Some a ∧ Rank.store r' !! 1%nat = Some b
            ∧ Team.rank a = Team.rank b.
Proof.
  destruct rank_assignment_ties as (_ & _ & _ & Hties).
  assert (Hrun : ∃ r' a b,
            buildRank rank1 = Some r'
            ∧ Rank.store r' !! 0%nat = Some a ∧ Rank.store r' !! 1%nat = Some b
            ∧ sameKey a b).
  { vm_compute. eexists _, _, _. split_and!; reflexivity. }
  destruct Hrun as (r' & a & b & Hbuild & Ha & Hb & Hkey).
  exists r', a, b. split_and!; try done.
  exact (Hties reference_rankingKeyLaws compareTeam_consistent rank1 r' 0%nat 1%nat a b
           rank1_wellFormed Hbuild Ha Hb Hkey).
Defined.
End reference_run.
(** * Further properties *)

(** ** The clock of a contest *)

Section contest_clock.
Import ContestTimes.

(** [Math.round] of a quotient of integers, in integer arithmetic. *)
Lemma jsRound_div (a b : Z) :
  0 < b → jsRound (inject_Z a / inject_Z b) = (2 * a + b) `div` (2 * b).
Proof.
  intros Hb. destruct b as [|p|p]; [lia| |lia].
  unfold jsRound, Qfloor, Qdiv, Qmult, Qplus, Qinv, inject_Z. simpl.
  rewrite !Pos.mul_1_l.
  replace (Z.pos (p * 2)) with (2 * Z.pos p) by lia.
  f_equal. lia.
Qed.

Lemma diffSeconds_nonneg (a b : Z) : b ≤ a → 0 ≤ Dayjs.diffSeconds a b.
Proof. intros. unfold Dayjs.diffSeconds. apply Z.quot_pos; lia. Qed.

Lemma diffSeconds_mono (a a' b : Z) :
  b ≤ a → a ≤ a' → Dayjs.diffSeconds a b ≤ Dayjs.diffSeconds a' b.
Proof. intros. unfold Dayjs.diffSeconds. apply Z.quot_le_mono; lia. Qed.

Lemma progress_running (c : ContestTimes.t) (now : Z) :
  startTime c < now → now < endTime c →
  getContestProgressRatio c now
  = let total := Dayjs.diffSeconds (endTime c) (startTime c) in
    let pass := Dayjs.diffSeconds now (startTime c) in
    if decide (total = 0) then None
    else Some ((2 * (pass * 100) + total) `div` (2 * total)).
Proof.
  intros H1 H2. unfold getContestProgressRatio.
  rewrite !decide_False by lia. simpl. case_decide; [done|].
  rewrite jsRound_div; [done|].
  pose proof (diffSeconds_nonneg (endTime c) (startTime c)). lia.
Qed.

(** X1.  [getContestState] never steps back: for every configuration of the
    three instants, valid or not, a later clock reading gives the same or
    a later state in the order PENDING, RUNNING, FROZEN, FINISHED.  The
    state is FROZEN exactly from the freeze instant to the end and within
    the contest, so a contest whose freeze instant is not before its end
    is never FROZEN. *)
Theorem getContestState_monotone (c : ContestTimes.t) (t1 t2 : Z) :
  (t1 ≤ t2 →
   (ContestState.stage (getContestState c t1)
    ≤ ContestState.stage (getContestState c t2))%nat)
  ∧ (getContestState c t1 = ContestState.FROZEN
     ↔ startTime c ≤ t1 ∧ freezeTime c ≤ t1 ∧ t1 < endTime c)
  ∧ (endTime c ≤ freezeTime c → getContestState c t1 ≠ ContestState.FROZEN).
Proof.
  unfold getContestState. split_and!.
  - intros Ht. repeat case_decide; simpl; lia.
  - repeat case_decide; split; try done; lia.
  - intros He. repeat case_decide; try done; lia.
Qed.

(** [getContestProgressRatio] in integer arithmetic. *)
Lemma progress_cases (c : ContestTimes.t) (now : Z) :
  getContestProgressRatio c now
  = if decide (now ≤ startTime c) then Some 0
    else if decide (endTime c ≤ now) then Some 100
    else
      let total := (endTime c - startTime c) `div` 1000 in
      let pass := (now - startTime c) `div` 1000 in
      if decide (total = 0) then None
      else Some ((200 * pass + total) `div` (2 * total)).
Proof.
  destruct (decide (now ≤ startTime c)) as [H1|H1];
    [unfold getContestProgressRatio; by rewrite decide_True|].
  destruct (decide (endTime c ≤ now)) as [H2|H2];
    [unfold getContestProgressRatio; by rewrite decide_False, decide_True|].
  rewrite progress_running by lia. unfold Dayjs.diffSeconds. simpl.
  rewrite !Z.quot_div_nonneg by lia.
  case_decide; [done|]. do 2 f_equal. lia.
Qed.

(** X2.  [getContestProgressRatio] is 0 up to the start and 100 from the
    end on; strictly in between it is the whole seconds passed, as a
    percentage of the whole seconds of the contest, rounded to the nearest
    integer with halves upward, and [NaN] when the contest has no whole
    second.  So it is [NaN] exactly when the clock is strictly inside a
    contest whose start and end are less than one second apart; whenever
    it is a number it lies between 0 and 100, and a later reading is not
    smaller. *)
Theorem getContestProgressRatio_range (c : ContestTimes.t) (t1 t2 : Z) :
  (t1 ≤ startTime c → getContestProgressRatio c t1 = Some 0)
  ∧ (startTime c < t1 → endTime c ≤ t1 → getContestProgressRatio c t1 = Some 100)
  ∧ (startTime c < t1 < endTime c →
     let total := (endTime c - startTime c) `div` 1000 in
     let pass := (t1 - startTime c) `div` 1000 in
     match getContestProgressRatio c t1 with
     | Some p => 0 < total ∧ 2 * total * p ≤ 200 * pass + total < 2 * total * (p + 1)
     | None => total = 0
     end)
  ∧ (getContestProgressRatio c t1 = None
     ↔ startTime c < t1 < endTime c ∧ endTime c - startTime c < 1000)
  ∧ match getContestProgressRatio c t1 with
    | Some p => 0 ≤ p ≤ 100
    | None => startTime c < t1 < endTime c ∧ endTime c - startTime c < 1000
    end
  ∧ (startTime c < t1 < endTime c → 1000 ≤ endTime c - startTime c →
     is_Some (getContestProgressRatio c t1))
  ∧ (∀ p1 p2, t1 ≤ t2 →
       getContestProgressRatio c t1 = Some p1 →
       getContestProgressRatio c t2 = Some p2 → p1 ≤ p2).
Proof.
  set (total := (endTime c - startTime c) `div` 1000).
  assert (Hpass : ∀ t, startTime c < t → t < endTime c →
            0 ≤ (t - startTime c) `div` 1000 ≤ total
            ∧ 0 ≤ total
            ∧ (total = 0 ↔ endTime c - startTime c < 1000)).
  { intros t H1 H2. subst total. split_and!.
    - apply Z.div_pos; lia.
    - apply Z.div_le_mono; lia.
    - apply Z.div_pos; lia.
    - rewrite Z.div_small_iff by lia. lia. }
  assert (Hround : ∀ pass, 0 ≤ pass ≤ total → total ≠ 0 →
            0 ≤ (200 * pass + total) `div` (2 * total) ≤ 100).
  { intros pass Hp Ht. split.
    - apply Z.div_pos; lia.
    - apply Z.lt_succ_r, Z.div_lt_upper_bound; lia. }
  assert (Hspec : ∀ pass, 0 < total →
            2 * total * ((200 * pass + total) `div` (2 * total)) ≤ 200 * pass + total
            ∧ 200 * pass + total
              < 2 * total * ((200 * pass + total) `div` (2 * total) + 1)).
  { intros pass Ht.
    pose proof (Z.mul_div_le (200 * pass + total) (2 * total)).
    pose proof (Z.mul_succ_div_gt (200 * pass + total) (2 * total)).
    lia. }
  rewrite !progress_cases. fold total. split_and!.
  - intros H1. by rewrite decide_True.
  - intros H1 H2. by rewrite decide_False, decide_True by lia.
  - intros [H1 H2]. rewrite !decide_False by lia. simpl.
    destruct (Hpass t1) as (Hp & Ht & Hz); [lia..|].
    case_decide as H0; [done|]. split; [lia|]. apply Hspec. lia.
  - destruct (decide (t1 ≤ startTime c)) as [H1|H1]; [split; [done|lia]|].
    destruct (decide (endTime c ≤ t1)) as [H2|H2]; [split; [done|lia]|].
    simpl. destruct (Hpass t1) as (Hp & Ht & Hz); [lia..|].
    destruct (decide (total = 0)) as [H0|H0].
    + split; [intros _|done]. split; [lia|by apply Hz].
    + split; [done|]. intros [_ Hd]. by apply Hz in Hd.
  - destruct (decide (t1 ≤ startTime c)) as [H1|H1]; [lia|].
    destruct (decide (endTime c ≤ t1)) as [H2|H2]; [lia|].
    simpl. destruct (Hpass t1) as (Hp & Ht & Hz); [lia..|].
    destruct (decide (total = 0)) as [H0|H0].
    + split; [lia|by apply Hz].
    + by apply Hround.
  - intros [H1 H2] Hd. rewrite !decide_False by lia. simpl.
    destruct (Hpass t1) as (Hp & Ht & Hz); [lia..|].
    by rewrite decide_False by lia.
  - intros p1 p2 Hle.
    assert (Hany : ∀ t p,
              (if decide (t ≤ startTime c) then Some 0
               else if decide (endTime c ≤ t) then Some 100
               else if decide (total = 0) then None
               else Some ((200 * ((t - startTime c) `div` 1000) + total)
                          `div` (2 * total))) = Some p →
              0 ≤ p ≤ 100).
    { intros t p. destruct (decide (t ≤ startTime c)); [intros [= <-]; lia|].
      destruct (decide (endTime c ≤ t)); [intros [= <-]; lia|].
      destruct (Hpass t) as (Hp & Ht & Hz); [lia..|].
      destruct (decide (total = 0)); [done|]. intros [= <-]. by apply Hround. }
    simpl. intros Hp1 Hp2.
    pose proof (Hany _ _ Hp1) as Hb1. pose proof (Hany _ _ Hp2) as Hb2.
    destruct (decide (t1 ≤ startTime c)) as [H1|H1]; [injection Hp1 as <-; lia|].
    destruct (decide (endTime c ≤ t1)) as [H2|H2].
    { rewrite decide_False, decide_True in Hp2 by lia. injection Hp2 as <-. lia. }
    rewrite decide_False in Hp2 by lia.
    destruct (decide (endTime c ≤ t2)) as [H4|H4]; [injection Hp2 as <-; lia|].
    destruct (decide (total = 0)) as [H0|H0]; [done|].
    injection Hp1 as <-. injection Hp2 as <-.
    destruct (Hpass t1) as (_ & Ht & _); [lia..|].
    apply Z.div_le_mono; [lia|].
    assert ((t1 - startTime c) `div` 1000 ≤ (t2 - startTime c) `div` 1000)
      by (apply Z.div_le_mono; lia).
    lia.
Qed.

(** X3.  The seconds behind the three clock strings.  None is negative on a
    contest that does not end before it starts; pending time is zero from
    the start on, elapsed time is zero up to the start and the whole
    duration from the end on, remaining time the reverse; and elapsed plus
    remaining seconds make the duration or, each being rounded down on
    its own, one second less. *)
Theorem clock_seconds (c : ContestTimes.t) (now : Z) :
  startTime c ≤ endTime c →
  let d := Dayjs.floorSeconds (endTime c) (startTime c) in
  0 ≤ pendingSeconds c now
  ∧ 0 ≤ elapsedSeconds c now ≤ d
  ∧ 0 ≤ remainingSeconds c now ≤ d
  ∧ d - 1 ≤ elapsedSeconds c now + remainingSeconds c now ≤ d
  ∧ (startTime c ≤ now → pendingSeconds c now = 0)
  ∧ (now ≤ startTime c → elapsedSeconds c now = 0 ∧ remainingSeconds c now = d)
  ∧ (endTime c ≤ now → elapsedSeconds c now = d ∧ remainingSeconds c now = 0)
  ∧ (∀ later, now ≤ later →
       pendingSeconds c later ≤ pendingSeconds c now
       ∧ elapsedSeconds c now ≤ elapsedSeconds c later
       ∧ remainingSeconds c later ≤ remainingSeconds c now).
Proof.
  intros Hse d. subst d.
  unfold pendingSeconds, elapsedSeconds, remainingSeconds, Dayjs.floorSeconds.
  split_and!; try (intros later Hl); intros; simpl;
    repeat case_decide; Z.div_mod_to_equations; lia.
Qed.
End contest_clock.

(** ** What [createContest] builds *)

Section create_contest.
Context `{!ContestJSON.Utils}.

(** X4.  The freeze settings of [createContest].  An explicit
    [freeze_time] overrides [frozen_time] altogether; with [frozen_time]
    alone the frozen duration is that number, whatever [createDayJS] makes
    of the freeze instant; with neither the freeze instant is the end, the
    frozen duration 0, and the contest is never FROZEN.  In every case the
    frozen and unfrozen durations add up to the total. *)
Theorem createContestTimes_freeze (j : ContestJSON.t) :
  let c := createContestTimes j in
  ContestTimes.freezeDurationTimestamp c + ContestTimes.unFreezeDurationTimestamp c
  = ContestTimes.totalDurationTimestamp c
  ∧ (∀ t, ContestJSON.freeze_time j = Some t →
       ContestTimes.freezeTime c = ContestJSON.createDayJS t
       ∧ ContestTimes.freezeDurationTimestamp c
         = Dayjs.unix (ContestTimes.endTime c) - Dayjs.unix (ContestTimes.freezeTime c)
       ∧ ∀ n, createContestTimes
                (ContestJSON.mk (ContestJSON.start_time j) (ContestJSON.end_time j) n
                   (ContestJSON.freeze_time j) (ContestJSON.medal j) (ContestJSON.group j))
              = c)
  ∧ (∀ n, ContestJSON.freeze_time j = None → ContestJSON.frozen_time j = Some n →
       ContestTimes.freezeDurationTimestamp c = n
       ∧ ContestTimes.freezeTime c
         = ContestJSON.createDayJS
             (ContestJSON.Number (Dayjs.unix (ContestTimes.endTime c) - n)))
  ∧ (ContestJSON.freeze_time j = None → ContestJSON.frozen_time j = None →
       ContestTimes.freezeTime c = ContestTimes.endTime c
       ∧ ContestTimes.freezeDurationTimestamp c = 0
       ∧ ContestTimes.unFreezeDurationTimestamp c = ContestTimes.totalDurationTimestamp c
       ∧ ∀ now, ContestTimes.getContestState c now ≠ ContestState.FROZEN).
Proof.
  destruct j as [st en fz fr md gr]. unfold createContestTimes. simpl.
  split_and!.
  - lia.
  - intros t ->. simpl. split_and!; [done..|]. intros n. by destruct n, fz.
  - intros n -> ->. done.
  - intros -> ->. simpl. split_and!; [done|done|lia|].
    intros now. unfold ContestTimes.getContestState. simpl.
    repeat case_decide; try done; lia.
Qed.
End create_contest.

Section groups_facts.
Context `{!Group.Constructor}.

(** The group a turn of the loop stores, and where. *)
Lemma addGroup_insert (m : gmap string Group.t) (k v : string) :
  ∃ g, addGroup m (k, v) = <[groupKey k := g]> m
       ∧ Group.isDefault g = Group.isDefault Group.new
       ∧ Group.names g !! "zh-CN" = Some v.
Proof.
  unfold addGroup, groupKey. simpl.
  destruct (decide (k = "girl" ∨ k = "girls")) as [Hg|Hg].
  - eexists. split; [done|]. split; [by repeat case_decide|].
    repeat case_decide; by simplify_map_eq.
  - eexists. split; [done|]. split; [by repeat case_decide|].
    repeat case_decide; by simplify_map_eq.
Qed.

Lemma groupKey_not_girls (k : string) : groupKey k ≠ "girls".
Proof. unfold groupKey. case_decide; [done|naive_solver]. Qed.

Lemma createGroups_snoc (l : list (string * string)) (k v : string) :
  createGroups (Some (l ++ [(k, v)])) = addGroup (createGroups (Some l)) (k, v).
Proof. unfold createGroups. simpl. by rewrite foldl_snoc. Qed.

(** X5.  The groups of [createContest].  The keys are "all" and the declared
    keys with "girls" turned into "girl", so "all" is always a key and
    "girls" never is; a declared key holds the label of its last
    declaration under "zh-CN".  As long as a new [Group] is not a default
    one, the group under "all" is the default group unless the record
    declares a group "all" itself: then that declaration replaces the
    synthesized group and no group is marked default. *)
Theorem createGroups_keys (group : option (list (string * string))) (key : string) :
  let declared := default [] group in
  (is_Some (createGroups group !! key)
   ↔ key = "all" ∨ key ∈ ((λ kv, groupKey kv.1) <$> declared))
  ∧ createGroups group !! "girls" = None
  ∧ (key ∈ ((λ kv, groupKey kv.1) <$> declared) →
     ∃ g pre k v post,
       createGroups group !! key = Some g
       ∧ declared = pre ++ (k, v) :: post
       ∧ groupKey k = key
       ∧ (key ∉ (λ kv, groupKey kv.1) <$> post)
       ∧ Group.names g !! "zh-CN" = Some v
       ∧ Group.isDefault g = Group.isDefault Group.new)
  ∧ ("all" ∉ declared.*1 →
     createGroups group !! "all" = Some allGroup ∧ Group.isDefault allGroup = true)
  ∧ (Group.isDefault Group.new = false →
     ∀ g, createGroups group !! key = Some g →
          (Group.isDefault g = true ↔ key = "all" ∧ "all" ∉ declared.*1)).
Proof.
  intros declared.
  assert (Heq : createGroups group = createGroups (Some declared)) by by destruct group.
  rewrite Heq. clear Heq. generalize declared. clear declared group. intros l.
  assert (Hall : ∀ l : list (string * string),
            "all" ∈ l.*1 ↔ "all" ∈ ((λ kv, groupKey kv.1) <$> l)).
  { intros l'. rewrite !list_elem_of_fmap. split.
    - intros ([k v] & Hk & Hin). simpl in Hk. subst k. exists ("all", v). done.
    - intros ([k v] & Hk & Hin). simpl in Hk. exists (k, v). split; [|done].
      simpl. unfold groupKey in Hk. by case_decide. }
  assert (Hlast : ∀ l : list (string * string),
            key ∈ ((λ kv, groupKey kv.1) <$> l) →
            ∃ g pre k v post,
              createGroups (Some l) !! key = Some g
              ∧ l = pre ++ (k, v) :: post
              ∧ groupKey k = key
              ∧ (key ∉ (λ kv, groupKey kv.1) <$> post)
              ∧ Group.names g !! "zh-CN" = Some v
              ∧ Group.isDefault g = Group.isDefault Group.new).
  { clear l. induction l as [|[k v] l IH] using rev_ind; [by intros ?%elem_of_nil|].
    rewrite createGroups_snoc, fmap_app, elem_of_app. simpl.
    destruct (addGroup_insert (createGroups (Some l)) k v) as (g & -> & Hd & Hn).
    destruct (decide (groupKey k = key)) as [Hk|Hk].
    - intros _. exists g, l, k, v, []. rewrite Hk, lookup_insert_eq.
      split_and!; try done. simpl. apply not_elem_of_nil.
    - intros [Hin|Hin%list_elem_of_singleton]; [|done].
      destruct (IH Hin) as (g' & pre & k' & v' & post & Hg' & -> & Hk' & Hpost & Hn' & Hd').
      exists g', pre, k', v', (post ++ [(k, v)]).
      rewrite lookup_insert_ne by done. split_and!; try done.
      + by rewrite <-app_assoc.
      + rewrite fmap_app, elem_of_app. simpl. rewrite list_elem_of_singleton. naive_solver. }
  assert (Hdom : ∀ l : list (string * string),
            is_Some (createGroups (Some l) !! key)
            ↔ key = "all" ∨ key ∈ ((λ kv, groupKey kv.1) <$> l)).
  { clear l. induction l as [|[k v] l IH] using rev_ind.
    - unfold createGroups. simpl. rewrite elem_of_nil.
      destruct (decide (key = "all")) as [->|Hne].
      + rewrite lookup_insert_eq. naive_solver.
      + rewrite lookup_insert_ne, lookup_empty by done.
        split; [by intros [? ?]|naive_solver].
    - rewrite createGroups_snoc, fmap_app, elem_of_app. simpl.
      destruct (addGroup_insert (createGroups (Some l)) k v) as (g & -> & Hd & Hn).
      rewrite list_elem_of_singleton.
      destruct (decide (groupKey k = key)) as [Hk|Hk].
      + rewrite Hk, lookup_insert_eq. naive_solver.
      + rewrite lookup_insert_ne by done. rewrite IH. naive_solver. }
  assert (Hdefault : ∀ l : list (string * string),
            "all" ∉ l.*1 → createGroups (Some l) !! "all" = Some allGroup).
  { clear l. induction l as [|[k v] l IH] using rev_ind.
    - intros _. unfold createGroups. simpl. by rewrite lookup_insert_eq.
    - rewrite createGroups_snoc, fmap_app, elem_of_app. simpl.
      rewrite list_elem_of_singleton. intros Hn.
      destruct (addGroup_insert (createGroups (Some l)) k v) as (g & -> & _).
      rewrite lookup_insert_ne; [apply IH; naive_solver|].
      unfold groupKey. case_decide; naive_solver. }
  split_and!.
  - apply Hdom.
  - destruct (createGroups (Some l) !! "girls") as [g|] eqn:Hg; [|done].
    assert (Hs : is_Some (createGroups (Some l) !! "girls")) by done.
    clear Hlast Hdefault.
    assert (Hdom' : ∀ l : list (string * string),
              is_Some (createGroups (Some l) !! "girls") → False).
    { clear. induction l as [|[k v] l IH] using rev_ind.
      - unfold createGroups. simpl. rewrite lookup_insert_ne, lookup_empty by done.
        by intros [? ?].
      - rewrite createGroups_snoc.
        destruct (addGroup_insert (createGroups (Some l)) k v) as (g & -> & _).
        rewrite lookup_insert_ne; [done|]. apply groupKey_not_girls. }
    by apply Hdom' in Hs.
  - apply Hlast.
  - intros Hn. split; [by apply Hdefault|done].
  - intros Hnew g Hg.
    destruct (decide (key ∈ ((λ kv, groupKey kv.1) <$> l))) as [Hin|Hin].
    + destruct (Hlast l Hin) as (g' & pre & k' & v' & post & Hg' & _ & Hk' & _ & _ & Hd').
      rewrite Hg in Hg'. injection Hg' as <-. rewrite Hd', Hnew. split; [done|].
      intros [-> Hn]. by apply Hall in Hin.
    + assert (Hk : key = "all").
      { destruct (proj1 (Hdom l)) as [?|?]; done. }
      subst key. apply (not_iff_compat (Hall l)) in Hin.
      rewrite Hdefault in Hg by done. injection Hg as <-. done.
Qed.
End groups_facts.

(** ** Awards *)

(** X6.  [isEnableAwards] on a contest whose awards [createContest] built
    from a medal configuration: true exactly for the groups of that
    configuration, false for every group when there is none; and an
    enabled group always has a non-empty award list that ends with the
    honorable tier up to the sentinel rank. *)
Theorem isEnableAwards_createAwards (c : Contest.t)
    (medal : option (gmap string (gmap string Z))) (group : string) :
  Contest.awards c = createAwards medal →
  (isEnableAwards c group = true
   ↔ ∃ groups v, medal = Some groups ∧ groups !! group = Some v)
  ∧ (medal = None → isEnableAwards c group = false)
  ∧ (isEnableAwards c group = true →
     ∃ awards l a,
       Contest.awards c = Some awards ∧ awards !! group = Some l
       ∧ last l = Some a
       ∧ Award.medalType a = Award.HONORABLE ∧ Award.maxRank a = MAX_RANK).
Proof.
  intros Ha. unfold isEnableAwards. rewrite Ha. unfold createAwards.
  destruct medal as [groups|]; simpl; [|split_and!; [|done..]; split; [done|]].
  - rewrite lookup_fmap. destruct (groups !! group) as [v|] eqn:Hv; simpl.
    + split_and!; [naive_solver|done|].
      intros _. eexists _, _, _. split; [done|].
      rewrite lookup_fmap, Hv. simpl. split; [done|].
      unfold createAwardList. rewrite last_snoc. done.
    + split_and!; [|done..].
      split; [done|]. intros (? & ? & [= <-] & ?). congruence.
  - by intros (? & ? & ? & _).
Qed.

#[local] Ltac award_at n :=
  exists n; eexists; split; [reflexivity|]; simpl; split; [lia|];
  let i' := fresh "i" in
  let Hl := fresh "Hl" in
  let Hin := fresh "Hin" in
  intros i' ? Hl Hin;
  repeat (destruct i' as [|i'];
          [injection Hl as <-; simpl in Hin; first [reflexivity | lia]|]);
  done.

(** X7.  The award ranges of a group partition the ranks: when no tier size
    is negative, every rank from 1 to the sentinel lies in the range of
    exactly one entry of the list [createContest] builds. *)
Theorem createAwardList_partition (v : gmap string Z) (rank : Z) :
  (∀ key n, v !! key = Some n → 0 ≤ n) →
  1 ≤ rank ≤ MAX_RANK →
  ∃ i a, createAwardList v !! i = Some a
         ∧ Award.minRank a ≤ rank ≤ Award.maxRank a
         ∧ ∀ i' a', createAwardList v !! i' = Some a' →
                    Award.minRank a' ≤ rank ≤ Award.maxRank a' → i' = i.
Proof.
  intros Hv Hr. unfold createAwardList, work.
  pose proof (Hv "gold") as Hg. pose proof (Hv "silver") as Hs.
  pose proof (Hv "bronze") as Hb.
  destruct (v !! "gold") as [g|]; [specialize (Hg g eq_refl)|clear Hg];
    (destruct (v !! "silver") as [s|]; [specialize (Hs s eq_refl)|clear Hs]);
    (destruct (v !! "bronze") as [b|]; [specialize (Hb b eq_refl)|clear Hb]);
    simpl.
  all: repeat match goal with
       | _ : 1 ≤ ?r ≤ MAX_RANK |- context [Award.mk _ _ ?m] =>
           lazymatch m with
           | MAX_RANK => fail
           | _ =>
               lazymatch goal with
               | _ : r ≤ m |- _ => fail
               | _ : ¬ r ≤ m |- _ => fail
               | _ => destruct (decide (r ≤ m))
               end
           end
       end.
  all: first [award_at 0%nat | award_at 1%nat | award_at 2%nat | award_at 3%nat].
Qed.

(** ** The id maps *)

Lemma js_map_of_snoc {A : Type} (key : A → string) (l : list A) (x : A) :
  js_map_of key (l ++ [x]) = <[key x := length l]> (js_map_of key l).
Proof.
  unfold js_map_of. rewrite length_app. simpl.
  rewrite seq_app. simpl.
  rewrite zip_with_app by by rewrite length_seq.
  simpl. by rewrite foldl_snoc.
Qed.

(** A lookup in [new Map(list.map(x => [key(x), x]))] finds the last
    object of the list with that key, and nothing only when there is none. *)
Lemma js_map_of_last (A : Type) (key : A → string) (l : list A) (k : string) :
  match js_map_of key l !! k with
  | Some i => ∃ x, l !! i = Some x ∧ key x = k
                   ∧ ∀ i' x', l !! i' = Some x' → key x' = k → (i' ≤ i)%nat
  | None => ∀ x, x ∈ l → key x ≠ k
  end.
Proof.
  induction l as [|x l IH] using rev_ind.
  - unfold js_map_of. simpl. rewrite lookup_empty. by intros x ?%elem_of_nil.
  - rewrite js_map_of_snoc. destruct (decide (key x = k)) as [Hk|Hk].
    + rewrite Hk, lookup_insert_eq. exists x. split_and!; [|done|].
      * by rewrite lookup_app_r, Nat.sub_diag.
      * intros i' x' Hi' _. apply lookup_lt_Some in Hi'.
        rewrite length_app in Hi'. simpl in Hi'. lia.
    + rewrite lookup_insert_ne by done.
      destruct (js_map_of key l !! k) as [i|].
      * destruct IH as (y & Hy & Hky & Hlast). exists y. split_and!; [|done|].
        -- by apply lookup_app_l_Some.
        -- intros i' x' Hi' Hkx'. apply lookup_app_Some in Hi' as [Hi'|[_ Hi']].
           ++ by eapply Hlast.
           ++ apply list_lookup_singleton_Some in Hi' as [_ ->]. done.
      * intros y [Hy|Hy%list_elem_of_singleton]%elem_of_app; [by apply IH|by subst].
Qed.

Lemma js_map_of_NoDup (A : Type) (key : A → string) (l : list A) (i : nat) (x : A) :
  NoDup (key <$> l) → l !! i = Some x → js_map_of key l !! key x = Some i.
Proof.
  intros Hnd Hi. pose proof (js_map_of_last A key l (key x)) as Hl.
  destruct (js_map_of key l !! key x) as [i'|].
  - destruct Hl as (y & Hy & Hk & _). f_equal.
    eapply (NoDup_lookup (key <$> l)); [done| |].
    + by rewrite list_lookup_fmap, Hy; simpl; rewrite Hk.
    + by rewrite list_lookup_fmap, Hi.
  - exfalso. eapply Hl; [|done]. by eapply list_elem_of_lookup_2.
Qed.

Section id_lookup.
Context `{!Submission.Methods, !Team.Methods}.

(** X8.  Lookups by id after the constructors.  [teamsMap.get(id)] of a new
    [Rank] yields the last team of the list with that id (an earlier team
    with the same id is never found), and nothing exactly when no team has
    the id; so with distinct ids every team is found under its own id.
    The same holds of the problem map [createContest] builds. *)
Theorem id_lookup_round_trip (contest : Contest.t) (teams : list Team.t)
    (submissions : Submissions) :
  Contest.problemsMap contest = createProblemsMap (Contest.problems contest) →
  let r := newRank contest teams submissions in
  (∀ tid,
     match Rank.getTeam r tid with
     | Some (i, x) =>
         teams !! i = Some x ∧ Team.id x = tid
         ∧ ∀ i' x', teams !! i' = Some x' → Team.id x' = tid → (i' ≤ i)%nat
     | None => ∀ x, x ∈ teams → Team.id x ≠ tid
     end)
  ∧ (∀ pid,
       match Contest.getProblem contest pid with
       | Some (j, p) =>
           Contest.problems contest !! j = Some p ∧ Problem.id p = pid
           ∧ ∀ j' p', Contest.problems contest !! j' = Some p' →
                      Problem.id p' = pid → (j' ≤ j)%nat
       | None => ∀ p, p ∈ Contest.problems contest → Problem.id p ≠ pid
       end)
  ∧ (NoDup (Team.id <$> teams) →
     ∀ i x, teams !! i = Some x → Rank.getTeam r (Team.id x) = Some (i, x))
  ∧ (NoDup (Problem.id <$> Contest.problems contest) →
     ∀ j p, Contest.problems contest !! j = Some p →
            Contest.getProblem contest (Problem.id p) = Some (j, p)).
Proof.
  intros Hmap r. split_and!.
  - intros tid. unfold Rank.getTeam. simpl.
    pose proof (js_map_of_last _ Team.id teams tid) as Hl.
    destruct (js_map_of Team.id teams !! tid) as [i|]; simpl; [|done].
    destruct Hl as (x & Hx & Hk & Hlast). rewrite Hx. simpl. done.
  - intros pid. unfold Contest.getProblem. rewrite Hmap. unfold createProblemsMap.
    pose proof (js_map_of_last _ Problem.id (Contest.problems contest) pid) as Hl.
    destruct (js_map_of Problem.id (Contest.problems contest) !! pid) as [j|];
      simpl; [|done].
    destruct Hl as (x & Hx & Hk & Hlast). rewrite Hx. simpl. done.
  - intros Hnd i x Hi. unfold Rank.getTeam. simpl.
    rewrite (js_map_of_NoDup _ _ _ i x) by done. simpl. by rewrite Hi.
  - intros Hnd j p Hj. unfold Contest.getProblem. rewrite Hmap. unfold createProblemsMap.
    rewrite (js_map_of_NoDup _ _ _ j p) by done. simpl. by rewrite Hj.
Qed.
End id_lookup.

(** ** More on the cutoff *)

Section width_order.
Import RankOptions.

End width_order.

Section window.
Context `{!Submission.Methods, !Team.Methods}.

Lemma filter_cutoff_prefix (l : Submissions) (C : Z) :
  StronglySorted Z.le (Submission.timestamp <$> l) →
  ∃ rest, l = filter (λ s, Submission.timestamp s ≤ C) l ++ rest
          ∧ ∀ s, s ∈ rest → C < Submission.timestamp s.
Proof.
  induction l as [|x l IH]; intros Hs.
  - exists []. split; [done|]. by intros s ?%elem_of_nil.
  - rewrite fmap_cons in Hs. apply StronglySorted_inv in Hs as [Hs Hall].
    rewrite filter_cons. case_decide as Hx.
    + destruct (IH Hs) as (rest & Hl & Hrest). exists rest. split; [|done].
      simpl. by rewrite <-Hl.
    + exists (x :: l).
      assert (Hgt : ∀ s, s ∈ x :: l → C < Submission.timestamp s).
      { intros s [->|Hin]%elem_of_cons; [lia|].
        rewrite Forall_forall in Hall.
        assert (Submission.timestamp x ≤ Submission.timestamp s); [|lia].
        apply Hall. rewrite list_elem_of_fmap. by exists s. }
      split; [|done].
      assert (Hnil : ∀ l' : Submissions,
                (∀ s, s ∈ l' → C < Submission.timestamp s) →
                filter (λ s, Submission.timestamp s ≤ C) l' = []).
      { clear. induction l' as [|y l' IH']; intros Hgt; [done|].
        rewrite filter_cons, decide_False.
        - apply IH'. intros s Hin. apply Hgt. by right.
        - assert (C < Submission.timestamp y); [apply Hgt; by left|lia]. }
      rewrite Hnil; [done|]. intros s Hin. apply Hgt. by right.
Qed.

(** X10.  The filtered views nest.  On an instance whose owned submissions
    are in canonical order (by timestamp first), the view at a cutoff is
    an initial segment of the view at any later cutoff and of the owned
    sequence, the submissions left out being exactly the later ones; so a
    replay at the later cutoff is the replay at the earlier one carried on
    with the submissions in between. *)
Theorem getSubmissions_window_prefix (r : Rank.t) (o1 o2 : RankOptions.t) :
  ConsistentComparator Submission.compare → TimestampOrdered →
  Sorted (cmp_le Submission.compare) (Rank.submissions r) →
  RankOptions.enableFilterSubmissionsByTimestamp o1 = true →
  RankOptions.enableFilterSubmissionsByTimestamp o2 = true →
  RankOptions.timestamp o1 ≤ RankOptions.timestamp o2 →
  ∃ mid rest,
    getSubmissions (Rank.set_options o2 r) = getSubmissions (Rank.set_options o1 r) ++ mid
    ∧ Rank.submissions r = getSubmissions (Rank.set_options o2 r) ++ rest
    ∧ (∀ s, s ∈ mid →
         RankOptions.timestamp o1 < Submission.timestamp s ≤ RankOptions.timestamp o2)
    ∧ (∀ s, s ∈ rest → RankOptions.timestamp o2 < Submission.timestamp s)
    ∧ (∀ r0, replay r0 (getSubmissions (Rank.set_options o2 r))
             = r1 ← replay r0 (getSubmissions (Rank.set_options o1 r)); replay r1 mid).
Proof.
  intros Hcmp Hts Hs He1 He2 Hle.
  assert (Hget : ∀ o, RankOptions.enableFilterSubmissionsByTimestamp o = true →
            getSubmissions (Rank.set_options o r)
            = filter (λ s, Submission.timestamp s ≤ RankOptions.timestamp o)
                     (Rank.submissions r)).
  { intros o He. unfold getSubmissions. simpl. rewrite He.
    apply js_sort_Sorted_id. by apply Sorted_filter. }
  rewrite !Hget by done.
  set (C1 := RankOptions.timestamp o1) in *. set (C2 := RankOptions.timestamp o2) in *.
  set (l := Rank.submissions r) in *.
  assert (Hl2 : Sorted (cmp_le Submission.compare)
                  (filter (λ s, Submission.timestamp s ≤ C2) l)).
  { by apply Sorted_filter. }
  destruct (filter_cutoff_prefix l C2) as (rest & Hrest & Hgt);
    [by apply timestamps_sorted|].
  destruct (filter_cutoff_prefix (filter (λ s, Submission.timestamp s ≤ C2) l) C1)
    as (mid & Hmid & Hgt1); [by apply timestamps_sorted|].
  rewrite list_filter_filter_l in Hmid by (intros s; lia).
  exists mid, rest. split_and!; [done|done| |done|].
  - intros s Hin. split; [by apply Hgt1|].
    assert (Hin2 : s ∈ filter (λ s, Submission.timestamp s ≤ C2) l).
    { rewrite Hmid. apply elem_of_app. by right. }
    by apply list_elem_of_filter in Hin2 as [? _].
  - intros r0. rewrite Hmid at 1. apply replay_app.
Qed.
End window.

(** ** Invariants of the replay *)

Section replay_invariants.
Context `{!Submission.Methods, !Team.Methods}.

Lemma popAll_length (l : Submissions) : ProblemStatisticsOps.popAll (length l) l = [].
Proof.
  assert (Hpop : ∀ (n : nat) (l0 : Submissions),
            (length l0 ≤ n)%nat → ProblemStatisticsOps.popAll n l0 = []).
  { induction n as [|n IH]; intros l0 Hl0; simpl.
    - by destruct l0; [|simpl in Hl0; lia].
    - destruct l0 as [|x l0] using rev_ind; [done|].
      rewrite decide_True by (rewrite length_app; simpl; lia).
      rewrite removelast_last. apply IH.
      rewrite length_app in Hl0. simpl in Hl0. lia. }
  by apply Hpop.
Qed.

Lemma turn_tpsOk (s : Submission.t) (x x' : Team.t) (ps ps' : TeamProblemStatistics.t)
    (st st' : ProblemStatistics.t) :
  turn s (x, ps, st) = (x', ps', st') → tpsOk ps → tpsOk ps'.
Proof.
  unfold turn, onAccepted, tpsOk. destruct ps. simpl.
  intros Hturn Hps.
  repeat (case_match; simpl in * ); simplify_eq/=;
    rewrite length_app; simpl; destruct_and!;
    split_and!; try lia; try done; try (intros; lia); try (intros; split; [done|lia]);
    auto.
Qed.

Lemma turn_countersOk (s : Submission.t) (x x' : Team.t) (ps ps' : TeamProblemStatistics.t)
    (st st' : ProblemStatistics.t) :
  turn s (x, ps, st) = (x', ps', st') →
  0 ≤ TeamProblemStatistics.failedCount ps → countersOk st → countersOk st'.
Proof.
  unfold turn, onAccepted, countersOk. destruct ps, st. simpl.
  intros Hturn Hps Hst.
  repeat (case_match; simpl in * ); simplify_eq/=;
    rewrite ?popAll_length, ?length_app; simpl; destruct_and!;
    split_and!; try lia; try done; try (intros; lia); auto.
  all: try (intros _; by apply app_cons_not_nil || (intros ?; by eapply app_cons_not_nil)).
  all: try (intros _; match goal with
                      | H : ¬ (length ?l = 0%nat ∨ _) |- ?l ≠ [] =>
                          intros ->; apply H; by left
                      end).
Qed.

Lemma turn_ok (s : Submission.t) (x x' : Team.t) (ps ps' : TeamProblemStatistics.t)
    (st st' : ProblemStatistics.t) :
  turn s (x, ps, st) = (x', ps', st') →
  tpsOk ps → countersOk st → tpsOk ps' ∧ countersOk st'.
Proof.
  intros Hturn Hps Hst. split; [by eapply turn_tpsOk|].
  eapply turn_countersOk; [done| |done]. by destruct Hps as [? _].
Qed.

(** A pair of properties that every turn keeps holds throughout a replay. *)
Lemma replayStep_each (P : TeamProblemStatistics.t → Prop)
    (Q : ProblemStatistics.t → Prop) :
  (∀ s x ps st x' ps' st',
     turn s (x, ps, st) = (x', ps', st') → P ps → Q st → P ps' ∧ Q st') →
  ∀ r r' s, replayStep r s = Some r' →
    eachStatistics P r ∧ eachProblem Q r → eachStatistics P r' ∧ eachProblem Q r'.
Proof.
  intros Hkeep r r' s
    [->|(i&team&j&problem&k&ps&team'&ps'&st'&Ht&Hp&Hps&Hturn&->)]%replayStep_inv;
    [done|].
  intros [HP HQ].
  apply getTeam_Some in Ht as [_ Ht].
  apply getProblem_Some in Hp as [_ Hp].
  apply getProblemStatistics_Some in Hps as [_ Hps].
  pose proof (turn_frame _ _ _ _ _ _ _ Hturn) as (_&_&_&_&_&_&Hpsl&_).
  destruct (Hkeep _ _ _ _ _ _ _ Hturn) as [HP' HQ']; [by eapply HP|by eapply HQ|].
  split.
  - intros i0 x0 k0 ps0. unfold commit. simpl.
    destruct (decide (i = i0)) as [<-|Hne]; cycle 1.
    { rewrite list_lookup_insert_ne by done. apply HP. }
    rewrite list_lookup_insert_eq by (by eapply lookup_lt_Some).
    intros [= <-]. simpl. rewrite Hpsl.
    destruct (decide (k = k0)) as [<-|Hnek]; cycle 1.
    { rewrite list_lookup_insert_ne by done. by apply (HP i team). }
    rewrite list_lookup_insert_eq by (by eapply lookup_lt_Some).
    by intros [= <-].
  - intros j0 p0. unfold commit. simpl.
    destruct (decide (j = j0)) as [<-|Hne]; cycle 1.
    { rewrite list_lookup_alter_ne by done. apply HQ. }
    rewrite list_lookup_alter_eq, Hp. simpl. by intros [= <-].
Qed.

Lemma replay_each (P : TeamProblemStatistics.t → Prop) (Q : ProblemStatistics.t → Prop) :
  (∀ s x ps st x' ps' st',
     turn s (x, ps, st) = (x', ps', st') → P ps → Q st → P ps' ∧ Q st') →
  ∀ subs r r', replay r subs = Some r' →
    eachStatistics P r ∧ eachProblem Q r → eachStatistics P r' ∧ eachProblem Q r'.
Proof.
  intros Hkeep. induction subs as [|s subs IH]; intros r r' Hr; simpl in Hr.
  - by simplify_eq.
  - destruct (replayStep r s) as [r1|] eqn:Hstep; [|done]. simpl in Hr.
    intros Hinv. eapply IH; [done|]. by eapply replayStep_each.
Qed.

Lemma prepare_ok (r : Rank.t) :
  wellFormed r → eachStatistics tpsOk (prepare r) ∧ eachProblem countersOk (prepare r).
Proof.
  intros Hwf. split.
  - intros i x k ps. rewrite prepare_store by done.
    rewrite list_lookup_fmap. destruct (Rank.store r !! i) as [x0|]; [|done].
    intros [= <-]. unfold prepareTeam. simpl.
    rewrite list_lookup_fmap.
    destruct (Contest.problems (Rank.contest r) !! k) as [p|]; [|done].
    intros [= <-]. unfold tpsOk. simpl. split_and!; done.
  - intros j p. unfold prepare, resetProblems. simpl.
    rewrite list_lookup_fmap.
    destruct (Contest.problems (Rank.contest r) !! j) as [p0|]; [|done].
    intros [= <-]. unfold countersOk. simpl. split_and!; done.
Qed.

(** X11.  The counters stay consistent throughout [buildRank].  On a
    well-formed instance the replay runs to its end, and after every
    prefix of it every aggregate counter of a problem is non-negative,
    accepted, rejected and pending submissions together with the ignored
    ones never exceed the submitted ones, attempts are at least the
    accepted count, the first-solve list is non-empty exactly when the
    problem has been accepted and has at most that many entries, and the
    last-solve list then holds one submission; for a team and a problem,
    a solved problem is a submitted one whose last counted submission is
    the solving one, a first solve is a solve, and the counted and the
    ignored submissions are at most the recorded ones. *)
Theorem replay_keeps_counters (r : Rank.t) :
  wellFormed r →
  ∃ x, replay (prepare r) (getSubmissions (prepare r)) = Some x
       ∧ buildRank r = Some (finish x)
       ∧ (∀ pre post r1,
            getSubmissions (prepare r) = pre ++ post →
            replay (prepare r) pre = Some r1 →
            eachStatistics tpsOk r1 ∧ eachProblem countersOk r1)
       ∧ eachStatistics tpsOk x
       ∧ eachProblem countersOk x
       ∧ eachProblem countersOk (finish x).
Proof.
  intros Hwf.
  destruct (replay_total (getSubmissions (prepare r)) (prepare r)) as [x Hx];
    [by apply prepare_prepared|].
  assert (Hall : ∀ l r1, replay (prepare r) l = Some r1 →
            eachStatistics tpsOk r1 ∧ eachProblem countersOk r1).
  { intros l r1 Hr1. eapply (replay_each tpsOk countersOk); [|done|by apply prepare_ok].
    intros. by eapply turn_ok. }
  exists x. split_and!; [done| | |by apply (Hall _ _ Hx)..|].
  - unfold buildRank. by rewrite Hx.
  - intros pre post r1 _. apply Hall.
  - intros j p. rewrite finish_contest. by apply (Hall _ _ Hx).
Qed.

(** ** A solved problem is frozen *)

Lemma turn_frozen (s : Submission.t) (x x' : Team.t) (ps ps' : TeamProblemStatistics.t)
    (st st' : ProblemStatistics.t) :
  turn s (x, ps, st) = (x', ps', st') → TeamProblemStatistics.isSolved ps = true →
  frozenAs ps ps'
  ∧ TeamProblemStatistics.submissions ps' = TeamProblemStatistics.submissions ps ++ [s].
Proof.
  unfold turn, frozenAs. destruct ps. simpl. intros Hturn ->.
  simplify_eq/=. split_and!; try done. by apply prefix_app_r.
Qed.

Lemma frozenAs_refl (a : TeamProblemStatistics.t) :
  TeamProblemStatistics.isSolved a = true → frozenAs a a.
Proof. unfold frozenAs. intros. by split_and!. Qed.

Lemma frozenAs_trans (a b c : TeamProblemStatistics.t) :
  frozenAs a b → frozenAs b c → frozenAs a c.
Proof.
  unfold frozenAs. intros ? ?. destruct_and!. split_and!; try congruence.
  by etrans.
Qed.

(** X12.  Once a team has solved a problem its statistics object for the
    problem is frozen for the rest of the replay: later submissions are
    appended to its list and change nothing else, whatever their verdict. *)
Theorem solved_stays_solved (subs : Submissions) (r r' : Rank.t) (i k : nat)
    (x : Team.t) (ps : TeamProblemStatistics.t) :
  replay r subs = Some r' →
  Rank.store r !! i = Some x → Team.problemStatistics x !! k = Some ps →
  TeamProblemStatistics.isSolved ps = true →
  ∃ x' ps',
    Rank.store r' !! i = Some x' ∧ Team.problemStatistics x' !! k = Some ps'
    ∧ frozenAs ps ps'.
Proof.
  revert r x ps. induction subs as [|s subs IH]; intros r x ps Hr Hx Hps Hsolved;
    simpl in Hr.
  - simplify_eq. exists x, ps. split_and!; [done..|]. by apply frozenAs_refl.
  - destruct (replayStep r s) as [r1|] eqn:Hstep; [|done]. simpl in Hr.
    assert (Hone : ∃ x1 ps1,
              Rank.store r1 !! i = Some x1 ∧ Team.problemStatistics x1 !! k = Some ps1
              ∧ frozenAs ps ps1).
    { apply replayStep_inv in Hstep
        as [->|(i0&team&j&problem&k0&ps0&team'&ps0'&st'&Ht&Hp&Hps0&Hturn&->)].
      { exists x, ps. split_and!; [done..|]. by apply frozenAs_refl. }
      apply getTeam_Some in Ht as [_ Ht].
      apply getProblemStatistics_Some in Hps0 as [_ Hps0].
      pose proof (turn_frame _ _ _ _ _ _ _ Hturn) as (_&_&_&_&_&_&Hpsl&_).
      unfold commit. simpl.
      destruct (decide (i0 = i)) as [->|Hne]; cycle 1.
      { rewrite list_lookup_insert_ne by done. exists x, ps.
        split_and!; [done..|]. by apply frozenAs_refl. }
      rewrite list_lookup_insert_eq by (by eapply lookup_lt_Some).
      simplify_eq.
      destruct (decide (k0 = k)) as [->|Hnek]; cycle 1.
      { eexists _, ps. split; [done|]. simpl. rewrite Hpsl.
        rewrite list_lookup_insert_ne by done. split; [done|].
        by apply frozenAs_refl. }
      eexists _, ps0'. split; [done|]. simpl. rewrite Hpsl.
      rewrite list_lookup_insert_eq by (by eapply lookup_lt_Some).
      split; [done|]. simplify_eq. by eapply turn_frozen. }
    destruct Hone as (x1 & ps1 & Hx1 & Hps1 & Hf1).
    destruct (IH r1 x1 ps1) as (x' & ps' & Hx' & Hps' & Hf'); [done..|by destruct Hf1|].
    exists x', ps'. split_and!; [done..|]. by eapply frozenAs_trans.
Qed.
End replay_invariants.

(** ** What the replay records *)

Section recording.
Context `{!Submission.Methods, !Team.Methods}.

Lemma refsOf_sameFrame (r r' : Rank.t) (s : Submission.t) :
  sameFrame r r' → refsOf r' s = refsOf r s.
Proof.
  intros (_&Hmap&_&_&_&_&Hpm&_&_&Hlp&Hls).
  unfold refsOf, Rank.getTeam, Contest.getProblem. rewrite Hmap, Hpm.
  destruct (Rank.teamsMap r !! Submission.teamId s) as [i|]; simpl; [|done].
  destruct (Rank.store r' !! i) as [x'|] eqn:E1, (Rank.store r !! i) as [x|] eqn:E2;
    simpl; try done;
    try (exfalso; apply lookup_lt_Some in E1; apply lookup_ge_None in E2; lia);
    try (exfalso; apply lookup_lt_Some in E2; apply lookup_ge_None in E1; lia).
  destruct (Contest.problemsMap (Rank.contest r) !! Submission.problemId s) as [j|];
    simpl; [|done].
  destruct (Contest.problems (Rank.contest r') !! j) as [p'|] eqn:E3,
    (Contest.problems (Rank.contest r) !! j) as [p|] eqn:E4;
    simpl; try done.
  - exfalso. apply lookup_lt_Some in E3. apply lookup_ge_None in E4. lia.
  - exfalso. apply lookup_lt_Some in E4. apply lookup_ge_None in E3. lia.
Qed.

Lemma turn_submitted (s : Submission.t) (x x' : Team.t) (ps ps' : TeamProblemStatistics.t)
    (st st' : ProblemStatistics.t) :
  turn s (x, ps, st) = (x', ps', st') →
  ProblemStatistics.submittedNum st' = ProblemStatistics.submittedNum st + 1.
Proof.
  unfold turn, onAccepted. simpl.
  repeat (case_match; simpl in * ); intros; simplify_eq/=; done.
Qed.

(** What one turn records. *)
Lemma replayStep_records (r r1 : Rank.t) (s : Submission.t) :
  replayStep r s = Some r1 →
  (∀ i x, Rank.store r !! i = Some x →
     ∃ x1, Rank.store r1 !! i = Some x1
           ∧ Team.submissions x1
             = Team.submissions x
               ++ (if decide (fst <$> refsOf r s = Some i) then [s] else []))
  ∧ (∀ j p, Contest.problems (Rank.contest r) !! j = Some p →
       ∃ p1, Contest.problems (Rank.contest r1) !! j = Some p1
             ∧ ProblemStatistics.submittedNum (Problem.statistics p1)
               = ProblemStatistics.submittedNum (Problem.statistics p)
                 + (if decide (snd <$> refsOf r s = Some j) then 1 else 0)).
Proof.
  rewrite replayStep_turn. unfold refsOf.
  destruct (Rank.getTeam _ _) as [[i0 team]|] eqn:Ht; cycle 1.
  { intros [= <-]. simpl. split.
    - intros i x Hx. exists x. by rewrite app_nil_r.
    - intros j p Hp. exists p. split; [done|lia]. }
  destruct (Contest.getProblem _ _) as [[j0 problem]|] eqn:Hp0; cycle 1.
  { intros [= <-]. simpl. split.
    - intros i x Hx. exists x. by rewrite app_nil_r.
    - intros j p Hp. exists p. split; [done|lia]. }
  destruct (Team.getProblemStatistics _ _) as [[k ps]|] eqn:Hps; [|done].
  simpl. destruct (turn s _) as [[team' ps'] st'] eqn:Hturn. intros [= <-].
  apply getTeam_Some in Ht as [_ Ht].
  apply getProblem_Some in Hp0 as [_ Hp0].
  pose proof (turn_frame _ _ _ _ _ _ _ Hturn) as (_&_&_&_&_&_&_&_&Hsub&_).
  pose proof (turn_submitted _ _ _ _ _ _ _ Hturn) as Hnum.
  unfold commit. simpl. split.
  - intros i x Hx. destruct (decide (i0 = i)) as [->|Hne].
    + rewrite list_lookup_insert_eq by (by eapply lookup_lt_Some).
      eexists. split; [done|]. simpl. rewrite decide_True by done.
      by simplify_eq.
    + rewrite list_lookup_insert_ne by done. exists x. split; [done|].
      rewrite decide_False by congruence. by rewrite app_nil_r.
  - intros j p Hp. destruct (decide (j0 = j)) as [->|Hne].
    + rewrite list_lookup_alter_eq, Hp. simpl. eexists. split; [done|]. simpl.
      rewrite decide_True by done. by simplify_eq.
    + rewrite list_lookup_alter_ne by done. exists p. split; [done|].
      rewrite decide_False by congruence. lia.
Qed.

(** The submitted count after a whole replay. *)
Lemma replay_submittedNum (subs : Submissions) (r r' : Rank.t) (j : nat) (p : Problem.t) :
  replay r subs = Some r' →
  Contest.problems (Rank.contest r) !! j = Some p →
  ∃ p', Contest.problems (Rank.contest r') !! j = Some p'
        ∧ ProblemStatistics.submittedNum (Problem.statistics p')
          = ProblemStatistics.submittedNum (Problem.statistics p)
            + Z.of_nat (length (filter (λ s, snd <$> refsOf r s = Some j) subs)).
Proof.
  revert r p. induction subs as [|s subs IH]; intros r p Hr Hp; simpl in Hr.
  - simplify_eq. exists p. split; [done|]. simpl. lia.
  - destruct (replayStep r s) as [r1|] eqn:Hstep; [|done]. simpl in Hr.
    pose proof (replayStep_sameFrame _ _ _ Hstep) as Hframe.
    destruct (replayStep_records _ _ _ Hstep) as [_ Hprob].
    destruct (Hprob j p Hp) as (p1 & Hp1 & Hn1).
    destruct (IH r1 p1 Hr Hp1) as (p' & Hp' & Hn'). exists p'. split; [done|].
    rewrite Hn', Hn1.
    rewrite filter_cons.
    rewrite (list_filter_iff (λ s0, snd <$> refsOf r1 s0 = Some j)
               (λ s0, snd <$> refsOf r s0 = Some j))
      by (intros s0; by rewrite (refsOf_sameFrame r r1)).
    case_decide; simpl; lia.
Qed.

(** X13.  What a replay records, whatever the verdicts: every submission
    whose team and problem are both known is appended to its team's
    submission list, in replay order, and counted once in its problem's
    [submittedNum]; no other submission is. *)
Theorem replay_records (subs : Submissions) (r r' : Rank.t) :
  replay r subs = Some r' →
  (∀ i x, Rank.store r !! i = Some x →
     ∃ x', Rank.store r' !! i = Some x'
           ∧ Team.submissions x'
             = Team.submissions x ++ filter (λ s, fst <$> refsOf r s = Some i) subs)
  ∧ (∀ j p, Contest.problems (Rank.contest r) !! j = Some p →
       ∃ p', Contest.problems (Rank.contest r') !! j = Some p'
             ∧ ProblemStatistics.submittedNum (Problem.statistics p')
               = ProblemStatistics.submittedNum (Problem.statistics p)
                 + Z.of_nat (length (filter (λ s, snd <$> refsOf r s = Some j) subs))).
Proof.
  intros Hr. split; [|intros j p Hp; by eapply replay_submittedNum].
  revert r Hr. induction subs as [|s subs IH]; intros r Hr i x Hx; simpl in Hr.
  - simplify_eq. exists x. by rewrite app_nil_r.
  - destruct (replayStep r s) as [r1|] eqn:Hstep; [|done]. simpl in Hr.
    pose proof (replayStep_sameFrame _ _ _ Hstep) as Hframe.
    destruct (replayStep_records _ _ _ Hstep) as [Hteam _].
    destruct (Hteam i x Hx) as (x1 & Hx1 & Hs1).
    destruct (IH r1 Hr i x1 Hx1) as (x' & Hx' & Hs'). exists x'. split; [done|].
    rewrite Hs', Hs1, <-app_assoc. f_equal.
    rewrite filter_cons.
    rewrite (list_filter_iff (λ s0, fst <$> refsOf r1 s0 = Some i)
               (λ s0, fst <$> refsOf r s0 = Some i))
      by (intros s0; by rewrite (refsOf_sameFrame r r1)).
    by case_decide.
Qed.

(** X14.  After [buildRank] the [submittedNum] of a problem is the number
    of submissions in the window whose team and problem are both known:
    ignored submissions and submissions after the team's solve count,
    submissions of unknown teams do not. *)
Theorem buildRank_submittedNum (r r' : Rank.t) (j : nat) (p' : Problem.t) :
  wellFormed r → buildRank r = Some r' →
  Contest.problems (Rank.contest r') !! j = Some p' →
  ProblemStatistics.submittedNum (Problem.statistics p')
  = Z.of_nat (length (filter (λ s, snd <$> refsOf r s = Some j) (getSubmissions r))).
Proof.
  intros Hwf Hb Hp'. unfold buildRank in Hb.
  destruct (replay _ _) as [x|] eqn:Hx; [|done]. simpl in Hb. simplify_eq.
  rewrite finish_contest in Hp'.
  pose proof (replay_sameFrame _ _ _ Hx) as (_&_&_&_&_&_&_&_&_&Hlen&_).
  assert (Hj : is_Some (Contest.problems (Rank.contest (prepare r)) !! j)).
  { apply lookup_lt_is_Some. rewrite <-Hlen. by eapply lookup_lt_Some. }
  destruct Hj as [p0 Hp0].
  destruct (replay_submittedNum _ _ _ j p0 Hx Hp0) as (p1 & Hp1 & Hn).
  rewrite Hp' in Hp1. injection Hp1 as <-. rewrite Hn.
  assert (Hzero : ProblemStatistics.submittedNum (Problem.statistics p0) = 0).
  { revert Hp0. unfold prepare, resetProblems. simpl. rewrite list_lookup_fmap.
    destruct (Contest.problems (Rank.contest r) !! j); [|done]. by intros [= <-]. }
  rewrite Hzero, (getSubmissions_sameFrame r (prepare r)) by apply prepare_sameFrame.
  rewrite (list_filter_iff (λ s0, snd <$> refsOf (prepare r) s0 = Some j)
             (λ s0, snd <$> refsOf r s0 = Some j))
    by (intros s0; by rewrite (refsOf_sameFrame r (prepare r)) by apply prepare_sameFrame).
  lia.
Qed.
End recording.

(** ** Accepted counts and solved teams *)

Lemma filter_none {A : Type} (P : A → Prop) `{!∀ x, Decision (P x)} (l : list A) :
  (∀ x, x ∈ l → ¬ P x) → filter P l = [].
Proof.
  induction l as [|y l IH]; intros Hn; [done|].
  rewrite filter_cons, decide_False by (apply Hn; by left).
  apply IH. intros x Hx. apply Hn. by right.
Qed.

Lemma filter_insert_length {A : Type} (P : A → Prop) `{!∀ x, Decision (P x)}
    (l : list A) (i : nat) (x y : A) :
  l !! i = Some x →
  (length (filter P (<[i := y]> l)) + (if decide (P x) then 1 else 0)
   = length (filter P l) + (if decide (P y) then 1 else 0))%nat.
Proof.
  intros Hi. rewrite insert_take_drop by (by eapply lookup_lt_Some).
  rewrite <-(take_drop_middle l i x Hi) at 3.
  rewrite !filter_app, !filter_cons, !length_app.
  repeat case_decide; simpl; lia.
Qed.

Section accepted_count.
Context `{!Submission.Methods, !Team.Methods}.

Lemma turn_accepted (s : Submission.t) (x x' : Team.t) (ps ps' : TeamProblemStatistics.t)
    (st st' : ProblemStatistics.t) :
  turn s (x, ps, st) = (x', ps', st') →
  let solving :=
    negb (TeamProblemStatistics.isSolved ps)
    && negb (Submission.isIgnore s || Submission.isNotCalculatedPenaltyStatus s)
    && Submission.isAccepted s in
  ProblemStatistics.acceptedNum st'
  = ProblemStatistics.acceptedNum st + (if solving then 1 else 0)
  ∧ TeamProblemStatistics.isSolved ps' = TeamProblemStatistics.isSolved ps || solving.
Proof.
  unfold turn, onAccepted. destruct ps, st. simpl.
  repeat (case_match; simpl in * ); intros; simplify_eq/=; split; first [done|lia].
Qed.

Lemma replayStep_acceptedIsSolved (r r' : Rank.t) (s : Submission.t) :
  replayStep r s = Some r' → prepared r → acceptedIsSolved r → acceptedIsSolved r'.
Proof.
  intros [->|(i&team&j&problem&k&ps&team'&ps'&st'&Ht&Hp&Hps&Hturn&->)]%replayStep_inv;
    [done|].
  intros Hprep Hinv.
  apply getTeam_Some in Ht as [_ Ht].
  apply getProblem_Some in Hp as [Hpm Hp].
  apply getProblemStatistics_Some in Hps as [Hsm Hps].
  destruct (Hprep i team Ht) as [Hmap _]. rewrite Hmap, Hpm in Hsm.
  injection Hsm as <-.
  pose proof (turn_frame _ _ _ _ _ _ _ Hturn) as (_&_&_&_&_&_&Hpsl&_).
  destruct (turn_accepted _ _ _ _ _ _ _ Hturn) as [Hacc Hsol]. simpl in Hacc, Hsol.
  intros j0 p0. unfold commit, solvedCount. simpl.
  set (X := Team.set_problemStatistics _ team').
  pose proof (filter_insert_length (solvedBy j0) (Rank.store r) i team X Ht) as Hcount.
  destruct (decide (j = j0)) as [<-|Hne]; cycle 1.
  - rewrite list_lookup_alter_ne by done. intros Hp0.
    rewrite (Hinv j0 p0 Hp0). unfold solvedCount.
    assert (Hsame : solvedBy j0 X ↔ solvedBy j0 team).
    { unfold solvedBy, X. simpl. by rewrite Hpsl, list_lookup_insert_ne. }
    destruct (decide (solvedBy j0 X)), (decide (solvedBy j0 team)); try tauto; lia.
  - rewrite list_lookup_alter_eq, Hp. simpl. intros [= <-]. simpl.
    rewrite Hacc, (Hinv j problem Hp). unfold solvedCount.
    assert (HX : solvedBy j X ↔ TeamProblemStatistics.isSolved ps' = true).
    { unfold solvedBy, X. simpl.
      rewrite Hpsl, list_lookup_insert_eq by (by eapply lookup_lt_Some).
      simpl. split; [by intros [= ->]|by intros ->]. }
    assert (Hteam : solvedBy j team ↔ TeamProblemStatistics.isSolved ps = true).
    { unfold solvedBy. rewrite Hps. simpl. split; [by intros [= ->]|by intros ->]. }
    rewrite Hsol in HX.
    destruct (TeamProblemStatistics.isSolved ps),
      (Submission.isIgnore s || Submission.isNotCalculatedPenaltyStatus s),
      (Submission.isAccepted s); simpl in *;
      destruct (decide (solvedBy j X)), (decide (solvedBy j team));
      try tauto; try lia; exfalso; naive_solver.
Qed.

Lemma prepare_acceptedIsSolved (r : Rank.t) : wellFormed r → acceptedIsSolved (prepare r).
Proof.
  intros Hwf j p. rewrite prepare_store by done. unfold solvedCount.
  rewrite filter_none.
  - unfold prepare, resetProblems. simpl. rewrite list_lookup_fmap.
    destruct (Contest.problems (Rank.contest r) !! j); [|done]. by intros [= <-].
  - intros x [x0 [-> _]]%list_elem_of_fmap. unfold solvedBy, prepareTeam. simpl.
    rewrite list_lookup_fmap.
    by destruct (Contest.problems (Rank.contest r) !! j).
Qed.

(** X15.  Throughout [buildRank] the [acceptedNum] of a problem is the
    number of teams that have solved it: a team is counted once, at its
    first accepted counted submission, and a submission after that never
    adds to the count. *)
Theorem acceptedNum_counts_solved_teams (r : Rank.t) :
  wellFormed r →
  ∃ x, replay (prepare r) (getSubmissions (prepare r)) = Some x
       ∧ buildRank r = Some (finish x)
       ∧ acceptedIsSolved x
       ∧ ∀ pre post r1,
           getSubmissions (prepare r) = pre ++ post →
           replay (prepare r) pre = Some r1 → acceptedIsSolved r1.
Proof.
  intros Hwf.
  destruct (replay_total (getSubmissions (prepare r)) (prepare r)) as [x Hx];
    [by apply prepare_prepared|].
  assert (Hall : ∀ l r0 r1, replay r0 l = Some r1 →
            prepared r0 → acceptedIsSolved r0 → acceptedIsSolved r1).
  { induction l as [|s l IH]; intros r0 r1 Hr1 Hprep Hinv; simpl in Hr1.
    - by simplify_eq.
    - destruct (replayStep r0 s) as [r2|] eqn:Hstep; [|done]. simpl in Hr1.
      eapply IH; [done| |].
      + by eapply replayStep_prepared.
      + by eapply replayStep_acceptedIsSolved. }
  exists x. split_and!; [done| | |].
  - unfold buildRank. by rewrite Hx.
  - eapply Hall; [done| |]; [by apply prepare_prepared|by apply prepare_acceptedIsSolved].
  - intros pre post r1 _ Hr1.
    eapply Hall; [done| |]; [by apply prepare_prepared|by apply prepare_acceptedIsSolved].
Qed.
End accepted_count.

(** ** Ranks along the sorted order *)

Section rank_order.
Context `{!Submission.Methods, !Team.Methods}.

(** The walk numbers from 1 and never counts past the position. *)
Lemma assignRank_bounds (store : list Team.t) (order : list nat) :
  NoDup order → (∀ i, i ∈ order → is_Some (store !! i)) →
  ∀ n i, order !! n = Some i →
    ∃ x', assignRank 1 None order store !! i = Some x'
          ∧ 1 ≤ Team.rank x' ≤ Z.of_nat n + 1
          ∧ (n = 0%nat → Team.rank x' = 1).
Proof.
  intros Hnd Hvalid.
  destruct (assignRank_spec order 1 None store Hnd) as [_ Hspec]; [done|].
  induction n as [|m IH]; intros i Hi.
  - destruct (Hvalid i) as [x Hx]; [by eapply list_elem_of_lookup_2|].
    rewrite (Hspec _ _ _ Hi Hx). simpl. eexists. split; [done|]. simpl. lia.
  - destruct (Hvalid i) as [x Hx]; [by eapply list_elem_of_lookup_2|].
    destruct (order !! m) as [p|] eqn:Hp; cycle 1.
    { apply lookup_ge_None in Hp. apply lookup_lt_Some in Hi. lia. }
    destruct (IH p eq_refl) as (xp' & Hxp' & Hb & _).
    rewrite (Hspec _ _ _ Hi Hx). simpl. rewrite Hp. simpl. rewrite Hxp'. simpl.
    eexists. split; [done|]. simpl. case_match; split; try lia; done.
Qed.

(** Along the order ranks do not decrease, and two teams of one rank are
    linked by a chain of equal-rank tests that all succeeded. *)
Lemma assignRank_between (store : list Team.t) (order : list nat) (d m i j : nat) :
  NoDup order → (∀ i, i ∈ order → is_Some (store !! i)) →
  order !! m = Some i → order !! (m + d)%nat = Some j →
  ∃ a b a' b',
    store !! i = Some a ∧ store !! j = Some b
    ∧ assignRank 1 None order store !! i = Some a'
    ∧ assignRank 1 None order store !! j = Some b'
    ∧ Team.rank a' ≤ Team.rank b'
    ∧ (RankingKeyLaws → Team.rank a' = Team.rank b' → sameKey a b).
Proof.
  intros Hnd Hvalid Hi.
  destruct (assignRank_spec order 1 None store Hnd) as [_ Hspec]; [done|].
  destruct (Hvalid i) as [a Ha]; [by eapply list_elem_of_lookup_2|].
  destruct (assignRank_bounds store order Hnd Hvalid m i Hi) as (a' & Ha' & _).
  revert j. induction d as [|d IH]; intros j Hj.
  { rewrite Nat.add_0_r in Hj. simplify_eq.
    exists a, a, a', a'. split_and!; [done..|lia|]. intros _ _. by split. }
  replace (m + S d)%nat with (S (m + d)) in Hj by lia.
  destruct (order !! (m + d)%nat) as [p|] eqn:Hp; cycle 1.
  { apply lookup_ge_None in Hp. apply lookup_lt_Some in Hj. lia. }
  destruct (IH p eq_refl) as (a0 & xp & a0' & xp' & Ha0 & Hxp & Ha0' & Hxp' & Hle & Hkey).
  simplify_eq.
  destruct (assignRank_bounds store order Hnd Hvalid _ p Hp) as (xp'' & Hxp'' & Hbp & _).
  simplify_eq.
  destruct (Hvalid j) as [b Hb]; [by eapply list_elem_of_lookup_2|].
  pose proof (Hspec _ _ _ Hj Hb) as Hb'. simpl in Hb'. rewrite Hp in Hb'.
  simpl in Hb'. rewrite Hxp' in Hb'. simpl in Hb'.
  pose proof (Hspec _ _ _ Hp Hxp) as Hxpw. rewrite Hxp' in Hxpw. injection Hxpw as Hxpw.
  exists a, b, a', (Team.set_rank
               (if Team.isEqualRank (Team.set_rank (Z.of_nat (S (m + d)) + 1) b) xp'
                then Team.rank xp' else Z.of_nat (S (m + d)) + 1) b).
  split; [done|split; [done|split; [done|split; [done|split]]]].
  - simpl. destruct (Team.isEqualRank _ xp'); lia.
  - intros Hlaws. simpl. destruct (Team.isEqualRank _ xp') eqn:Heq; [|lia].
    intros Hr. apply isEqualRank_sameKey in Heq.
    assert (Hab : sameKey a xp) by (apply Hkey; [done|lia]).
    rewrite Hxpw in Heq. unfold sameKey in *. simpl in *. destruct_and!.
    split; congruence.
Qed.

(** What [buildRank] leaves, seen from the walk: [S4] is the store the
    walk starts from, and the final store carries the ranks of the walk
    over the final order. *)
Lemma buildRank_view (r r' : Rank.t) :
  wellFormed r → buildRank r = Some r' →
  ∃ S4, Rank.teams r' ≡ₚ seq 0 (length S4)
        ∧ length (Rank.store r') = length S4
        ∧ ∀ k t, Rank.store r' !! k = Some t →
            ∃ t4 t5, S4 !! k = Some t4
                     ∧ assignRank 1 None (Rank.teams r') S4 !! k = Some t5
                     ∧ Team.rank t5 = Team.rank t ∧ sameKey t4 t.
Proof.
  intros Hwf Hbuild. unfold buildRank in Hbuild.
  destruct (replay _ _) as [x|] eqn:Hx; simpl in Hbuild; [|done]. simplify_eq.
  assert (Hwfx : wellFormed x).
  { eapply sameFrame_wellFormed; [|done].
    eapply sameFrame_trans; [apply prepare_sameFrame|by eapply replay_sameFrame]. }
  destruct Hwfx as (Hperm&_). destruct (finish_ranks x Hperm) as [Hranks Hteams].
  exists (Team.calcSolvedData <$> Rank.store x).
  set (S4 := Team.calcSolvedData <$> Rank.store x) in *.
  set (order := Rank.teams (finish x)) in *.
  assert (Hlen5 : length (assignRank 1 None order S4) = length S4).
  { rewrite <- (length_fmap Team.solvedProblemNum (assignRank _ _ _ _)).
    by rewrite assignRank_fmap, length_fmap. }
  split_and!.
  - rewrite Hteams, js_sort_Permutation. subst S4. by rewrite length_fmap.
  - apply (f_equal length) in Hranks. rewrite !length_fmap in Hranks. congruence.
  - intros k t Hk.
    pose proof (f_equal (.!! k) Hranks) as Hk5. rewrite !list_lookup_fmap, Hk in Hk5.
    destruct (assignRank 1 None order S4 !! k) as [t5|] eqn:Ht5; [|done].
    injection Hk5 as Hr Hs Hp.
    pose proof (f_equal (.!! k)
      (assignRank_fmap (λ t, (Team.solvedProblemNum t, Team.penalty t))
         order 1 None S4 (λ _ _, eq_refl))) as Hk4.
    rewrite !list_lookup_fmap, Ht5 in Hk4.
    destruct (S4 !! k) as [t4|] eqn:Ht4; [|done]. injection Hk4 as Hs4 Hp4.
    exists t4, t5. split_and!; try done. split; congruence.
Qed.

(** X16.  The ranks [buildRank] leaves follow the final order of
    [this.teams]: the first team has rank 1, ranks never decrease along
    the order, and the team at position [n] (from 0) has a rank of at most
    [n + 1]; so every rank lies between 1 and the number of teams.  This
    needs nothing of [Team.compare] and [Team.isEqualRank]. *)
Theorem ranks_follow_order (r r' : Rank.t) :
  wellFormed r → buildRank r = Some r' →
  (∀ i a, Rank.store r' !! i = Some a →
     1 ≤ Team.rank a ≤ Z.of_nat (length (Rank.store r')))
  ∧ (∀ m n i j a b,
       (m ≤ n)%nat → Rank.teams r' !! m = Some i → Rank.teams r' !! n = Some j →
       Rank.store r' !! i = Some a → Rank.store r' !! j = Some b →
       1 ≤ Team.rank a ∧ Team.rank a ≤ Team.rank b ∧ Team.rank b ≤ Z.of_nat n + 1)
  ∧ (∀ i a, Rank.teams r' !! 0%nat = Some i → Rank.store r' !! i = Some a →
       Team.rank a = 1).
Proof.
  intros Hwf Hbuild.
  destruct (buildRank_view r r' Hwf Hbuild) as (S4 & Horder & Hlen & Hview).
  assert (Hnd : NoDup (Rank.teams r')) by (rewrite Horder; apply NoDup_seq).
  assert (Hvalid : ∀ k, k ∈ Rank.teams r' → is_Some (S4 !! k)).
  { intros k. rewrite Horder, elem_of_seq. intros [_ Hk].
    apply lookup_lt_is_Some. lia. }
  split_and!.
  - intros i a Ha. destruct (Hview i a Ha) as (a4 & a5 & Ha4 & Ha5 & Hr & _).
    assert (Hi : i ∈ Rank.teams r').
    { rewrite Horder, elem_of_seq. apply lookup_lt_Some in Ha4. lia. }
    apply list_elem_of_lookup_1 in Hi as [n Hn].
    destruct (assignRank_bounds S4 _ Hnd Hvalid n i Hn) as (a5' & Ha5' & Hb & _).
    simplify_eq. rewrite <-Hr.
    apply lookup_lt_Some in Hn. rewrite Horder, length_seq in Hn. lia.
  - intros m n i j a b Hmn Hm Hn Ha Hb.
    destruct (Hview i a Ha) as (a4 & a5 & Ha4 & Ha5 & Hra & _).
    destruct (Hview j b Hb) as (b4 & b5 & Hb4 & Hb5 & Hrb & _).
    destruct (assignRank_between S4 _ (n - m) m i j Hnd Hvalid Hm)
      as (?&?&?&?&?&?&?&?&Hle&_); [by replace (m + (n - m))%nat with n by lia|].
    destruct (assignRank_bounds S4 _ Hnd Hvalid m i Hm) as (?&?&?&_).
    destruct (assignRank_bounds S4 _ Hnd Hvalid n j Hn) as (?&?&?&_).
    simplify_eq. rewrite <-Hra, <-Hrb. lia.
  - intros i a Hi Ha. destruct (Hview i a Ha) as (a4 & a5 & Ha4 & Ha5 & Hra & _).
    destruct (assignRank_bounds S4 _ Hnd Hvalid 0%nat i Hi) as (?&?&_&H1).
    simplify_eq. rewrite <-Hra. by apply H1.
Qed.

(** X17.  With equal rank being equality of the (solved count, penalty)
    key, two teams that [buildRank] leaves with the same rank have the
    same key; so of two teams with different keys the one that comes
    first in the final order has the strictly smaller rank. *)
Theorem equal_rank_same_key (r r' : Rank.t) (i j : nat) (a b : Team.t) :
  RankingKeyLaws → wellFormed r → buildRank r = Some r' →
  Rank.store r' !! i = Some a → Rank.store r' !! j = Some b →
  (Team.rank a = Team.rank b → sameKey a b)
  ∧ (∀ m n, (m < n)%nat → Rank.teams r' !! m = Some i → Rank.teams r' !! n = Some j →
       ¬ sameKey a b → Team.rank a < Team.rank b).
Proof.
  intros Hlaws Hwf Hbuild Ha Hb.
  destruct (buildRank_view r r' Hwf Hbuild) as (S4 & Horder & Hlen & Hview).
  assert (Hnd : NoDup (Rank.teams r')) by (rewrite Horder; apply NoDup_seq).
  assert (Hvalid : ∀ k, k ∈ Rank.teams r' → is_Some (S4 !! k)).
  { intros k. rewrite Horder, elem_of_seq. intros [_ Hk].
    apply lookup_lt_is_Some. lia. }
  destruct (Hview i a Ha) as (a4 & a5 & Ha4 & Ha5 & Hra & Hka).
  destruct (Hview j b Hb) as (b4 & b5 & Hb4 & Hb5 & Hrb & Hkb).
  assert (Hpos : ∀ m n, (m ≤ n)%nat →
            Rank.teams r' !! m = Some i → Rank.teams r' !! n = Some j →
            Team.rank a ≤ Team.rank b ∧ (Team.rank a = Team.rank b → sameKey a b)).
  { intros m n Hmn Hm Hn.
    destruct (assignRank_between S4 _ (n - m) m i j Hnd Hvalid Hm)
      as (?&?&?&?&?&?&?&?&Hle&Hkey); [by replace (m + (n - m))%nat with n by lia|].
    simplify_eq. rewrite <-Hra, <-Hrb. split; [done|]. intros Heq.
    specialize (Hkey Hlaws Heq). unfold sameKey in *. destruct_and!. split; congruence. }
  assert (Hpos' : ∀ m n, (m ≤ n)%nat →
            Rank.teams r' !! m = Some j → Rank.teams r' !! n = Some i →
            Team.rank b ≤ Team.rank a ∧ (Team.rank a = Team.rank b → sameKey a b)).
  { intros m n Hmn Hm Hn.
    destruct (assignRank_between S4 _ (n - m) m j i Hnd Hvalid Hm)
      as (?&?&?&?&?&?&?&?&Hle&Hkey); [by replace (m + (n - m))%nat with n by lia|].
    simplify_eq. rewrite <-Hra, <-Hrb. split; [done|]. intros Heq.
    symmetry in Heq.
    specialize (Hkey Hlaws Heq). unfold sameKey in *. destruct_and!. split; congruence. }
  split.
  - intros Heq.
    assert (Hi : i ∈ Rank.teams r').
    { rewrite Horder, elem_of_seq. apply lookup_lt_Some in Ha4. lia. }
    assert (Hj : j ∈ Rank.teams r').
    { rewrite Horder, elem_of_seq. apply lookup_lt_Some in Hb4. lia. }
    apply list_elem_of_lookup_1 in Hi as [m Hm], Hj as [n Hn].
    destruct (decide (m ≤ n)%nat).
    + by apply (Hpos m n).
    + apply (Hpos' n m); [lia|done..].
  - intros m n Hmn Hm Hn Hne.
    destruct (Hpos m n) as [Hle Hkey]; [lia|done..|].
    destruct (decide (Team.rank a = Team.rank b)) as [Heq|]; [|lia].
    by apply Hkey in Heq.
Qed.
End rank_order.

(** ** The histogram of solved counts *)

Lemma omap_lookup_seq {A : Type} (l : list A) : omap (l !!.) (seq 0 (length l)) = l.
Proof.
  induction l as [|x l IH] using rev_ind; [done|].
  rewrite length_app. simpl. rewrite Nat.add_1_r, seq_S, omap_app. simpl.
  rewrite list_lookup_middle by done. simpl. f_equal.
  etrans; [|exact IH]. apply list_omap_ext, Forall_Forall2_diag, Forall_forall.
  intros i [_ Hi]%elem_of_seq. apply lookup_app_l. lia.
Qed.

Lemma cellsSum_replicate (n : nat) : cellsSum (replicate n (RankStatistics.Num 0)) = Some 0.
Proof. induction n as [|n IH]; simpl; [done|]. by rewrite IH. Qed.

Lemma cellsSum_alter_incr (a : list RankStatistics.cell) (k : nat) :
  (k < length a)%nat →
  cellsSum (alter RankStatistics.incr k a) = (λ s, s + 1) <$> cellsSum a.
Proof.
  revert k. induction a as [|c a IH]; intros k Hk; simpl in Hk; [lia|].
  destruct k as [|k]; simpl.
  - destruct c; simpl; [|done..]. destruct (cellsSum a); simpl; [|done]. f_equal. lia.
  - destruct c; simpl; [|done..].
    change (list_alter RankStatistics.incr k a) with (alter RankStatistics.incr k a).
    rewrite IH by lia.
    destruct (cellsSum a); simpl; [|done]. f_equal. lia.
Qed.

Lemma cellsSum_extend (a : list RankStatistics.cell) (n : nat) :
  cellsSum (a ++ replicate n RankStatistics.Hole ++ [RankStatistics.NaN]) = None.
Proof.
  induction a as [|c a IH]; simpl.
  - by destruct n.
  - destruct c; [|done..]. by rewrite IH.
Qed.

Lemma cellsSum_incrAt_None (a : list RankStatistics.cell) (k : nat) :
  cellsSum a = None ∨ (length a ≤ k)%nat → cellsSum (RankStatistics.incrAt k a) = None.
Proof.
  unfold RankStatistics.incrAt. intros Hor. case_decide as Hk.
  - destruct Hor as [Hnone|?]; [|lia]. by rewrite cellsSum_alter_incr, Hnone.
  - apply cellsSum_extend.
Qed.

Section histogram.
Context `{!Submission.Methods, !Team.Methods}.

Lemma buildStatistics_fold (r : Rank.t) :
  RankStatistics.teamSolvedNum (buildStatistics r)
  = foldl (λ a x, RankStatistics.incrAt (Team.solvedProblemNum x) a)
          (replicate (length (Contest.problems (Rank.contest r)) + 1)%nat
                     (RankStatistics.Num 0))
          (omap (Rank.store r !!.) (Rank.teams r)).
Proof.
  unfold buildStatistics. simpl.
  generalize (replicate (length (Contest.problems (Rank.contest r)) + 1)%nat
                        (RankStatistics.Num 0)).
  induction (Rank.teams r) as [|i order IH]; intros a; simpl; [done|].
  destruct (Rank.store r !! i); simpl; apply IH.
Qed.

Lemma finish_rankStatistics (x : Rank.t) :
  Rank.rankStatistics (finish x) = buildStatistics (finish x).
Proof. unfold finish, buildStatistics. simpl. by destruct (truthy _). Qed.

Lemma histogram_in_range (P1 : nat) (ts : list Team.t) :
  ∀ f : nat → Z,
    (∀ t, t ∈ ts → (Team.solvedProblemNum t < P1)%nat) →
    foldl (λ a x, RankStatistics.incrAt (Team.solvedProblemNum x) a)
          ((λ k, RankStatistics.Num (f k)) <$> seq 0 P1) ts
    = (λ k, RankStatistics.Num (f k + countSolved k ts)) <$> seq 0 P1.
Proof.
  induction ts as [|x ts IH]; intros f Hin; simpl.
  - apply list_fmap_ext. intros _ k _. unfold countSolved. simpl. f_equal. lia.
  - assert (Hx : (Team.solvedProblemNum x < P1)%nat) by (apply Hin; by left).
    unfold RankStatistics.incrAt at 2.
    rewrite decide_True by by rewrite length_fmap, length_seq.
    assert (Hstep : alter RankStatistics.incr (Team.solvedProblemNum x)
                      ((λ k, RankStatistics.Num (f k)) <$> seq 0 P1)
                    = (λ k, RankStatistics.Num
                              (f k + if decide (Team.solvedProblemNum x = k) then 1 else 0))
                        <$> seq 0 P1).
    { apply list_eq. intros i. rewrite list_lookup_fmap.
      destruct (decide (Team.solvedProblemNum x = i)) as [<-|Hne].
      - rewrite list_lookup_alter_eq, list_lookup_fmap.
        rewrite lookup_seq_lt by done. simpl. by rewrite decide_True.
      - rewrite list_lookup_alter_ne, list_lookup_fmap by done.
        destruct (seq 0 P1 !! i) as [k|] eqn:Hk; [|done]. simpl.
        apply lookup_seq in Hk as [-> _]. simpl.
        rewrite decide_False by done. by rewrite Z.add_0_r. }
    rewrite Hstep, IH by (intros t Ht; apply Hin; by right).
    apply list_fmap_ext. intros _ k _. f_equal. unfold countSolved.
    rewrite filter_cons. repeat case_decide; simpl; try done; lia.
Qed.

Lemma histogram_sum (ts : list Team.t) :
  ∀ (a : list RankStatistics.cell) (s : Z),
    cellsSum a = Some s →
    (∀ t, t ∈ ts → (Team.solvedProblemNum t < length a)%nat) →
    cellsSum (foldl (λ a x, RankStatistics.incrAt (Team.solvedProblemNum x) a) a ts)
    = Some (s + Z.of_nat (length ts)).
Proof.
  induction ts as [|x ts IH]; intros a s Ha Hin; simpl.
  - rewrite Ha. f_equal. lia.
  - assert (Hx : (Team.solvedProblemNum x < length a)%nat) by (apply Hin; by left).
    unfold RankStatistics.incrAt at 2. rewrite decide_True by done.
    rewrite (IH _ (s + 1)).
    + f_equal. lia.
    + by rewrite cellsSum_alter_incr, Ha.
    + intros t Ht. rewrite length_alter. apply Hin. by right.
Qed.

Lemma histogram_out_of_range (ts : list Team.t) :
  ∀ a : list RankStatistics.cell,
    cellsSum a = None
    ∨ (∃ t, t ∈ ts ∧ (length a ≤ Team.solvedProblemNum t)%nat) →
    cellsSum (foldl (λ a x, RankStatistics.incrAt (Team.solvedProblemNum x) a) a ts)
    = None.
Proof.
  induction ts as [|x ts IH]; intros a Hor; simpl.
  - destruct Hor as [?|(t & ?%elem_of_nil & _)]; done.
  - apply IH.
    destruct (decide (length a ≤ Team.solvedProblemNum x)%nat) as [Hx|Hx].
    { left. apply cellsSum_incrAt_None. by right. }
    destruct Hor as [Hnone|(t & Ht & Hbad)].
    { left. apply cellsSum_incrAt_None. by left. }
    right. exists t. apply elem_of_cons in Ht as [->|Ht]; [lia|].
    split; [done|]. unfold RankStatistics.incrAt.
    rewrite decide_True by lia. by rewrite length_alter.
Qed.

(** X18.  The histogram [buildRank] leaves in [rankStatistics].  When no
    team has more problems solved than the contest has problems, its
    length is the number of problems plus one, slot [k] holds the number
    of teams with [k] problems solved, and the slots add up to the number
    of teams.  A team with a larger solved count makes [teamSolvedNum[k]++]
    hit a slot past the end: the array then holds [NaN] and is no longer
    a histogram. *)
Theorem histogram_counts (r r' : Rank.t) :
  wellFormed r → buildRank r = Some r' →
  let P := length (Contest.problems (Rank.contest r')) in
  let h := RankStatistics.teamSolvedNum (Rank.rankStatistics r') in
  ((∀ t, t ∈ Rank.store r' → (Team.solvedProblemNum t ≤ P)%nat) →
   h = (λ k, RankStatistics.Num (countSolved k (Rank.store r'))) <$> seq 0 (P + 1)
   ∧ cellsSum h = Some (Z.of_nat (length (Rank.store r'))))
  ∧ ((∃ t, t ∈ Rank.store r' ∧ (P < Team.solvedProblemNum t)%nat) → cellsSum h = None).
Proof.
  intros Hwf Hbuild P h.
  destruct (buildRank_view r r' Hwf Hbuild) as (S4 & Horder & Hlen & _).
  assert (∃ x, r' = finish x) as [x ->].
  { unfold buildRank in Hbuild. destruct (replay _ _) as [x|]; [|done].
    exists x. simpl in Hbuild. by simplify_eq. }
  subst h. rewrite finish_rankStatistics, buildStatistics_fold. fold P.
  assert (Hts : omap (Rank.store (finish x) !!.) (Rank.teams (finish x))
                ≡ₚ Rank.store (finish x)).
  { rewrite Horder, <-Hlen. by rewrite omap_lookup_seq. }
  set (ts := omap (Rank.store (finish x) !!.) (Rank.teams (finish x))) in *.
  assert (Hinit : replicate (P + 1) (RankStatistics.Num 0)
                  = (λ _, RankStatistics.Num 0) <$> seq 0 (P + 1)).
  { apply list_eq. intros i. rewrite list_lookup_fmap.
    destruct (decide (i < P + 1)%nat).
    - rewrite lookup_replicate_2, lookup_seq_lt by done. done.
    - rewrite lookup_seq_ge by lia. simpl. apply lookup_replicate_None. lia. }
  split.
  - intros Hin.
    assert (Hin' : ∀ t, t ∈ ts → (Team.solvedProblemNum t < P + 1)%nat).
    { intros t Ht. rewrite Hts in Ht. apply Hin in Ht. lia. }
    split.
    + rewrite Hinit, (histogram_in_range (P + 1) ts (λ _, 0)) by done.
      apply list_fmap_ext. intros _ k _. f_equal. unfold countSolved.
      by rewrite Hts.
    + rewrite (histogram_sum ts _ 0).
      * by rewrite Hts.
      * apply cellsSum_replicate.
      * intros t Ht. rewrite length_replicate. by apply Hin'.
  - intros (t & Ht & Hbad). apply histogram_out_of_range. right.
    exists t. rewrite Hts, length_replicate. split; [done|lia].
Qed.
End histogram.

(** ** The organization walk *)

Section organization_ranks.
Context `{!Submission.Methods, !Team.Methods}.

Lemma assignOrganizationRank_notin (order : list nat) :
  ∀ (c : Z) (pre : option nat) (se : gset string) (store : list Team.t) (i : nat),
    i ∉ order → assignOrganizationRank c pre se order store !! i = store !! i.
Proof.
  induction order as [|i1 order IH]; intros c pre se store i Hi; simpl; [done|].
  apply not_elem_of_cons in Hi as [Hne Hi].
  destruct (store !! i1) as [x1|] eqn:Hx1; [|by apply IH].
  case_decide; [by apply IH|].
  rewrite IH by done.
  destruct pre as [p|]; [|by rewrite list_lookup_alter_ne].
  repeat case_match; by rewrite ?list_lookup_alter_ne.
Qed.

(** The store after one numbered turn of the walk. *)
Lemma organization_turn (c : Z) (pre : option nat) (store : list Team.t) (i1 : nat)
    (x1 : Team.t) (lo : Z) :
  store !! i1 = Some x1 → (∀ p, pre = Some p → p ≠ i1) →
  (∀ p xp, pre = Some p → store !! p = Some xp → lo ≤ Team.organizationRank xp < c) →
  lo ≤ c →
  ∃ v, match pre with
       | Some p =>
           match alter (Team.set_organizationRank c) i1 store !! i1,
                 alter (Team.set_organizationRank c) i1 store !! p with
           | Some x, Some pre0 =>
               if Team.isEqualRank x pre0
               then alter (Team.set_organizationRank (Team.organizationRank pre0)) i1
                          (alter (Team.set_organizationRank c) i1 store)
               else alter (Team.set_organizationRank c) i1 store
           | _, _ => alter (Team.set_organizationRank c) i1 store
           end
       | None => alter (Team.set_organizationRank c) i1 store
       end
       = <[i1 := Team.set_organizationRank v x1]> store
       ∧ lo ≤ v ≤ c.
Proof.
  intros Hx1 Hpre Hbound Hlo.
  assert (Halter : alter (Team.set_organizationRank c) i1 store
                   = <[i1 := Team.set_organizationRank c x1]> store).
  { by apply list_alter_lookup_insert. }
  destruct pre as [p|]; cycle 1.
  { exists c. split; [done|lia]. }
  rewrite Halter.
  rewrite list_lookup_insert_eq by (by eapply lookup_lt_Some).
  rewrite list_lookup_insert_ne by (by apply not_eq_sym, Hpre).
  destruct (store !! p) as [xp|] eqn:Hxp; cycle 1.
  { exists c. split; [done|lia]. }
  destruct (Team.isEqualRank _ xp).
  - exists (Team.organizationRank xp). split.
    + erewrite list_alter_lookup_insert
        by (by apply list_lookup_insert_eq; eapply lookup_lt_Some).
      by rewrite list_insert_insert_eq.
    + specialize (Hbound p xp eq_refl Hxp). lia.
  - exists c. split; [done|lia].
Qed.

Lemma assignOrganizationRank_spec (order : list nat) :
  ∀ (c : Z) (pre : option nat) (se : gset string) (store : list Team.t) (lo : Z),
    NoDup order → (∀ p, pre = Some p → p ∉ order) →
    (∀ p xp, pre = Some p → store !! p = Some xp → lo ≤ Team.organizationRank xp < c) →
    lo ≤ c →
    ∀ n i x, order !! n = Some i → store !! i = Some x →
      let seen :=
        Team.organization x ∈ se
        ∨ ∃ m i0 x0, (m < n)%nat ∧ order !! m = Some i0 ∧ store !! i0 = Some x0
                     ∧ Team.organization x0 = Team.organization x in
      (seen → assignOrganizationRank c pre se order store !! i = Some x)
      ∧ (¬ seen →
         ∃ v, assignOrganizationRank c pre se order store !! i
              = Some (Team.set_organizationRank v x)
              ∧ lo ≤ v ≤ c + Z.of_nat n).
Proof.
  induction order as [|i1 order IH]; intros c pre se store lo Hnd Hpre Hbound Hlo n i x Hi Hx;
    [done|].
  apply NoDup_cons in Hnd as [Hi1 Hnd].
  assert (Hpre' : ∀ p, pre = Some p → (p ∉ order) ∧ p ≠ i1).
  { intros p Hp. specialize (Hpre p Hp). apply not_elem_of_cons in Hpre. tauto. }
  simpl.
  destruct n as [|n]; simpl in Hi.
  - (* the team at the head *)
    injection Hi as ->. rewrite Hx. split.
    + intros [Hse|(m & ? & ? & ? & _)]; [|lia].
      rewrite decide_True by done. rewrite assignOrganizationRank_notin by done. done.
    + intros Hns. rewrite decide_False by tauto.
      rewrite assignOrganizationRank_notin by done.
      destruct (organization_turn c pre store i x lo Hx) as (v & -> & Hv);
        [naive_solver|done..|].
      exists v. rewrite list_lookup_insert_eq by (by eapply lookup_lt_Some).
      split; [done|lia].
  - (* a team further on *)
    assert (Hne : i ≠ i1).
    { intros ->. apply Hi1. by eapply list_elem_of_lookup_2. }
    destruct (store !! i1) as [x1|] eqn:Hx1; cycle 1.
    { destruct (IH c pre se store lo Hnd) with (n := n) (i := i) (x := x)
        as [Hseen Hnew]; [naive_solver|done..|].
      split.
      - intros [Hse|(m & i0 & x0 & Hm & Hi0 & Hx0 & Horg)]; apply Hseen; [by left|].
        destruct m as [|m]; simpl in Hi0; [naive_solver|].
        right. exists m, i0, x0. split_and!; [lia|done..].
      - intros Hns. destruct Hnew as (v & Hv & Hb).
        + intros [Hse|(m & i0 & x0 & Hm & Hi0 & Hx0 & Horg)]; apply Hns; [by left|].
          right. exists (S m), i0, x0. split_and!; [lia|done..].
        + exists v. split; [done|lia]. }
    case_decide as Hse1.
    { destruct (IH c pre se store lo Hnd) with (n := n) (i := i) (x := x)
        as [Hseen Hnew]; [naive_solver|done..|].
      split.
      - intros [Hse|(m & i0 & x0 & Hm & Hi0 & Hx0 & Horg)]; apply Hseen; [by left|].
        destruct m as [|m]; simpl in Hi0.
        + left. simplify_eq. by rewrite <-Horg.
        + right. exists m, i0, x0. split_and!; [lia|done..].
      - intros Hns. destruct Hnew as (v & Hv & Hb).
        + intros [Hse|(m & i0 & x0 & Hm & Hi0 & Hx0 & Horg)]; apply Hns; [by left|].
          right. exists (S m), i0, x0. split_and!; [lia|done..].
        + exists v. split; [done|lia]. }
    destruct (organization_turn c pre store i1 x1 lo Hx1) as (v1 & -> & Hv1);
      [naive_solver|done..|].
    assert (Hsame : ∀ k, k ≠ i1 →
              <[i1 := Team.set_organizationRank v1 x1]> store !! k = store !! k).
    { intros k Hk. by rewrite list_lookup_insert_ne. }
    destruct (IH (c + 1) (Some i1) ({[Team.organization x1]} ∪ se)
                (<[i1 := Team.set_organizationRank v1 x1]> store) lo Hnd)
      with (n := n) (i := i) (x := x) as [Hseen Hnew].
    { by intros p [= <-]. }
    { intros p xp [= <-]. rewrite list_lookup_insert_eq by (by eapply lookup_lt_Some).
      intros [= <-]. simpl. lia. }
    { lia. }
    { done. }
    { by rewrite Hsame. }
    split.
    + intros Hs. apply Hseen.
      destruct Hs as [Hse|(m & i0 & x0 & Hm & Hi0 & Hx0 & Horg)].
      * left. set_solver.
      * destruct m as [|m]; simpl in Hi0.
        -- left. simplify_eq. set_solver.
        -- right. exists m, i0, x0. split_and!; [lia|done| |done].
           rewrite Hsame; [done|]. intros ->. apply Hi1.
           by eapply list_elem_of_lookup_2.
    + intros Hns. destruct Hnew as (v & Hv & Hb).
      * intros [Hse|(m & i0 & x0 & Hm & Hi0 & Hx0 & Horg)]; apply Hns.
        -- apply elem_of_union in Hse as [->%elem_of_singleton|Hse]; [|by left].
           right. exists 0%nat, i1, x1. split_and!; [lia|done..].
        -- right. exists (S m), i0, x0. split_and!; [lia|done| |done].
           rewrite <-Hx0. symmetry. apply Hsame. intros ->. apply Hi1.
           by eapply list_elem_of_lookup_2.
      * exists v. split; [done|lia].
Qed.

(** X19.  The organization walk numbers only the first team of each
    organization.  Over distinct teams, a team whose organization was met
    earlier in the order is left exactly as it was, its [organizationRank]
    included; the first team of an organization gets an
    [organizationRank] between 1 and its position, and nothing else of it
    changes.  Without an [organization] field in the contest [buildRank]
    does not run the walk, and every [organizationRank] is what
    [calcSolvedData] left. *)
Theorem organization_walk :
  (∀ (order : list nat) (store : list Team.t) (n i : nat) (x : Team.t),
     NoDup order → order !! n = Some i → store !! i = Some x →
     let store' := assignOrganizationRank 1 None ∅ order store in
     let seen :=
       ∃ m i0 x0, (m < n)%nat ∧ order !! m = Some i0 ∧ store !! i0 = Some x0
                  ∧ Team.organization x0 = Team.organization x in
     (seen → store' !! i = Some x)
     ∧ (¬ seen →
        ∃ v, store' !! i = Some (Team.set_organizationRank v x)
             ∧ 1 ≤ v ≤ Z.of_nat n + 1))
  ∧ (∀ (order : list nat) (store : list Team.t) (i : nat),
       i ∉ order → assignOrganizationRank 1 None ∅ order store !! i = store !! i)
  ∧ (∀ x : Rank.t,
       Rank.teams x ≡ₚ seq 0 (length (Rank.store x)) →
       truthy (Contest.organization (Rank.contest x)) = false →
       Team.organizationRank <$> Rank.store (finish x)
       = Team.organizationRank <$> (Team.calcSolvedData <$> Rank.store x)).
Proof.
  split_and!.
  - intros order store n i x Hnd Hi Hx store' seen.
    destruct (assignOrganizationRank_spec order 1 None ∅ store 1 Hnd)
      with (n := n) (i := i) (x := x) as [Hseen Hnew]; [done|done|lia|done..|].
    split.
    + intros Hs. apply Hseen. by right.
    + intros Hns. destruct Hnew as (v & Hv & Hb).
      * intros [Hse|Hs]; [set_solver|done].
      * exists v. split; [done|lia].
  - intros order store i. apply assignOrganizationRank_notin.
  - intros x Hperm Hfalsy. unfold finish. simpl. rewrite Hfalsy. simpl.
    rewrite forEachTeam_all by done. by apply assignRank_fmap.
Qed.
End organization_ranks.

(** ** The constructor *)

Section constructor_order.
Context `{!Submission.Methods, !Team.Methods}.

(** X20.  What the constructor of [Rank] sets up: the team objects in the
    order given, the owned submissions a sorted rearrangement of the ones
    given (the very same sequence when that is sorted already, so
    constructing again from the owned sequence changes nothing), and the
    filter off, [getSubmissions] returning the owned sequence. *)
Theorem constructor_sorts_submissions (contest : Contest.t) (teams : list Team.t)
    (submissions : Submissions) :
  ConsistentComparator Submission.compare →
  let r := newRank contest teams submissions in
  Rank.store r = teams
  ∧ Rank.teams r = seq 0 (length teams)
  ∧ Rank.submissions r ≡ₚ submissions
  ∧ Sorted (cmp_le Submission.compare) (Rank.submissions r)
  ∧ (Sorted (cmp_le Submission.compare) submissions → Rank.submissions r = submissions)
  ∧ Rank.submissions (newRank contest teams (Rank.submissions r)) = Rank.submissions r
  ∧ getSubmissions r = Rank.submissions r.
Proof.
  intros Hcmp r. subst r. simpl. split_and!; try done.
  - apply js_sort_Permutation.
  - by apply js_sort_Sorted.
  - apply js_sort_Sorted_id.
  - by apply js_sort_Sorted_id, js_sort_Sorted.
Qed.
End constructor_order.

(** ** The further properties on the small contest *)

Section further_reference_run.
Import Reference.

Lemma clock_seconds_witness :
  17999 ≤ ContestTimes.elapsedSeconds
            (ContestTimes.mk 0 18000000 14400000 18000 3600 14400) 9000500
          + ContestTimes.remainingSeconds
              (ContestTimes.mk 0 18000000 14400000 18000 3600 14400) 9000500
  ≤ 18000.
Proof.
  pose proof (clock_seconds (ContestTimes.mk 0 18000000 14400000 18000 3600 14400)
                9000500) as Hclock.
  simpl in Hclock. destruct Hclock as (_ & _ & _ & Hsum & _); [lia|]. exact Hsum.
Defined.

Lemma isEnableAwards_createAwards_witness :
  isEnableAwards contest1 "all" = true
  ↔ ∃ groups v,
      Some ({[ "all" := {[ "gold" := 1; "silver" := 2 ]} ]} : gmap string (gmap string Z))
      = Some groups
      ∧ groups !! "all" = Some v.
Proof.
  exact (proj1 (isEnableAwards_createAwards contest1
                  (Some {[ "all" := {[ "gold" := 1; "silver" := 2 ]} ]}) "all" eq_refl)).
Defined.

Lemma createAwardList_partition_witness :
  ∃ i a, createAwardList {[ "gold" := 1; "silver" := 2 ]} !! i = Some a
         ∧ Award.minRank a ≤ 3 ≤ Award.maxRank a
         ∧ ∀ i' a', createAwardList {[ "gold" := 1; "silver" := 2 ]} !! i' = Some a' →
                    Award.minRank a' ≤ 3 ≤ Award.maxRank a' → i' = i.
Proof.
  apply createAwardList_partition.
  - intros key n Hk. apply lookup_insert_Some in Hk as [[_ <-]|[_ Hk]]; [lia|].
    apply lookup_singleton_Some in Hk as [_ <-]. lia.
  - unfold MAX_RANK. lia.
Defined.

Lemma id_lookup_round_trip_witness :
  Rank.getTeam rank1 (Team.id (team "t2" "Y")) = Some (1%nat, team "t2" "Y").
Proof.
  destruct (id_lookup_round_trip contest1 teams1 submissions1 eq_refl)
    as (_ & _ & Hteam & _).
  apply Hteam; [|reflexivity].
  apply (bool_decide_unpack _). vm_compute. exact I.
Defined.


Lemma getSubmissions_window_prefix_witness :
  ∃ mid rest,
    getSubmissions (Rank.set_options (RankOptions.setWidth 5000 contest1 RankOptions.new) rank1)
    = getSubmissions
        (Rank.set_options (RankOptions.setWidth 2500 contest1 RankOptions.new) rank1)
      ++ mid
    ∧ Rank.submissions rank1
      = getSubmissions
          (Rank.set_options (RankOptions.setWidth 5000 contest1 RankOptions.new) rank1)
        ++ rest.
Proof.
  destruct (getSubmissions_window_prefix rank1
              (RankOptions.setWidth 2500 contest1 RankOptions.new)
              (RankOptions.setWidth 5000 contest1 RankOptions.new)
              compareSubmission_consistent compareSubmission_timestamps
              (proj2 (proj2 rank1_wellFormed)) eq_refl eq_refl)
    as (mid & rest & Hmid & Hrest & _).
  - apply Z.leb_le. vm_compute. reflexivity.
  - by exists mid, rest.
Defined.

Lemma replay_keeps_counters_witness :
  ∃ x, replay (prepare rank1) (getSubmissions (prepare rank1)) = Some x
       ∧ buildRank rank1 = Some (finish x)
       ∧ (∀ pre post r1,
            getSubmissions (prepare rank1) = pre ++ post →
            replay (prepare rank1) pre = Some r1 →
            eachStatistics tpsOk r1 ∧ eachProblem countersOk r1)
       ∧ eachStatistics tpsOk x
       ∧ eachProblem countersOk x
       ∧ eachProblem countersOk (finish x).
Proof. exact (replay_keeps_counters rank1 rank1_wellFormed). Defined.

Lemma solved_stays_solved_witness :
  ∃ r' x ps x' ps',
    replay replayed1 [sub "s9" "t3" "A" 6000 "ACCEPTED"] = Some r'
    ∧ Rank.store replayed1 !! 2%nat = Some x
    ∧ Team.problemStatistics x !! 0%nat = Some ps
    ∧ Rank.store r' !! 2%nat = Some x'
    ∧ Team.problemStatistics x' !! 0%nat = Some ps'
    ∧ frozenAs ps ps'.
Proof.
  assert (Hrun : ∃ r' x ps,
            replay replayed1 [sub "s9" "t3" "A" 6000 "ACCEPTED"] = Some r'
            ∧ Rank.store replayed1 !! 2%nat = Some x
            ∧ Team.problemStatistics x !! 0%nat = Some ps
            ∧ TeamProblemStatistics.isSolved ps = true).
  { vm_compute. eexists _, _, _. split_and!; reflexivity. }
  destruct Hrun as (r' & x & ps & Hr' & Hx & Hps & Hsolved).
  destruct (solved_stays_solved _ _ _ _ _ _ _ Hr' Hx Hps Hsolved)
    as (x' & ps' & Hx' & Hps' & Hfrozen).
  by exists r', x, ps, x', ps'.
Defined.

Lemma replay_records_witness :
  ∃ r' p p',
    replay (prepare rank1) (getSubmissions (prepare rank1)) = Some r'
    ∧ Contest.problems (Rank.contest (prepare rank1)) !! 0%nat = Some p
    ∧ Contest.problems (Rank.contest r') !! 0%nat = Some p'
    ∧ ProblemStatistics.submittedNum (Problem.statistics p')
      = ProblemStatistics.submittedNum (Problem.statistics p)
        + Z.of_nat (length (filter (λ s, snd <$> refsOf (prepare rank1) s = Some 0%nat)
                                   (getSubmissions (prepare rank1)))).
Proof.
  assert (Hrun : ∃ r' p,
            replay (prepare rank1) (getSubmissions (prepare rank1)) = Some r'
            ∧ Contest.problems (Rank.contest (prepare rank1)) !! 0%nat = Some p).
  { vm_compute. eexists _, _. split_and!; reflexivity. }
  destruct Hrun as (r' & p & Hr' & Hp).
  destruct (replay_records _ _ _ Hr') as [_ Hprob].
  destruct (Hprob 0%nat p Hp) as (p' & Hp' & Hnum).
  by exists r', p, p'.
Defined.

Lemma buildRank_submittedNum_witness :
  ∃ r' p',
    buildRank rank1 = Some r'
    ∧ Contest.problems (Rank.contest r') !! 0%nat = Some p'
    ∧ ProblemStatistics.submittedNum (Problem.statistics p')
      = Z.of_nat (length (filter (λ s, snd <$> refsOf rank1 s = Some 0%nat)
                                 (getSubmissions rank1))).
Proof.
  assert (Hrun : ∃ r' p',
            buildRank rank1 = Some r'
            ∧ Contest.problems (Rank.contest r') !! 0%nat = Some p').
  { vm_compute. eexists _, _. split_and!; reflexivity. }
  destruct Hrun as (r' & p' & Hr' & Hp').
  exists r', p'. split_and!; [done..|].
  exact (buildRank_submittedNum rank1 r' 0%nat p' rank1_wellFormed Hr' Hp').
Defined.

Lemma acceptedNum_counts_solved_teams_witness :
  ∃ x, replay (prepare rank1) (getSubmissions (prepare rank1)) = Some x
       ∧ buildRank rank1 = Some (finish x)
       ∧ acceptedIsSolved x
       ∧ ∀ pre post r1,
           getSubmissions (prepare rank1) = pre ++ post →
           replay (prepare rank1) pre = Some r1 → acceptedIsSolved r1.
Proof. exact (acceptedNum_counts_solved_teams rank1 rank1_wellFormed). Defined.

Lemma ranks_follow_order_witness :
  ∃ r', buildRank rank1 = Some r'
        ∧ ∀ i a, Rank.store r' !! i = Some a →
                 1 ≤ Team.rank a ≤ Z.of_nat (length (Rank.store r')).
Proof.
  assert (Hrun : ∃ r', buildRank rank1 = Some r').
  { vm_compute. eexists. reflexivity. }
  destruct Hrun as (r' & Hr'). exists r'. split; [done|].
  exact (proj1 (ranks_follow_order rank1 r' rank1_wellFormed Hr')).
Defined.

Lemma equal_rank_same_key_witness :
  ∃ r' a b,
    buildRank rank1 = Some r'
    ∧ Rank.store r' !! 0%nat = Some a ∧ Rank.store r' !! 1%nat = Some b
    ∧ (Team.rank a = Team.rank b → sameKey a b).
Proof.
  assert (Hrun : ∃ r' a b,
            buildRank rank1 = Some r'
            ∧ Rank.store r' !! 0%nat = Some a ∧ Rank.store r' !! 1%nat = Some b).
  { vm_compute. eexists _, _, _. split_and!; reflexivity. }
  destruct Hrun as (r' & a & b & Hr' & Ha & Hb).
  exists r', a, b. split_and!; [done..|].
  exact (proj1 (equal_rank_same_key rank1 r' 0%nat 1%nat a b reference_rankingKeyLaws
                  rank1_wellFormed Hr' Ha Hb)).
Defined.

Lemma histogram_counts_witness :
  ∃ r', buildRank rank1 = Some r'
        ∧ ((∃ t, t ∈ Rank.store r'
                 ∧ (length (Contest.problems (Rank.contest r'))
                    < Team.solvedProblemNum t)%nat) →
           cellsSum (RankStatistics.teamSolvedNum (Rank.rankStatistics r')) = None).
Proof.
  assert (Hrun : ∃ r', buildRank rank1 = Some r').
  { vm_compute. eexists. reflexivity. }
  destruct Hrun as (r' & Hr'). exists r'. split; [done|].
  exact (proj2 (histogram_counts rank1 r' rank1_wellFormed Hr')).
Defined.

Lemma constructor_sorts_submissions_witness :
  Rank.submissions (newRank contest1 teams1 (Rank.submissions rank1))
  = Rank.submissions rank1.
Proof.
  destruct (constructor_sorts_submissions contest1 teams1 submissions1
              compareSubmission_consistent) as (_ & _ & _ & _ & _ & Hagain & _).
  exact Hagain.
Defined.
End further_reference_run.
